(** * The pending-to-committed changelog pipeline

    A shallow embedding of
    [alpha_beta_command_center/JiraIssueCreation/process_changelog_to_jira.py]
    and of the methods of [jira_connector.py] it calls.

    Text is a list of characters with code points below 256, on which
    whitespace and letter case follow Python's [str] methods.  The
    operator's console is a finite list of input lines, whose exhaustion is
    [EOFError]; the tracker is an oracle that answers each call from the
    history of the run; the file system is a map from paths to the text
    that the files hold, changed only by the primitive operations
    [open(..., "w")], [open(..., "a")] and [write].

    Files are opened in text mode on a system whose line separator is the
    line feed: what is written reaches the file as it is, and what is read
    comes with every CRLF and CR turned into a line feed
    ([universal_newlines]).  [main] is the run on a disk that takes every
    operation; [main_on] is the run on a disk that may refuse some, with the
    handlers of the source around the writes. *)

From Stdlib Require Import Ascii String List Arith Lia Bool ZArith.
From Stdlib Require Import DecimalString.
Import ListNotations.

Set Implicit Arguments.

(* ================================================================= *)
(** ** Python strings *)

Definition str := list ascii.

Definition NL : ascii := "010"%char.
Definition CR : ascii := "013"%char.

(** A literal. *)
Definition L (s : string) : str := list_ascii_of_string s.

(** A literal followed by a newline. *)
Definition Ln (s : string) : str := L s ++ [NL].

Definition str_eq_dec : forall a b : str, {a = b} + {a <> b} :=
  list_eq_dec ascii_dec.

Definition str_eqb (a b : str) : bool :=
  if str_eq_dec a b then true else false.

(** Truth value of a string: non-empty. *)
Definition truthy (s : str) : bool :=
  match s with [] => false | _ :: _ => true end.

(** [s.startswith(p)] *)
Fixpoint startswith (s p : str) {struct p} : bool :=
  match p, s with
  | [], _ => true
  | _ :: _, [] => false
  | a :: p', b :: s' => Ascii.eqb a b && startswith s' p'
  end.

(** [s.endswith(p)] *)
Definition endswith (s p : str) : bool := startswith (rev s) (rev p).

(** [s.find(sub)]: the lowest index at which [sub] occurs, [None] for -1. *)
Fixpoint find (s sub : str) : option nat :=
  if startswith s sub then Some 0
  else match s with
       | [] => None
       | _ :: s' => option_map S (find s' sub)
       end.

(** [s.find(sub, start)] *)
Definition find_from (s sub : str) (start : nat) : option nat :=
  if start <=? length s
  then option_map (Nat.add start) (find (skipn start s) sub)
  else None.

(** [sub in s] *)
Definition contains (s sub : str) : bool :=
  match find s sub with Some _ => true | None => false end.

(** [s.split(sep)] for a non-empty [sep], as CPython does it: repeated
    [find], cutting after each occurrence.  The counter bounds the number of
    cuts; [split] starts it at the length of the string, which is never
    reached ([split_fuel_enough]). *)
Fixpoint split_fuel (n : nat) (s sep : str) : list str :=
  match n with
  | 0 => [s]
  | S n' =>
      match find s sep with
      | None => [s]
      | Some i => firstn i s :: split_fuel n' (skipn (i + length sep) s) sep
      end
  end.

Definition split (s sep : str) : list str := split_fuel (length s) s sep.

(** [sep.join(l)] *)
Fixpoint join (sep : str) (l : list str) : str :=
  match l with
  | [] => []
  | [x] => x
  | x :: rest => x ++ sep ++ join sep rest
  end.

(** [c.isspace()] on the 8-bit range. *)
Definition isspace (c : ascii) : bool :=
  let n := nat_of_ascii c in
  ((9 <=? n) && (n <=? 13)) || ((28 <=? n) && (n <=? 32))
  || (n =? 133) || (n =? 160).

Fixpoint lstrip (s : str) : str :=
  match s with
  | c :: s' => if isspace c then lstrip s' else s
  | [] => []
  end.

Definition rstrip (s : str) : str := rev (lstrip (rev s)).

(** [s.strip()] *)
Definition strip (s : str) : str := rstrip (lstrip s).

(** [c.lower()] and [c.upper()] on the 8-bit range.  The three letters
    whose capital lies outside that range (code points 181, 223 and 255) are
    left unchanged by [upper_char]. *)
Definition lower_char (c : ascii) : ascii :=
  let n := nat_of_ascii c in
  if ((65 <=? n) && (n <=? 90))
     || ((192 <=? n) && (n <=? 222) && negb (n =? 215))
  then ascii_of_nat (n + 32) else c.

Definition upper_char (c : ascii) : ascii :=
  let n := nat_of_ascii c in
  if ((97 <=? n) && (n <=? 122))
     || ((224 <=? n) && (n <=? 254) && negb (n =? 247))
  then ascii_of_nat (n - 32) else c.

(** The characters on which [upper_char] is Python's: all but those
    three. *)
Definition cased (c : ascii) : bool :=
  let n := nat_of_ascii c in
  negb ((n =? 181) || (n =? 223) || (n =? 255)).

Definition lower (s : str) : str := map lower_char s.
Definition upper (s : str) : str := map upper_char s.

(** [s.capitalize()], which agrees with Python's on every text that
    starts with none of the three letters that [upper_char] leaves as they
    are ([cased]). *)
Definition capitalize (s : str) : str :=
  match s with
  | [] => []
  | c :: s' => upper_char c :: lower s'
  end.

(** Number of bytes of the UTF-8 encoding, which is what [tell()] reports
    on a file opened for writing in text mode. *)
Definition utf8_len (s : str) : nat :=
  fold_right (fun c n => (if nat_of_ascii c <? 128 then 1 else 2) + n) 0 s.

(* ================================================================= *)
(** ** Configuration *)

Definition ENTRY_SEPARATOR : str := Ln "---".
Definition TEMPLATE_END_MARKER : str := L "<!-- END TEMPLATE -->".
Definition JIRA_PROJECT_KEY : str := L "ROIA".

(** [USERS_CONFIG] *)
Definition USERS_CONFIG : list (str * (str * str)) :=
  [ (L "Amy", (L "PENDING_AMY_CHANGELOG.md", L "COMMITTED_AMY_CHANGELOG.md"));
    (L "Joe", (L "PENDING_JOE_CHANGELOG.md", L "COMMITTED_JOE_CHANGELOG.md"));
    (L "Charles",
      (L "PENDING_CHARLES_CHANGELOG.md", L "COMMITTED_CHARLES_CHANGELOG.md"));
    (L "Anthony",
      (L "PENDING_ANTHONY_CHANGELOG.md", L "COMMITTED_ANTHONY_CHANGELOG.md")) ].

Fixpoint assoc {V : Type} (k : str) (l : list (str * V)) : option V :=
  match l with
  | [] => None
  | (k', v) :: l' => if str_eqb k k' then Some v else assoc k l'
  end.

(* ================================================================= *)
(** ** Template partition and entry blocks (main, lines 442-477) *)

(** The [while] loop that advances past the newlines after the marker. *)
Fixpoint count_newlines (s : str) : nat :=
  match s with
  | c :: s' => if Ascii.eqb c NL then S (count_newlines s') else 0
  | [] => 0
  end.

(** [(template_section, processed_content)] *)
Definition template_partition (content : str) : str * str :=
  match find content TEMPLATE_END_MARKER with
  | None => ([], content)
  | Some template_end_idx =>
      match find_from content ENTRY_SEPARATOR
              (template_end_idx + length TEMPLATE_END_MARKER) with
      | Some first_entry_sep_after_template_idx =>
          (firstn (first_entry_sep_after_template_idx
                   + length ENTRY_SEPARATOR) content,
           skipn (first_entry_sep_after_template_idx
                  + length ENTRY_SEPARATOR) content)
      | None =>
          let e0 := template_end_idx + length TEMPLATE_END_MARKER in
          let end_of_template_block :=
            e0 + count_newlines (skipn e0 content) in
          let template_section := firstn end_of_template_block content in
          (if endswith template_section [NL] then template_section
           else template_section ++ [NL],
           skipn end_of_template_block content)
      end
  end.

Definition template_of (content : str) : str :=
  fst (template_partition content).

(** [[entry.strip() for entry in processed_content.split(ENTRY_SEPARATOR)
      if entry.strip()]] *)
Definition entry_texts (processed : str) : list str :=
  map strip
    (filter (fun entry => truthy (strip entry))
       (split processed ENTRY_SEPARATOR)).

Definition entries_of (content : str) : list str :=
  entry_texts (snd (template_partition content)).

(* ================================================================= *)
(** ** The run: console, tracker, files *)

(** Python dictionaries with string keys, in insertion order. *)
Definition dict (V : Type) := list (str * V).

Definition dict_get {V : Type} (d : dict V) (k : str) : option V := assoc k d.

(** [d.get(k, default)] *)
Definition dict_get_default {V : Type} (d : dict V) (k : str) (default : V) : V :=
  match assoc k d with Some v => v | None => default end.

(** [d[k] = v]: the value of a key that is there is replaced where it
    stands, a new key goes to the end. *)
Fixpoint dict_set {V : Type} (d : dict V) (k : str) (v : V) : dict V :=
  match d with
  | [] => [(k, v)]
  | (k', v') :: d' =>
      if str_eqb k k' then (k, v) :: d' else (k', v') :: dict_set d' k v
  end.

(** Values of the fields of an issue sent to the tracker. *)
Inductive FieldValue :=
| VStr (s : str)                 (* a plain string *)
| VKey (s : str)                 (* {'key': s} *)
| VName (s : str)                (* {'name': s} *)
| VNames (l : list str).         (* [{'name': s}, ...] *)

(** A release version as the tracker lists it. *)
Record Version := {
  version_id : str;
  version_name : str;
  version_archived : bool;
  version_released : bool }.

Inductive Level := WARNING | ERROR.

(** What the run does to the outside, in order. *)
Inductive Event :=
| EvInput (prompt : str) (line : option str)
| EvLog (level : Level) (msg : str)
| EvConnect (ok : bool)
| EvSearchIssues (jql : str) (res : option (list (str * str)))
| EvProjectVersions (project : str) (res : option (list Version))
| EvCreateIssue (fields : dict FieldValue) (res : option str)
| EvTransitions (issue_key : str) (res : option (list (str * str)))
| EvTransitionIssue (issue_key transition_id : str) (ok : bool)
| EvOpenW (path : str)
| EvOpenA (path : str)
| EvWrite (path : str) (data : str).

(** The tracker behind the [jira] library: each answer may depend on
    everything that happened before; [None] and [false] stand for a raised
    exception.  [search_issues] gives (key, summary) pairs, [transitions]
    gives (id, name) pairs. *)
Record Server := {
  srv_connect : list Event -> bool;
  srv_search_issues : list Event -> str -> option (list (str * str));
  srv_project_versions : list Event -> str -> option (list Version);
  srv_create_issue : list Event -> dict FieldValue -> option str;
  srv_transitions : list Event -> str -> option (list (str * str));
  srv_transition_issue : list Event -> str -> str -> bool }.

(** [os.environ] and the directory of the script. *)
Record Env := {
  environ : dict str;
  BASE_DIR : str }.

Definition FS := str -> option str.

Record World := {
  stdin : list str;
  events : list Event;
  fs : FS }.

(** The exceptions of a run; [SystemExit] is how [argparse] ends the
    process when it refuses the command line. *)
Inductive exn := EOFError | JIRAError | OSError | SystemExit.

Inductive Result (A : Type) :=
| Ok (a : A)
| Raise (e : exn).
Arguments Raise {A} e.

Definition M (A : Type) := World -> Result A * World.

Definition ret {A : Type} (a : A) : M A := fun w => (Ok a, w).

Definition raise {A : Type} (e : exn) : M A := fun w => (Raise e, w).

Definition bind {A B : Type} (m : M A) (k : A -> M B) : M B :=
  fun w => match m w with
           | (Ok a, w') => k a w'
           | (Raise e, w') => (Raise e, w')
           end.

(** [try: m  except Exception as e: h e].  What the code inside a [try]
    can raise is an [Exception] in every case; [SystemExit], which is none,
    is raised by [parse_args] alone, outside every [try]. *)
Definition try_except {A : Type} (m : M A) (h : exn -> M A) : M A :=
  fun w => match m w with
           | (Ok a, w') => (Ok a, w')
           | (Raise e, w') => h e w'
           end.

Declare Scope monad_scope.
Delimit Scope monad_scope with monad.
Notation "x <- m ;; k" := (bind m (fun x => k))
  (at level 61, m at next level, right associativity) : monad_scope.
Notation "m ;; k" := (bind m (fun _ => k))
  (at level 61, right associativity) : monad_scope.
Open Scope monad_scope.

Definition emit (e : Event) (w : World) : World :=
  {| stdin := stdin w; events := events w ++ [e]; fs := fs w |}.

(** [input(prompt)] *)
Definition input (prompt : str) : M str :=
  fun w => match stdin w with
           | [] => (Raise EOFError, emit (EvInput prompt None) w)
           | line :: rest =>
               (Ok line,
                {| stdin := rest;
                   events := events w ++ [EvInput prompt (Some line)];
                   fs := fs w |})
           end.

(** [logger.warning(msg)], [logger.error(msg)] of the script. *)
Definition log (level : Level) (msg : str) : M unit :=
  fun w => (Ok tt, emit (EvLog level msg) w).

(** A [while True] loop: the body answers [Some a] to [break] with [a] and
    [None] to go round again.  Every body below reads a line of input before
    it goes round again, so a loop started with as many rounds to spare as
    there are lines left never uses them up ([while_input_fuel]). *)
Fixpoint while_true {A : Type} (n : nat) (body : M (option A)) : M A :=
  fun w => match body w with
           | (Ok (Some a), w') => (Ok a, w')
           | (Ok None, w') =>
               match n with
               | 0 => (Raise EOFError, w')
               | S n' => while_true n' body w'
               end
           | (Raise e, w') => (Raise e, w')
           end.

Definition while_input {A : Type} (body : M (option A)) : M A :=
  fun w => while_true (length (stdin w)) body w.

(** *** File operations *)

Definition fs_set (f : FS) (path : str) (v : str) : FS :=
  fun p => if str_eqb p path then Some v else f p.

(** The effect of one event on the files. *)
Definition apply_event (e : Event) (f : FS) : FS :=
  match e with
  | EvOpenW path => fs_set f path []
  | EvOpenA path => fs_set f path (match f path with Some c => c | None => [] end)
  | EvWrite path data =>
      fs_set f path (match f path with Some c => c ++ data | None => data end)
  | _ => f
  end.

Definition apply_events (es : list Event) (f : FS) : FS :=
  fold_left (fun f e => apply_event e f) es f.

(** An operation that the disk takes; [fs_op_on] below is the operation
    on a disk that may refuse it. *)
Definition fs_op (e : Event) : M unit :=
  fun w => (Ok tt,
            {| stdin := stdin w;
               events := events w ++ [e];
               fs := apply_event e (fs w) |}).

(** [open(path, "w")]: creates or truncates. *)
Definition open_w (path : str) : M unit := fs_op (EvOpenW path).
(** [open(path, "a")]: creates if absent. *)
Definition open_a (path : str) : M unit := fs_op (EvOpenA path).
(** [f.write(data)] on the file opened at [path].  The data are taken to
    reach the file with the call, as they are (the line separator of the
    system being the line feed); Python may hold them back until the file
    is closed, so that what a file holds at any moment is a beginning of
    what is given here. *)
Definition write (path : str) (data : str) : M unit := fs_op (EvWrite path data).

(** Whether the disk refuses the operation [e], attempted after the events
    so far.  A refused [open] or [write] raises [OSError] and leaves the
    files as they are. *)
Definition Disk := list Event -> Event -> bool.

(** The disk that takes every operation. *)
Definition reliable : Disk := fun _ _ => false.

Definition fs_op_on (disk : Disk) (e : Event) : M unit :=
  fun w => if disk (events w) e then (Raise OSError, w) else fs_op e w.

Definition open_w_on (disk : Disk) (path : str) : M unit :=
  fs_op_on disk (EvOpenW path).
Definition open_a_on (disk : Disk) (path : str) : M unit :=
  fs_op_on disk (EvOpenA path).
Definition write_on (disk : Disk) (path : str) (data : str) : M unit :=
  fs_op_on disk (EvWrite path data).

(** [os.path.exists(path)] *)
Definition path_exists (path : str) : M bool :=
  fun w => (Ok (match fs w path with Some _ => true | None => false end), w).

(** What [read()] makes of the text of a file opened in text mode, with
    universal newlines: a CRLF and a CR on its own are read as a line
    feed. *)
Fixpoint universal_newlines (s : str) : str :=
  match s with
  | [] => []
  | c :: s' =>
      if Ascii.eqb c CR
      then NL :: match s' with
                 | c' :: s'' =>
                     if Ascii.eqb c' NL then universal_newlines s''
                     else universal_newlines s'
                 | [] => []
                 end
      else c :: universal_newlines s'
  end.

(** [open(path, "r").read()] *)
Definition read_file (path : str) : M str :=
  fun w => match fs w path with
           | Some content => (Ok (universal_newlines content), w)
           | None => (Raise OSError, w)
           end.

(** [for x in l: body x] *)
Fixpoint for_each {A : Type} (l : list A) (body : A -> M unit) : M unit :=
  match l with
  | [] => ret tt
  | x :: l' => body x ;; for_each l' body
  end.

(* ================================================================= *)
(** ** jira_connector.py *)

Definition DQ : ascii := "034"%char.

(** [JiraConnector.connect]: a new client, or the library's exception. *)
Definition connect (srv : Server) : M unit :=
  fun w => let ok := srv_connect srv (events w) in
           (if ok then Ok tt else Raise JIRAError, emit (EvConnect ok) w).

(** [client.search_issues(jql, maxResults=..., fields="summary,key")]: the
    issues that the tracker lists for the query, no more of them than
    [maxResults], which is 1000 in [get_stories_in_epic]. *)
Definition search_issues (srv : Server) (jql : str) : M (list (str * str)) :=
  fun w => let r := srv_search_issues srv (events w) jql in
           (match r with Some l => Ok l | None => Raise JIRAError end,
            emit (EvSearchIssues jql r) w).

(** [client.project_versions(project_key)] *)
Definition project_versions (srv : Server) (project_key : str) : M (list Version) :=
  fun w => let r := srv_project_versions srv (events w) project_key in
           (match r with Some l => Ok l | None => Raise JIRAError end,
            emit (EvProjectVersions project_key r) w).

(** [client.create_issue(fields=issue_dict).key] *)
Definition create_issue (srv : Server) (issue_dict : dict FieldValue) : M str :=
  fun w => let r := srv_create_issue srv (events w) issue_dict in
           (match r with Some k => Ok k | None => Raise JIRAError end,
            emit (EvCreateIssue issue_dict r) w).

(** [client.transitions(issue_key)] *)
Definition transitions (srv : Server) (issue_key : str) : M (list (str * str)) :=
  fun w => let r := srv_transitions srv (events w) issue_key in
           (match r with Some l => Ok l | None => Raise JIRAError end,
            emit (EvTransitions issue_key r) w).

(** [client.transition_issue(issue_key, transition_id)] *)
Definition transition_issue (srv : Server) (issue_key transition_id : str) : M unit :=
  fun w => let ok := srv_transition_issue srv (events w) issue_key transition_id in
           (if ok then Ok tt else Raise JIRAError,
            emit (EvTransitionIssue issue_key transition_id ok) w).

(** [JiraConnector.get_project_epics]: (key, summary) of each Epic; the
    empty list when the tracker fails. *)
Definition get_project_epics (srv : Server) (project_key : str)
  : M (list (str * str)) :=
  try_except
    (connect srv ;;
     let jql := L "project = " ++ [DQ] ++ project_key ++ [DQ]
                ++ L " AND issuetype = Epic AND component = "
                ++ [DQ] ++ L "FeatureCentral" ++ [DQ]
                ++ L " ORDER BY summary ASC" in
     epics <- search_issues srv jql ;;
     ret epics)
    (fun _ => ret []).

(** [JiraConnector.get_stories_in_epic] *)
Definition get_stories_in_epic (srv : Server) (project_key epic_key : str)
  : M (list (str * str)) :=
  try_except
    (connect srv ;;
     let jql := L "project = " ++ [DQ] ++ project_key ++ [DQ]
                ++ L " AND " ++ [DQ] ++ L "Epic Link" ++ [DQ] ++ L " = "
                ++ [DQ] ++ epic_key ++ [DQ]
                ++ L " AND issuetype = Story ORDER BY summary ASC" in
     stories <- search_issues srv jql ;;
     ret stories)
    (fun _ => ret []).

(** Truth value of an [Optional[str]]. *)
Definition truthy_opt (o : option str) : bool :=
  match o with Some s => truthy s | None => false end.

(** [JiraConnector.create_jira_issue].  The last parameter, [issue_type], is
    the one the source declares with the default ["Story"]. *)
Definition create_jira_issue (srv : Server)
    (project_key summary issue_type_name description_body
     reporter_username assignee_username : str)
    (epic_link_key : option str) (issue_type : str) : M (option str) :=
  try_except
    (connect srv ;;
     let issue_dict :=
       [ (L "project", VKey project_key);
         (L "summary", VStr summary);
         (L "description", VStr description_body);
         (L "issuetype", VName issue_type);
         (L "reporter", VName reporter_username);
         (L "assignee", VName assignee_username) ] in
     let issue_dict :=
       match epic_link_key with
       | Some k => if truthy k
                   then dict_set issue_dict (L "customfield_10007") (VStr k)
                   else issue_dict
       | None => issue_dict
       end in
     new_issue_key <- create_issue srv issue_dict ;;
     ret (Some new_issue_key))
    (fun _ => ret None).

(** [JiraConnector.create_jira_epic] *)
Definition create_jira_epic (srv : Server) (env : Env)
    (project_key epic_name reporter_username assignee_username : str)
    (description : option str) (fix_versions : option (list str))
    (components : option (list str)) : M (option str) :=
  try_except
    (connect srv ;;
     let issue_dict :=
       [ (L "project", VKey project_key);
         (L "summary", VStr epic_name);
         (L "issuetype", VName (L "Epic"));
         (L "reporter", VName reporter_username);
         (L "assignee", VName assignee_username) ] in
     let issue_dict :=
       match description with
       | Some d => if truthy d then dict_set issue_dict (L "description") (VStr d)
                   else issue_dict
       | None => issue_dict
       end in
     let issue_dict :=
       match fix_versions with
       | Some ((_ :: _) as fvs) =>
           dict_set issue_dict (L "fixVersions") (VNames fvs)
       | _ => issue_dict
       end in
     let issue_dict :=
       match components with
       | Some ((_ :: _) as cs) =>
           dict_set issue_dict (L "components") (VNames cs)
       | _ => issue_dict
       end in
     let epic_name_field_id := dict_get (environ env) (L "JIRA_EPIC_NAME_FIELD_ID") in
     let issue_dict :=
       match epic_name_field_id with
       | Some f => if truthy f then dict_set issue_dict f (VStr epic_name)
                   else dict_set issue_dict (L "customfield_10008") (VStr epic_name)
       | None => dict_set issue_dict (L "customfield_10008") (VStr epic_name)
       end in
     new_epic_key <- create_issue srv issue_dict ;;
     ret (Some new_epic_key))
    (fun _ => ret None).

(** [JiraConnector.get_project_versions]: (id, name) of the versions that
    are neither archived nor released. *)
Definition get_project_versions (srv : Server) (project_key : str)
  : M (list (str * str)) :=
  try_except
    (connect srv ;;
     vs <- project_versions srv project_key ;;
     ret (map (fun v => (version_id v, version_name v))
            (filter (fun v => negb (version_archived v) && negb (version_released v))
               vs)))
    (fun _ => ret []).

(** The [for t in transitions: ... break] scan: the id of the first
    transition whose name contains the target, both in lower case. *)
Fixpoint first_matching_transition (target_status_name : str)
    (ts : list (str * str)) : option str :=
  match ts with
  | [] => None
  | (t_id, t_name) :: ts' =>
      if contains (lower t_name) (lower target_status_name) then Some t_id
      else first_matching_transition target_status_name ts'
  end.

(** [JiraConnector.transition_jira_issue] *)
Definition transition_jira_issue (srv : Server)
    (issue_key target_status_name : str) : M bool :=
  try_except
    (connect srv ;;
     ts <- transitions srv issue_key ;;
     let target_transition_id := first_matching_transition target_status_name ts in
     match target_transition_id with
     | Some tid =>
         if truthy tid
         then transition_issue srv issue_key tid ;; ret true
         else ret false
     | None => ret false
     end)
    (fun _ => ret false).

(* ================================================================= *)
(** ** process_changelog_to_jira.py: helpers *)

(** [get_user_input(prompt_message, default_value)] *)
Definition get_user_input (prompt_message : str) (default_value : option str)
  : M str :=
  match default_value with
  | Some d =>
      let prompt_with_default :=
        prompt_message ++ L " (Press Enter to accept: '" ++ d ++ L "') ["
        ++ d ++ L "]: " in
      line <- input prompt_with_default ;;
      let user_response := strip line in
      if str_eqb (lower user_response) (L "confirm") then ret d
      else ret (if truthy user_response then user_response else d)
  | None =>
      line <- input (prompt_message ++ L ": ") ;;
      ret (strip line)
  end.

(** [int(s)] in base ten: blanks around, a sign, digits, single underscores
    between digits.  [None] is [ValueError]. *)
Definition digit_val (c : ascii) : option Z :=
  let n := nat_of_ascii c in
  if (48 <=? n) && (n <=? 57) then Some (Z.of_nat (n - 48)) else None.

Fixpoint digits_val (acc : Z) (prev_digit : bool) (s : str) : option Z :=
  match s with
  | [] => if prev_digit then Some acc else None
  | c :: s' =>
      if Ascii.eqb c "_"%char
      then (if prev_digit then digits_val acc false s' else None)
      else match digit_val c with
           | Some d => digits_val (10 * acc + d) true s'
           | None => None
           end
  end.

Definition py_int (s : str) : option Z :=
  match strip s with
  | c :: r =>
      if Ascii.eqb c "-"%char then option_map Z.opp (digits_val 0 false r)
      else if Ascii.eqb c "+"%char then digits_val 0 false r
      else digits_val 0 false (c :: r)
  | [] => None
  end.

(** *** The regular expressions of [parse_pending_entry] *)

(** The leftmost position at which [p] holds of the rest of the text. *)
Fixpoint search (p : str -> bool) (s : str) : option nat :=
  if p s then Some 0
  else match s with
       | [] => None
       | _ :: s' => option_map S (search p s')
       end.

(** What a greedy dot-star group takes without DOTALL: the characters up to
    a newline. *)
Fixpoint line_of (s : str) : str :=
  match s with
  | [] => []
  | c :: s' => if Ascii.eqb c NL then [] else c :: line_of s'
  end.

(** The text after the leftmost occurrence of [label] in any letter case
    ([label] is given in lower case) and after a ["**"] that follows it:
    where the group of a pattern [Label:] with an optional ["**"] on either
    side starts. *)
Definition after_label (s label : str) : option str :=
  match find (lower s) label with
  | None => None
  | Some q =>
      let r := skipn (q + length label) s in
      Some (if startswith r (L "**") then skipn 2 r else r)
  end.

(** Group 1 of the pattern [Description:] lazy-group [Acceptance Criteria:]
    (each label with an optional ["**"] on either side) with DOTALL and
    IGNORECASE: from the first description label to the first acceptance
    label after it, less a ["**"] just before that label. *)
Definition description_block (s : str) : option str :=
  match after_label s (L "description:") with
  | None => None
  | Some r =>
      match find (lower r) (L "acceptance criteria:") with
      | None => None
      | Some a =>
          let g := firstn a r in
          Some (if endswith g (L "**") then firstn (a - 2) r else g)
      end
  end.

(** Does the pattern of [re.split] (two newlines, an optional ["**"], the
    acceptance label) match at the start of [r]? *)
Definition ac_heading (r : str) : bool :=
  startswith (lower r) ([NL; NL] ++ L "acceptance criteria:")
  || startswith (lower r) ([NL; NL] ++ L "**acceptance criteria:").

(** [re.split(pattern, t)[0]] for that pattern. *)
Definition split_at_ac_heading (t : str) : str :=
  match search ac_heading t with
  | Some i => firstn i t
  | None => t
  end.

(** Length of the match of [Acceptance Criteria], an optional ["**"] and a
    colon at the start of [r], if any. *)
Definition ac_label (r : str) : option nat :=
  if startswith (lower r) (L "acceptance criteria:") then Some 20
  else if startswith (lower r) (L "acceptance criteria**:") then Some 22
  else None.

(** Group 1 of the acceptance pattern with DOTALL: the text after that
    match and after the blanks that follow it. *)
Definition ac_block (s : str) : option str :=
  match search (fun r => match ac_label r with Some _ => true | None => false end) s with
  | None => None
  | Some a =>
      let r := skipn a s in
      match ac_label r with
      | Some n => Some (lstrip (skipn n r))
      | None => None
      end
  end.

(** The fields that [parse_pending_entry] extracts from one block, before
    it checks for the summary. *)
Definition parsed_fields (entry_text : str) : dict str :=
  let data : dict str := [] in
  let data :=
    match after_label entry_text (L "draft summary:") with
    | Some r => dict_set data (L "draft_summary") (strip (line_of (lstrip r)))
    | None => data
    end in
  let data :=
    match after_label entry_text (L "type:") with
    | Some r => dict_set data (L "type") (strip (line_of (lstrip r)))
    | None => data
    end in
  let data :=
    match after_label entry_text (L "user:") with
    | Some r => dict_set data (L "user") (strip (line_of (lstrip r)))
    | None => data
    end in
  let data :=
    match description_block entry_text with
    | Some g => dict_set data (L "description") (strip g)
    | None =>
        match after_label entry_text (L "description:") with
        | Some g =>
            dict_set data (L "description")
              (strip (split_at_ac_heading (strip g)))
        | None => data
        end
    end in
  match ac_block entry_text with
  | Some g => dict_set data (L "acceptance_criteria") (strip g)
  | None => data
  end.

(** A block is parseable when a non-empty summary is found in it. *)
Definition parseable (entry_text : str) : bool :=
  truthy_opt (dict_get (parsed_fields entry_text) (L "draft_summary")).

(** [parse_pending_entry(entry_text)]: the fields of one block, or the empty
    dictionary when no summary is found. *)
Definition parse_pending_entry (entry_text : str) : M (dict str) :=
  let data := parsed_fields entry_text in
  if negb (truthy_opt (dict_get data (L "draft_summary")))
  then
    (log WARNING (L "Could not parse Draft Summary from entry block: " ++ [NL]
                  ++ firstn 200 entry_text ++ L "...") ;;
     ret [])
  else ret data.

(* ================================================================= *)
(** ** process_single_entry *)

Record UserDetails := { username : str }.

Definition NA : str := L "N/A".
Definition SKIPPED : option str := Some (L "skipped").

(** [[int(x.strip()) - 1 for x in parts]]; [None] is [ValueError]. *)
Fixpoint selected_indices (parts : list str) : option (list Z) :=
  match parts with
  | [] => Some []
  | x :: parts' =>
      match py_int (strip x) with
      | None => None
      | Some n =>
          match selected_indices parts' with
          | None => None
          | Some l => Some ((n - 1)%Z :: l)
          end
      end
  end.

(** The [for index in selected_indices] loop: the names picked, or [None]
    when an index is out of range ([valid_selection = False]). *)
Fixpoint selected_versions_names (available_versions : list (str * str))
    (indices : list Z) : option (list str) :=
  match indices with
  | [] => Some []
  | index :: indices' =>
      if ((0 <=? index)%Z && (index <? Z.of_nat (length available_versions))%Z)
      then match nth_error available_versions (Z.to_nat index),
                 selected_versions_names available_versions indices' with
           | Some v, Some l => Some (snd v :: l)
           | _, _ => None
           end
      else None
  end.

(** The inner [while True] of the new-Epic branch (lines 195-215). *)
Definition select_fix_versions (available_versions : list (str * str))
  : M (option (list str)) :=
  while_input
    (s <- get_user_input
            (L "Select Fix Version(s) by number for the new Epic (comma-separated, or type 'none'): ")
            None ;;
     let version_selection_str := lower s in
     if negb (truthy version_selection_str)
        || str_eqb version_selection_str (L "none")
     then ret (Some None)
     else
       match selected_indices (split version_selection_str (L ",")) with
       | None => ret None
       | Some indices =>
           match selected_versions_names available_versions indices with
           | Some names => ret (Some (Some names))
           | None => ret None
           end
       end).

(** The branch [choice == 'N'] (lines 178-239). *)
Definition create_new_epic (srv : Server) (env : Env) (reporter_assignee : str)
  : M (option str * str) :=
  new_epic_name <- get_user_input (L "Enter the name for the new Epic") None ;;
  if negb (truthy new_epic_name)
  then
    (log ERROR (L "Epic name cannot be empty. Will proceed without linking an Epic.") ;;
     ret (None, NA))
  else
    new_epic_desc <-
      get_user_input
        (L "Enter an optional description for the new Epic (leave blank if none)")
        None ;;
    available_versions <- get_project_versions srv JIRA_PROJECT_KEY ;;
    new_epic_fix_versions <-
      (match available_versions with
       | _ :: _ => select_fix_versions available_versions
       | [] =>
           fix_versions_input_str <-
             get_user_input
               (L "Enter Fix Version/s for the new Epic (comma-separated if multiple, leave blank if none): ")
               None ;;
           ret (if truthy fix_versions_input_str
                then Some (map strip
                             (filter (fun fv => truthy (strip fv))
                                (split fix_versions_input_str (L ","))))
                else None)
       end) ;;
    created_epic_key <-
      create_jira_epic srv env JIRA_PROJECT_KEY new_epic_name
        reporter_assignee reporter_assignee
        (if truthy new_epic_desc then Some new_epic_desc else None)
        new_epic_fix_versions (Some [L "FeatureCentral"]) ;;
    if truthy_opt created_epic_key
    then ret (created_epic_key, new_epic_name)
    else
      (log ERROR (L "Failed to create new Epic '" ++ new_epic_name
                  ++ L "'. You may need to create it manually. Proceeding without linking an Epic.") ;;
       ret (None, NA)).

(** The [while True] over the listed Epics (lines 175-255). *)
Definition choose_epic (srv : Server) (env : Env) (reporter_assignee : str)
    (epics : list (str * str)) : M (option str * str) :=
  while_input
    (c <- get_user_input
            (L "Select an Epic by number or type 'N' for new (Press Enter for N, or 'none' to skip linking an Epic)")
            (Some (L "N")) ;;
     let choice := upper c in
     if str_eqb choice (L "N")
     then (r <- create_new_epic srv env reporter_assignee ;; ret (Some r))
     else if str_eqb (lower choice) (L "none")
     then ret (Some (None, NA))
     else
       match py_int choice with
       | Some n =>
           let epic_index := (n - 1)%Z in
           if ((0 <=? epic_index)%Z && (epic_index <? Z.of_nat (length epics))%Z)
           then match nth_error epics (Z.to_nat epic_index) with
                | Some epic => ret (Some (Some (fst epic), snd epic))
                | None => ret None
                end
           else ret None
       | None => ret None
       end).

(** The branch for a tracker without Epics (lines 256-277). *)
Definition no_epics_found (srv : Server) (env : Env) (reporter_assignee : str)
  : M (option str * str) :=
  a <- get_user_input (L "No Epics found. Create a new Epic? (yes/no)")
         (Some (L "yes")) ;;
  if str_eqb (lower a) (L "yes")
  then
    new_epic_name <- get_user_input (L "Enter the name for the new Epic") None ;;
    if truthy new_epic_name
    then
      new_epic_desc <-
        get_user_input
          (L "Enter an optional description for the new Epic (leave blank if none)")
          None ;;
      created_epic_key <-
        create_jira_epic srv env JIRA_PROJECT_KEY new_epic_name
          reporter_assignee reporter_assignee
          (Some new_epic_desc) None (Some [L "FeatureCentral"]) ;;
      if truthy_opt created_epic_key
      then ret (created_epic_key, new_epic_name)
      else
        (log ERROR (L "Failed to create Epic '" ++ new_epic_name
                    ++ L "'. Proceeding without an Epic link.") ;;
         ret (None, NA))
    else ret (None, NA)
  else ret (None, NA).

Definition exn_str (e : exn) : str :=
  match e with
  | EOFError => L "EOF when reading a line"
  | JIRAError => L "JIRAError"
  | OSError => L "OSError"
  | SystemExit => L "2"
  end.

(** Epic handling (lines 163-284): [Some (selected_epic_key,
    selected_epic_name)], or [None] when the entry is given up. *)
Definition epic_handling (srv : Server) (env : Env) (reporter_assignee : str)
  : M (option (option str * str)) :=
  try_except
    (epics <- get_project_epics srv JIRA_PROJECT_KEY ;;
     r <- (match epics with
           | _ :: _ => choose_epic srv env reporter_assignee epics
           | [] => no_epics_found srv env reporter_assignee
           end) ;;
     ret (Some r))
    (fun e =>
       log ERROR (L "Error during Epic handling: " ++ exn_str e) ;;
       a <- get_user_input
              (L "Failed to handle Epics. Proceed without linking an Epic? (yes/no)")
              (Some (L "yes")) ;;
       if negb (str_eqb (lower a) (L "yes")) then ret None
       else ret (Some (None, NA))).

(** [[s['summary'] for s in existing if s['summary'].lower() == final_summary.lower()]] *)
Definition duplicate_summaries (existing_issues_in_epic : list (str * str))
    (final_summary : str) : list str :=
  map snd
    (filter (fun s => str_eqb (lower (snd s)) (lower final_summary))
       existing_issues_in_epic).

(** Duplicate check (lines 286-311): [true] to go on to the creation,
    [false] when the entry is given up. *)
Definition duplicate_check (srv : Server) (selected_epic_key : option str)
    (selected_epic_name final_summary issue_type : str) : M bool :=
  match selected_epic_key with
  | Some epic_key =>
      if truthy epic_key
      then
        try_except
          (existing_issues_in_epic <-
             get_stories_in_epic srv JIRA_PROJECT_KEY epic_key ;;
           match existing_issues_in_epic with
           | _ :: _ =>
               match duplicate_summaries existing_issues_in_epic final_summary with
               | _ :: _ =>
                   log WARNING
                     (L "Potential duplicate(s) found for summary '" ++ final_summary
                      ++ L "' (as potential " ++ issue_type ++ L ") under Epic "
                      ++ epic_key ++ L " (" ++ selected_epic_name ++ L "):") ;;
                   a <- get_user_input
                          (L "Still want to create a new " ++ issue_type
                           ++ L " with this summary? (yes/no)")
                          (Some (L "no")) ;;
                   ret (str_eqb (lower a) (L "yes"))
               | [] => ret true
               end
           | [] => ret true
           end)
          (fun e =>
             log ERROR (L "Error fetching issues for duplicate check under Epic "
                        ++ epic_key ++ L ": " ++ exn_str e) ;;
             a <- get_user_input
                    (L "Could not perform duplicate check. Proceed with creation anyway? (yes/no)")
                    (Some (L "no")) ;;
             ret (str_eqb (lower a) (L "yes")))
      else ret true
  | None => ret true
  end.

(** The block appended to the committed log for one created issue. *)
Definition committed_entry_str (selected_epic_name : str)
    (selected_epic_key : option str)
    (issue_type new_issue_key final_summary status
     final_description final_ac_str : str) : str :=
  L "## Epic: " ++ selected_epic_name ++ L " ["
  ++ (if truthy_opt selected_epic_key
      then match selected_epic_key with Some k => k | None => NA end
      else NA) ++ L "]" ++ [NL]
  ++ [NL]
  ++ L "### " ++ issue_type ++ L ": " ++ new_issue_key ++ L " - "
  ++ final_summary ++ L " (Status: " ++ status ++ L ")" ++ [NL]
  ++ [NL]
  ++ Ln "**Description:**"
  ++ final_description ++ [NL]
  ++ [NL]
  ++ Ln "## Acceptance Criteria"
  ++ final_ac_str ++ [NL]
  ++ Ln "---".

(** Creation and transition (lines 313-358). *)
Definition create_and_transition (srv : Server) (reporter_assignee : str)
    (selected_epic_key : option str)
    (selected_epic_name issue_type final_summary final_description
     final_ac_str : str) : M (bool * option str) :=
  let jira_description_body :=
    final_description ++ [NL; NL] ++ Ln "## Acceptance Criteria" ++ final_ac_str in
  new_issue_key <-
    create_jira_issue srv JIRA_PROJECT_KEY final_summary issue_type
      jira_description_body reporter_assignee reporter_assignee
      selected_epic_key (L "Story") ;;
  match new_issue_key with
  | Some key =>
      if truthy key
      then
        let target_final_status := L "Done" in
        transition_success <- transition_jira_issue srv key target_final_status ;;
        let current_story_status_for_changelog := L "Open" in
        current_story_status_for_changelog <-
          (if transition_success : bool
           then ret target_final_status
           else
             (log WARNING (L "Failed to automatically transition " ++ issue_type
                           ++ L " " ++ key ++ L " to '" ++ target_final_status
                           ++ L "'. It may need manual transition in Jira.") ;;
              ret current_story_status_for_changelog)) ;;
        ret (true,
             Some (committed_entry_str selected_epic_name selected_epic_key
                     issue_type key final_summary
                     current_story_status_for_changelog
                     final_description final_ac_str))
      else
        (log ERROR (L "Failed to create Jira " ++ issue_type ++ L " for '"
                    ++ final_summary
                    ++ L "'. Review JiraConnector logs and Jira permissions.") ;;
         ret (false, None))
  | None =>
      log ERROR (L "Failed to create Jira " ++ issue_type ++ L " for '"
                 ++ final_summary
                 ++ L "'. Review JiraConnector logs and Jira permissions.") ;;
      ret (false, None)
  end.

(** The issue type of an entry (lines 141-145) and whether it is one of
    the supported ones. *)
Definition supported_issue_type (issue_type : str) : bool :=
  str_eqb issue_type (L "Story") || str_eqb issue_type (L "Bug").

(** The start of [process_single_entry] (lines 129-284): the issue type,
    the operator's confirmation and the Epic.  [Some (issue_type,
    selected_epic_key, selected_epic_name)], or [None] when the entry is
    given up. *)
Definition confirm_and_resolve_epic (srv : Server) (env : Env)
    (entry_data : dict str) (user_details : UserDetails)
  : M (option (str * option str * str)) :=
  let reporter_assignee := username user_details in
  let final_summary :=
    dict_get_default entry_data (L "draft_summary") (L "No summary provided") in
  if negb (truthy final_summary)
  then
    (log WARNING (L "Issue summary from pending entry is empty. Skipping entry.") ;;
     ret None)
  else
    let issue_type := capitalize (dict_get_default entry_data (L "type") (L "Story")) in
    issue_type <-
      (if supported_issue_type issue_type then ret issue_type
       else
         (log WARNING (L "Unsupported issue type '" ++ issue_type
                       ++ L "' found for entry '" ++ final_summary
                       ++ L "'. Defaulting to 'Story'.") ;;
          ret (L "Story"))) ;;
    a <- get_user_input
           ([NL] ++ L "Proceed with creating this " ++ issue_type ++ L " ('"
            ++ final_summary ++ L "') in Jira? (yes/no/skip)")
           (Some (L "yes")) ;;
    let proceed_with_creation := lower a in
    if str_eqb proceed_with_creation (L "skip") then ret None
    else if negb (str_eqb proceed_with_creation (L "yes")) then ret None
    else
      epic <- epic_handling srv env reporter_assignee ;;
      match epic with
      | None => ret None
      | Some (selected_epic_key, selected_epic_name) =>
          ret (Some (issue_type, selected_epic_key, selected_epic_name))
      end.

(** [process_single_entry(entry_data, jira_connector, user_details)]:
    [(true, Some block)] for a created issue, [(false, Some "skipped")] when
    the operator gives the entry up, [(false, None)] when the creation
    fails. *)
Definition process_single_entry (srv : Server) (env : Env)
    (entry_data : dict str) (user_details : UserDetails)
  : M (bool * option str) :=
  let reporter_assignee := username user_details in
  let final_summary :=
    dict_get_default entry_data (L "draft_summary") (L "No summary provided") in
  let final_description :=
    dict_get_default entry_data (L "description") (L "Description to be added.") in
  let final_ac_str :=
    dict_get_default entry_data (L "acceptance_criteria")
      (L "- Acceptance criteria to be added.") in
  r <- confirm_and_resolve_epic srv env entry_data user_details ;;
  match r with
  | None => ret (false, SKIPPED)
  | Some (issue_type, selected_epic_key, selected_epic_name) =>
      go_on <- duplicate_check srv selected_epic_key selected_epic_name
                 final_summary issue_type ;;
      if go_on : bool
      then create_and_transition srv reporter_assignee selected_epic_key
             selected_epic_name issue_type final_summary final_description
             final_ac_str
      else ret (false, SKIPPED)
  end.

(* ================================================================= *)
(** ** main *)

(** [os.path.join(BASE_DIR, name)] *)
Definition path_join (dir name : str) : str := dir ++ L "/" ++ name.

Definition loop_state : Type := list (option str) * list str.

(** One round of [for entry_text in pending_entry_texts] (lines 513-536) on
    [(processed_successfully_texts, all_committed_entries_text)]. *)
Definition process_entry (srv : Server) (env : Env) (user_details : UserDetails)
    (entry_text : str) (st : loop_state) : M loop_state :=
  let '(processed_successfully_texts, all_committed_entries_text) := st in
  if negb (truthy (strip entry_text)) then ret st
  else
    entry_data <- parse_pending_entry entry_text ;;
    match entry_data with
    | [] =>
        log WARNING (L "Skipping entry due to parsing failure: " ++ [NL]
                     ++ firstn 100 entry_text ++ L "...") ;;
        ret (processed_successfully_texts ++ [None], all_committed_entries_text)
    | _ :: _ =>
        r <- process_single_entry srv env entry_data user_details ;;
        let '(success, result_data) := r in
        if success : bool
        then
          ret (processed_successfully_texts ++ [Some entry_text],
               match result_data with
               | Some d =>
                   if truthy d && negb (str_eqb d (L "skipped"))
                   then all_committed_entries_text ++ [d]
                   else all_committed_entries_text
               | None => all_committed_entries_text
               end)
        else
          match result_data with
          | Some d =>
              if str_eqb d (L "skipped")
              then ret (processed_successfully_texts ++ [None],
                        all_committed_entries_text)
              else
                (log WARNING (L "Failed to process entry for '"
                              ++ dict_get_default entry_data (L "draft_summary") (L "None")
                              ++ L "'. It will remain in pending.") ;;
                 ret (processed_successfully_texts ++ [None],
                      all_committed_entries_text))
          | None =>
              log WARNING (L "Failed to process entry for '"
                           ++ dict_get_default entry_data (L "draft_summary") (L "None")
                           ++ L "'. It will remain in pending.") ;;
              ret (processed_successfully_texts ++ [None],
                   all_committed_entries_text)
          end
    end.

Fixpoint entries_loop (srv : Server) (env : Env) (user_details : UserDetails)
    (entries : list str) (st : loop_state) : M loop_state :=
  match entries with
  | [] => ret st
  | entry_text :: rest =>
      st' <- process_entry srv env user_details entry_text st ;;
      entries_loop srv env user_details rest st'
  end.

(** [for i, entry_text in enumerate(pending_entry_texts)] (lines 555-561),
    from index [i] on, adding to [remaining_pending_texts]. *)
Fixpoint remaining_loop (i : nat) (entries : list str)
    (processed_successfully_texts : list (option str))
    (remaining_pending_texts : list str) : M (list str) :=
  match entries with
  | [] => ret remaining_pending_texts
  | entry_text :: rest =>
      match nth_error processed_successfully_texts i with
      | Some None =>
          remaining_loop (S i) rest processed_successfully_texts
            (remaining_pending_texts ++ [entry_text])
      | Some (Some _) =>
          remaining_loop (S i) rest processed_successfully_texts
            remaining_pending_texts
      | None =>
          log WARNING (L "Mismatch in processed_successfully_texts length. Keeping entry: "
                       ++ firstn 50 entry_text ++ L "...") ;;
          remaining_loop (S i) rest processed_successfully_texts
            (remaining_pending_texts ++ [entry_text])
      end
  end.

(** The first lines of a fresh template, written alike when the pending log
    is created and when it is emptied. *)
Definition template_head (selected_user_name : str) : list str :=
  [ L "# Add " ++ selected_user_name
    ++ L "'s pending changelog entries here, separated by '"
    ++ strip ENTRY_SEPARATOR ++ L "'" ++ [NL];
    L "# Template for " ++ selected_user_name ++ L ":" ++ [NL];
    Ln "<!-- TEMPLATE - DO NOT PROCESS -->";
    ENTRY_SEPARATOR ++ [NL] ].

(** What [main] writes into a pending log it creates (lines 417-431). *)
Definition initial_template (selected_user_name : str) : list str :=
  template_head selected_user_name
  ++ [ L "# **Draft Summary:** My New Feature for " ++ selected_user_name ++ [NL]
       ++ Ln "# **Type:** Story"
       ++ L "# **User:** " ++ selected_user_name ++ [NL]
       ++ Ln "# **Description:**"
       ++ Ln "# As a user, I want this feature so that I can achieve a goal."
       ++ Ln "#"
       ++ Ln "# **Acceptance Criteria:**"
       ++ Ln "# - Criteria 1"
       ++ Ln "# - Criteria 2"
       ++ L "# " ++ ENTRY_SEPARATOR ++ Ln "<!-- END TEMPLATE -->" ].

(** What the first rewrite writes when neither template nor entry is left
    (lines 583-595). *)
Definition fresh_template (selected_user_name : str) : list str :=
  template_head selected_user_name
  ++ [ L "# **Draft Summary:** My New Feature for " ++ selected_user_name ++ [NL];
       Ln "# **Type:** Story";
       L "# **User:** " ++ selected_user_name ++ [NL];
       Ln "# **Description:**";
       Ln "# As a user, I want this feature so that I can achieve a goal."
       ++ Ln "#";
       Ln "# **Acceptance Criteria:**";
       Ln "# - Criteria 1";
       Ln "# - Criteria 2";
       ENTRY_SEPARATOR ++ Ln "<!-- END TEMPLATE -->" ].

Definition NO_PENDING : str := Ln "# No pending entries remaining.".

(** [with open(path, "w") as f] followed by the given [f.write] calls. *)
Definition write_file (path : str) (writes : list str) : M unit :=
  open_w path ;; for_each writes (write path).

(** The committed log (lines 539-547): opened for appending only when
    there is something to append. *)
Definition append_committed (COMMITTED_FILE_PATH : str)
    (all_committed_entries_text : list str) : M unit :=
  match all_committed_entries_text with
  | _ :: _ =>
      open_a COMMITTED_FILE_PATH ;;
      for_each all_committed_entries_text
        (fun committed_entry_str =>
           write COMMITTED_FILE_PATH (committed_entry_str ++ [NL]))
  | [] => ret tt
  end.

(** The [f.write] calls of the first rewrite of the pending log, in order
    (lines 564-595). *)
Definition first_rewrite_writes (selected_user_name : str)
    (template_section : str) (remaining_pending_texts : list str) : list str :=
  (if truthy template_section
   then
     [template_section]
     ++ (if match remaining_pending_texts with _ :: _ => true | [] => false end
            && negb (endswith (strip template_section) [NL])
            && negb (endswith (strip template_section) (strip ENTRY_SEPARATOR))
         then (if negb (endswith template_section [NL]) then [[NL]] else [])
         else [])
   else [])
  ++
  match remaining_pending_texts with
  | _ :: _ =>
      let full_remaining_content := join ENTRY_SEPARATOR remaining_pending_texts in
      let full_remaining_content :=
        if endswith full_remaining_content ENTRY_SEPARATOR
        then full_remaining_content
        else full_remaining_content ++ ENTRY_SEPARATOR in
      [full_remaining_content]
  | [] =>
      if negb (truthy template_section)
      then fresh_template selected_user_name
      else []
  end.

(** The [f_pending.write] calls of the second rewrite, in order (lines
    617-655).  [tell] is the position in the file after the first two. *)
Definition second_rewrite_writes (template_section : str)
    (remaining_pending_texts : list str) : list str :=
  [template_section]
  ++
  match remaining_pending_texts with
  | _ :: _ =>
      [join ENTRY_SEPARATOR remaining_pending_texts]
      ++
      (let tell :=
         utf8_len (template_section
                   ++ join ENTRY_SEPARATOR remaining_pending_texts) in
       if negb (tell =? length template_section)
       then
         let current_written_content :=
           join ENTRY_SEPARATOR remaining_pending_texts in
         if negb (endswith current_written_content (strip ENTRY_SEPARATOR))
         then [ENTRY_SEPARATOR]
         else []
       else [])
  | [] =>
      if truthy (strip template_section)
      then (if negb (endswith template_section [NL]) then [[NL]] else [])
           ++ [NO_PENDING]
      else [NO_PENDING]
  end.

(** The first rewrite of the pending log (lines 563-596). *)
Definition first_rewrite (PENDING_FILE_PATH selected_user_name : str)
    (template_section : str) (remaining_pending_texts : list str) : M unit :=
  write_file PENDING_FILE_PATH
    (first_rewrite_writes selected_user_name template_section
       remaining_pending_texts).

(** The second rewrite of the pending log (lines 616-656). *)
Definition second_rewrite (PENDING_FILE_PATH : str)
    (template_section : str) (remaining_pending_texts : list str) : M unit :=
  write_file PENDING_FILE_PATH
    (second_rewrite_writes template_section remaining_pending_texts).

(** The local variables of [main] when the loop over the entries is over
    (line 538). *)
Record Locals := {
  PENDING_FILE_PATH : str;
  COMMITTED_FILE_PATH : str;
  template_section : str;
  pending_entry_texts : list str;
  processed_successfully_texts : list (option str);
  all_committed_entries_text : list str }.

(** The end of the run (lines 539-658) on a disk that takes every
    operation: committed log, then the pending log twice.  The handlers
    around the three blocks (lines 546, 610 and 657) have nothing to catch
    then; [write_logs_on] below has them. *)
Definition write_logs (selected_user_name : str) (d : Locals) : M unit :=
  append_committed (COMMITTED_FILE_PATH d) (all_committed_entries_text d) ;;
  remaining_pending_texts <-
    remaining_loop 0 (pending_entry_texts d) (processed_successfully_texts d) [] ;;
  first_rewrite (PENDING_FILE_PATH d) selected_user_name (template_section d)
    remaining_pending_texts ;;
  second_rewrite (PENDING_FILE_PATH d) (template_section d) remaining_pending_texts.

(** [main()] from the point where the user name is known (line 403) to the
    end of the loop over the entries (line 536); the command line and the
    numbered menu before it only choose [selected_user_name].  [None] when
    [main] returns before the loop. *)
Definition main_entries (srv : Server) (env : Env) (selected_user_name : str)
  : M (option Locals) :=
  match assoc selected_user_name USERS_CONFIG with
  | None =>
      log ERROR (L "Invalid username: '" ++ selected_user_name
                 ++ L "'. Please choose from "
                 ++ join (L ", ") (map fst USERS_CONFIG) ++ L ".") ;;
      ret None
  | Some (pending_name, committed_name) =>
      let PENDING_FILE_PATH := path_join (BASE_DIR env) pending_name in
      let COMMITTED_FILE_PATH := path_join (BASE_DIR env) committed_name in
      there <- path_exists PENDING_FILE_PATH ;;
      if negb there
      then
        write_file PENDING_FILE_PATH (initial_template selected_user_name) ;;
        ret None
      else
        first_read <-
          try_except
            (content <- read_file PENDING_FILE_PATH ;; ret (Some content))
            (fun e =>
               log ERROR (L "Error reading '" ++ PENDING_FILE_PATH ++ L "': "
                          ++ exn_str e) ;;
               ret None) ;;
        match first_read with
        | None => ret None
        | Some _ =>
            partition <-
              try_except
                (content <- read_file PENDING_FILE_PATH ;;
                 ret (Some (template_partition content)))
                (fun e =>
                   log ERROR (L "Error reading '" ++ PENDING_FILE_PATH ++ L "': "
                              ++ exn_str e) ;;
                   ret None) ;;
            match partition with
            | None => ret None
            | Some (template_section, processed_content) =>
                let pending_entry_texts := entry_texts processed_content in
                match pending_entry_texts with
                | [] => ret None
                | _ :: _ =>
                    if truthy_opt (dict_get (environ env) (L "Jira"))
                    then
                      let default_username :=
                        dict_get_default (environ env) (L "JIRA_USERNAME")
                          (L "default_user") in
                      line <- input (L "Enter Jira username for Reporter/Assignee ["
                                     ++ default_username ++ L "]: ") ;;
                      let user_details :=
                        {| username := if truthy (strip line) then strip line
                                       else default_username |} in
                      st <- entries_loop srv env user_details pending_entry_texts
                              ([], []) ;;
                      ret (Some {| PENDING_FILE_PATH := PENDING_FILE_PATH;
                                   COMMITTED_FILE_PATH := COMMITTED_FILE_PATH;
                                   template_section := template_section;
                                   pending_entry_texts := pending_entry_texts;
                                   processed_successfully_texts := fst st;
                                   all_committed_entries_text := snd st |})
                    else
                      log ERROR (L "Failed to initialize JiraConnector: Missing required Jira connection environment variable(s): Jira. Ensure this/these are set.") ;;
                      log ERROR (L "Please ensure the Jira API token environment variable (e.g., 'Jira') is correctly set.") ;;
                      ret None
                end
            end
        end
  end.

(** [main()], from line 403 on, on a disk that takes every operation. *)
Definition main (srv : Server) (env : Env) (selected_user_name : str) : M unit :=
  d <- main_entries srv env selected_user_name ;;
  match d with
  | Some d => write_logs selected_user_name d
  | None => ret tt
  end.

(* ================================================================= *)
(** ** main on a disk that may refuse an operation *)

(** [with open(path, "w") as f] followed by the given [f.write] calls. *)
Definition write_file_on (disk : Disk) (path : str) (writes : list str)
  : M unit :=
  open_w_on disk path ;; for_each writes (write_on disk path).

(** The committed log (lines 539-547), with its handler. *)
Definition append_committed_on (disk : Disk) (COMMITTED_FILE_PATH : str)
    (all_committed_entries_text : list str) : M unit :=
  match all_committed_entries_text with
  | _ :: _ =>
      try_except
        (open_a_on disk COMMITTED_FILE_PATH ;;
         for_each all_committed_entries_text
           (fun committed_entry_str =>
              write_on disk COMMITTED_FILE_PATH (committed_entry_str ++ [NL])))
        (fun e =>
           log ERROR (L "Error writing to '" ++ COMMITTED_FILE_PATH ++ L "': "
                      ++ exn_str e))
  | [] => ret tt
  end.

(** The first rewrite of the pending log (lines 563-611), with its
    handler. *)
Definition first_rewrite_on (disk : Disk)
    (PENDING_FILE_PATH selected_user_name : str)
    (template_section : str) (remaining_pending_texts : list str) : M unit :=
  try_except
    (write_file_on disk PENDING_FILE_PATH
       (first_rewrite_writes selected_user_name template_section
          remaining_pending_texts))
    (fun e =>
       log ERROR (L "Error writing back to pending file '" ++ PENDING_FILE_PATH
                  ++ L "' for " ++ selected_user_name ++ L ": " ++ exn_str e)).

(** The second rewrite of the pending log (lines 616-658), with its
    handler. *)
Definition second_rewrite_on (disk : Disk) (PENDING_FILE_PATH : str)
    (template_section : str) (remaining_pending_texts : list str) : M unit :=
  try_except
    (write_file_on disk PENDING_FILE_PATH
       (second_rewrite_writes template_section remaining_pending_texts))
    (fun e =>
       log ERROR (L "Error writing to '" ++ PENDING_FILE_PATH ++ L "': "
                  ++ exn_str e)).

(** The end of the run (lines 539-658). *)
Definition write_logs_on (disk : Disk) (selected_user_name : str) (d : Locals)
  : M unit :=
  append_committed_on disk (COMMITTED_FILE_PATH d)
    (all_committed_entries_text d) ;;
  remaining_pending_texts <-
    remaining_loop 0 (pending_entry_texts d) (processed_successfully_texts d) [] ;;
  first_rewrite_on disk (PENDING_FILE_PATH d) selected_user_name
    (template_section d) remaining_pending_texts ;;
  second_rewrite_on disk (PENDING_FILE_PATH d) (template_section d)
    remaining_pending_texts.

(** [main()] up to the end of the loop over the entries (lines 403-536).
    The one operation on the disk there is the creation of a missing
    pending log (lines 415-433), which stands in no [try]; everything else
    is as in [main_entries]. *)
Definition main_entries_on (disk : Disk) (srv : Server) (env : Env)
    (selected_user_name : str) : M (option Locals) :=
  match assoc selected_user_name USERS_CONFIG with
  | Some (pending_name, _) =>
      let PENDING_FILE_PATH := path_join (BASE_DIR env) pending_name in
      there <- path_exists PENDING_FILE_PATH ;;
      if negb there
      then
        write_file_on disk PENDING_FILE_PATH
          (initial_template selected_user_name) ;;
        ret None
      else main_entries srv env selected_user_name
  | None => main_entries srv env selected_user_name
  end.

(** [main()], from line 403 on. *)
Definition main_on (disk : Disk) (srv : Server) (env : Env)
    (selected_user_name : str) : M unit :=
  d <- main_entries_on disk srv env selected_user_name ;;
  match d with
  | Some d => write_logs_on disk selected_user_name d
  | None => ret tt
  end.

(* ================================================================= *)
(** ** main: the choice of the user (lines 367-406) *)

(** [str(n)] *)
Definition nat_str (n : nat) : str := L (NilEmpty.string_of_uint (Nat.to_uint n)).

(** [list(USERS_CONFIG.keys())] *)
Definition user_choices : list str := map fst USERS_CONFIG.

(** One round of the numbered menu (lines 382-398): [Some (Some name)] to
    leave the loop with a user, [Some None] when [main] returns because the
    input stream is closed, [None] to ask again. *)
Definition select_user_round : M (option (option str)) :=
  try_except
    (choice_idx_str <-
       get_user_input
         (L "Enter number (1-" ++ nat_str (length user_choices) ++ L "): ") None ;;
     if negb (truthy choice_idx_str) then ret None
     else
       match py_int choice_idx_str with
       | Some n =>
           let choice_idx := (n - 1)%Z in
           if ((0 <=? choice_idx)%Z
               && (choice_idx <? Z.of_nat (length user_choices))%Z)
           then match nth_error user_choices (Z.to_nat choice_idx) with
                | Some name => ret (Some (Some name))
                | None => ret None
                end
           else ret None
       | None => ret None
       end)
    (fun e =>
       match e with
       | EOFError =>
           log ERROR (L "Input stream closed. Cannot select user.") ;;
           ret (Some None)
       | _ => raise e
       end).

(** [parser.parse_args().username] (lines 368-374) for the positional
    argument of the command line, if there is one: a name that is not among
    the [choices] ends the process with [SystemExit]. *)
Definition parse_args (argument : option str) : M (option str) :=
  match argument with
  | Some name =>
      if existsb (str_eqb name) user_choices then ret (Some name)
      else raise SystemExit
  | None => ret None
  end.

(** The user named on the command line, or chosen from the menu. *)
Definition select_user (username : option str) : M (option str) :=
  match username with
  | Some name => ret (Some name)
  | None => while_input select_user_round
  end.

(** [main()] as a whole, for the positional argument of the command line,
    if there is one. *)
Definition main_cli (srv : Server) (env : Env) (argument : option str) : M unit :=
  username <- parse_args argument ;;
  selected_user_name <- select_user username ;;
  match selected_user_name with
  | Some name => main srv env name
  | None => ret tt
  end.

(* ================================================================= *)
(** ** jira_connector.py: the fields of a feature (lines 142-211) *)

(** [d[k] = v]: the value of a key that is there is replaced where it
    stands, a new key goes to the end. *)
Fixpoint dict_put {V : Type} (d : dict V) (k : str) (v : V) : dict V :=
  match d with
  | [] => [(k, v)]
  | (k', v') :: d' =>
      if str_eqb k k' then (k, v) :: d' else (k', v') :: dict_put d' k v
  end.

(** [k in d], [x in l] *)
Definition dict_mem {V : Type} (d : dict V) (k : str) : bool :=
  match assoc k d with Some _ => true | None => false end.

Definition str_in (x : str) (l : list str) : bool := existsb (str_eqb x) l.

Definition standard_fields : list str :=
  [L "summary"; L "status"; L "issuetype"; L "reporter"; L "assignee";
   L "created"; L "updated"; L "priority"; L "project"; L "resolution"].

(** The list of fields asked of the tracker (lines 152-157 and 193-197):
    the ids of the mapping, then each standard field that is neither in the
    list so far nor a name of the mapping. *)
Definition jira_fields_to_retrieve (field_mapping : dict str) : list str :=
  fold_left
    (fun fields sf =>
       if negb (str_in sf fields) && negb (dict_mem field_mapping sf)
       then fields ++ [sf] else fields)
    standard_fields
    (map snd field_mapping).

(** The record made of one issue (lines 163-171 and 201-206): its key, the
    fields of the mapping under their names, then the standard fields that
    are not yet in it.  [extract field_id field_name] stands for
    [_extract_field_value] on the issue at hand and [of_key] for the key as
    a value. *)
Definition issue_details {V : Type} (of_key : str -> V)
    (extract : str -> str -> V) (key : str) (field_mapping : dict str)
  : dict V :=
  let issue_details := [(L "key", of_key key)] in
  let issue_details :=
    fold_left
      (fun d (m : str * str) =>
         let (human_name, jira_id) := m in
         dict_put d human_name (extract jira_id human_name))
      field_mapping issue_details in
  fold_left
    (fun d sf => if negb (dict_mem d sf) then dict_put d sf (extract sf sf) else d)
    standard_fields issue_details.

(* ================================================================= *)
(** ** Derived notions used in the statements *)

(** The entries whose slot in [processed_successfully_texts] is [None] (or
    missing): what [remaining_loop] collects. *)
Fixpoint retained_from (i : nat) (entries : list str)
    (processed : list (option str)) : list str :=
  match entries with
  | [] => []
  | entry_text :: rest =>
      match nth_error processed i with
      | Some (Some _) => retained_from (S i) rest processed
      | _ => entry_text :: retained_from (S i) rest processed
      end
  end.

Definition retained (d : Locals) : list str :=
  retained_from 0 (pending_entry_texts d) (processed_successfully_texts d).

(** The number of entries marked as committed. *)
Definition committed_count (processed : list (option str)) : nat :=
  length (filter (fun o => match o with Some _ => true | None => false end)
            processed).

(** Content of the pending log after each rewrite. *)
Definition first_rewrite_content (selected_user_name template_section : str)
    (remaining_pending_texts : list str) : str :=
  concat (first_rewrite_writes selected_user_name template_section
            remaining_pending_texts).

Definition second_rewrite_content (template_section : str)
    (remaining_pending_texts : list str) : str :=
  concat (second_rewrite_writes template_section remaining_pending_texts).

(** The events of [write_file]. *)
Definition write_file_events (path : str) (writes : list str) : list Event :=
  EvOpenW path :: map (EvWrite path) writes.

(** The path a file event works on. *)
Definition event_path (e : Event) : option str :=
  match e with
  | EvOpenW p | EvOpenA p | EvWrite p _ => Some p
  | _ => None
  end.

Definition touches (path : str) (e : Event) : bool :=
  match event_path e with
  | Some p => str_eqb p path
  | None => false
  end.

(** The events that a run adds to those of its initial world. *)
Definition new_events (w w' : World) : list Event :=
  skipn (length (events w)) (events w').

(** [s] occurs in [t]. *)
Definition substr (s t : str) : Prop := exists u v, t = u ++ s ++ v.

(** [p] is a prefix of [t]. *)
Definition prefix (p t : str) : Prop := exists v, t = p ++ v.

(** What the entry texts of a pending log are: non-empty, stripped, free of
    the separator. *)
Definition good_entry (e : str) : Prop :=
  e <> [] /\ strip e = e /\ find e ENTRY_SEPARATOR = None.


(** What follows the joined entries in the second rewrite. *)
Definition closing (joined : str) : str :=
  if endswith joined (L "---") then [] else ENTRY_SEPARATOR.

(** From [w] to [w'] nothing happened to the files: events were added,
    none of them on a file, and input lines were consumed. *)
Definition quiet_step (w w' : World) : Prop :=
  fs w' = fs w
  /\ (exists evs, events w' = events w ++ evs
                 /\ Forall (fun e => event_path e = None) evs)
  /\ (exists k, stdin w = k ++ stdin w').

(** A computation that leaves the files alone. *)
Definition quiet {A : Type} (m : M A) : Prop :=
  forall w r w', m w = (r, w') -> quiet_step w w'.

(** The world after file events have taken place. *)
Definition after_events (evs : list Event) (w : World) : World :=
  {| stdin := stdin w;
     events := events w ++ evs;
     fs := apply_events evs (fs w) |}.

(** The events of [append_committed]. *)
Definition committed_events (path : str) (records : list str) : list Event :=
  match records with
  | [] => []
  | _ :: _ => EvOpenA path :: map (fun r => EvWrite path (r ++ [NL])) records
  end.

(** Content of a file, the empty text when there is none. *)
Definition content_or_empty (f : FS) (path : str) : str :=
  match f path with Some c => c | None => [] end.

(** The records of the issues created in a run: empty when the run does
    not come to the end of its loop. *)
Definition committed_records (srv : Server) (env : Env) (user : str)
    (w : World) : list str :=
  match main_entries srv env user w with
  | (Ok (Some d), _) => all_committed_entries_text d
  | _ => []
  end.

(** The operations of the two rewrites of the pending log. *)
Definition rewrite_events (user : str) (d : Locals) : list Event :=
  write_file_events (PENDING_FILE_PATH d)
    (first_rewrite_writes user (template_section d) (retained d))
  ++ write_file_events (PENDING_FILE_PATH d)
       (second_rewrite_writes (template_section d) (retained d)).

(** The question of [main] about the reporter (line 507), the user details
    made of its answer, and the world in which the loop over the entries
    starts. *)
Definition reporter_prompt (env : Env) : str :=
  L "Enter Jira username for Reporter/Assignee ["
  ++ dict_get_default (environ env) (L "JIRA_USERNAME") (L "default_user")
  ++ L "]: ".

Definition reporter_of (env : Env) (w : World) : UserDetails :=
  let default_username :=
    dict_get_default (environ env) (L "JIRA_USERNAME") (L "default_user") in
  match fst (input (reporter_prompt env) w) with
  | Ok line => {| username := if truthy (strip line) then strip line
                              else default_username |}
  | Raise _ => {| username := default_username |}
  end.

Definition loop_start (env : Env) (w : World) : World :=
  snd (input (reporter_prompt env) w).

(** The query of [get_stories_in_epic]. *)
Definition stories_jql (project_key epic_key : str) : str :=
  L "project = " ++ [DQ] ++ project_key ++ [DQ]
  ++ L " AND " ++ [DQ] ++ L "Epic Link" ++ [DQ] ++ L " = "
  ++ [DQ] ++ epic_key ++ [DQ]
  ++ L " AND issuetype = Story ORDER BY summary ASC".

(** One round of the loop of [select_fix_versions] and of [choose_epic]. *)
Definition select_fix_versions_round (available_versions : list (str * str))
  : M (option (option (list str))) :=
  s <- get_user_input
         (L "Select Fix Version(s) by number for the new Epic (comma-separated, or type 'none'): ")
         None ;;
  let version_selection_str := lower s in
  if negb (truthy version_selection_str)
     || str_eqb version_selection_str (L "none")
  then ret (Some None)
  else
    match selected_indices (split version_selection_str (L ",")) with
    | None => ret None
    | Some indices =>
        match selected_versions_names available_versions indices with
        | Some names => ret (Some (Some names))
        | None => ret None
        end
    end.

Definition choose_epic_round (srv : Server) (env : Env) (reporter_assignee : str)
    (epics : list (str * str)) : M (option (option str * str)) :=
  c <- get_user_input
         (L "Select an Epic by number or type 'N' for new (Press Enter for N, or 'none' to skip linking an Epic)")
         (Some (L "N")) ;;
  let choice := upper c in
  if str_eqb choice (L "N")
  then (r <- create_new_epic srv env reporter_assignee ;; ret (Some r))
  else if str_eqb (lower choice) (L "none")
  then ret (Some (None, NA))
  else
    match py_int choice with
    | Some n =>
        let epic_index := (n - 1)%Z in
        if ((0 <=? epic_index)%Z && (epic_index <? Z.of_nat (length epics))%Z)
        then match nth_error epics (Z.to_nat epic_index) with
             | Some epic => ret (Some (Some (fst epic), snd epic))
             | None => ret None
             end
        else ret None
    | None => ret None
    end.

(** A computation that raises nothing but [EOFError], and that only when
    no line of input is left. *)
Definition at_eof {A : Type} (m : M A) : Prop :=
  forall w e w', m w = (Raise e, w') -> e = EOFError /\ stdin w' = [].

(** A round of a loop that reads a line whenever it asks for another one. *)
Definition reads_on_retry {A : Type} (body : M (option A)) : Prop :=
  forall w w', body w = (Ok None, w') -> length (stdin w') < length (stdin w).

(** The query of [get_project_epics]. *)
Definition epics_jql (project_key : str) : str :=
  L "project = " ++ [DQ] ++ project_key ++ [DQ]
  ++ L " AND issuetype = Epic AND component = "
  ++ [DQ] ++ L "FeatureCentral" ++ [DQ]
  ++ L " ORDER BY summary ASC".

(** A request to the tracker for a new Story, the type that
    [create_jira_issue] sends for every entry, and such a request answered
    with the key of the new issue. *)
Definition story_requested (ev : Event) : bool :=
  match ev with
  | EvCreateIssue fields _ =>
      match dict_get fields (L "issuetype") with
      | Some (VName t) => str_eqb t (L "Story")
      | _ => false
      end
  | _ => false
  end.

Definition story_created (ev : Event) : bool :=
  match ev with
  | EvCreateIssue _ (Some key) => story_requested ev && truthy key
  | _ => false
  end.

(** A computation that asks the tracker for no Story. *)
Definition no_story {A : Type} (m : M A) : Prop :=
  forall w r w',
    m w = (r, w') ->
    exists evs,
      events w' = events w ++ evs
      /\ Forall (fun ev => story_requested ev = false) evs.

(** The record of the committed log stands for the issue that the event
    created: its heading gives the key that the tracker returned, the
    summary that was sent, and [Done] or [Open] as the status. *)
Definition record_of (record : str) (ev : Event) : Prop :=
  exists fields key issue_type summary status,
    ev = EvCreateIssue fields (Some key)
    /\ truthy key = true
    /\ dict_get fields (L "summary") = Some (VStr summary)
    /\ (status = L "Done" \/ status = L "Open")
    /\ substr (L "### " ++ issue_type ++ L ": " ++ key ++ L " - " ++ summary
               ++ L " (Status: " ++ status ++ L ")" ++ [NL]) record.

(** A version of the project that is neither archived nor released, as
    the tracker lists it when it is asked in the world [w]. *)
Definition open_version (srv : Server) (project_key : str) (w : World)
    (id name : str) : Prop :=
  exists vs v,
    srv_connect srv (events w) = true
    /\ srv_project_versions srv (events w ++ [EvConnect true]) project_key
       = Some vs
    /\ In v vs
    /\ version_id v = id /\ version_name v = name
    /\ version_archived v = false /\ version_released v = false.

(** An answer to a yes/no question that is not a yes. *)
Definition declines (default_value line : str) : bool :=
  let user_response := strip line in
  let answer :=
    if str_eqb (lower user_response) (L "confirm") then default_value
    else if truthy user_response then user_response else default_value in
  negb (str_eqb (lower answer) (L "yes")).


(* ================================================================= *)
(** ** A sample run

    A tracker with one Epic holding one Story, and a pending log of Amy's
    with a template and two entries, the second of which ends with dashes
    and no newline. *)

Definition ex_srv : Server :=
  {| srv_connect := fun _ => true;
     srv_search_issues := fun _ _ => Some [(L "ROIA-1", L "Reporting")];
     srv_project_versions := fun _ _ => Some [];
     srv_create_issue := fun _ _ => Some (L "ROIA-7");
     srv_transitions :=
       fun _ _ => Some [(L "11", L "Start Progress"); (L "31", L "Mark as Done")];
     srv_transition_issue := fun _ _ _ => true |}.

Definition ex_env : Env :=
  {| environ := [(L "Jira", L "token")]; BASE_DIR := L "/work" |}.

Definition ex_pending : str := L "/work/PENDING_AMY_CHANGELOG.md".
Definition ex_committed : str := L "/work/COMMITTED_AMY_CHANGELOG.md".

Definition ex_entry1 : str :=
  Ln "**Draft Summary:** Add CSV export"
  ++ Ln "**Type:** bug"
  ++ Ln "**Description:**"
  ++ Ln "As a user I want to export."
  ++ Ln ""
  ++ Ln "Acceptance Criteria:"
  ++ L "- a file is produced".

Definition ex_entry2 : str := Ln "**Draft Summary:** Second" ++ L "---".

Definition ex_template : str :=
  Ln "# how to write an entry" ++ Ln "<!-- END TEMPLATE -->" ++ Ln "---".

Definition ex_content : str :=
  ex_template ++ ex_entry1 ++ [NL] ++ Ln "---" ++ ex_entry2.

Definition ex_fs : FS :=
  fun p => if str_eqb p ex_pending then Some ex_content else None.

(** The operator names a user, accepts the first entry without an Epic and
    declines the second. *)
Definition ex_world : World :=
  {| stdin := [L "amy"; L ""; L "none"; L "no"]; events := []; fs := ex_fs |}.

(** The operator declines both entries. *)
Definition ex_world_decline : World :=
  {| stdin := [L "amy"; L "no"; L "skip"]; events := []; fs := ex_fs |}.


(** The same tracker, offering no transition to a status like Done. *)
Definition ex_srv_stuck : Server :=
  {| srv_connect := srv_connect ex_srv;
     srv_search_issues := srv_search_issues ex_srv;
     srv_project_versions := srv_project_versions ex_srv;
     srv_create_issue := srv_create_issue ex_srv;
     srv_transitions := fun _ _ => Some [(L "11", L "Start Progress")];
     srv_transition_issue := srv_transition_issue ex_srv |}.


Definition ex_user : UserDetails := {| username := L "amy" |}.

(** The console when the loop starts: the operator accepts the first
    entry without an Epic and declines the second. *)
Definition ex_loop_world : World :=
  {| stdin := [L ""; L "none"; L "no"]; events := []; fs := ex_fs |}.














(* ================================================================= *)
(** * Facts about strings *)

Section Strings.

Lemma startswith_true (s p : str) :
  startswith s p = true <-> exists r, s = p ++ r.
Proof.
  revert s; induction p as [|a p IH]; intros s; simpl.
  - split; [intros _; exists s; reflexivity | reflexivity].
  - destruct s as [|b s].
    + split; [discriminate | intros [r Hr]; discriminate].
    + rewrite andb_true_iff, Ascii.eqb_eq, IH. split.
      * intros [-> [r ->]]. exists r; reflexivity.
      * intros [r Hr]. injection Hr as -> ->. split; [reflexivity | exists r; reflexivity].
Qed.

Lemma startswith_app (p r : str) : startswith (p ++ r) p = true.
Proof. apply startswith_true. exists r; reflexivity. Qed.

Lemma startswith_nil_l (p : str) : p <> [] -> startswith [] p = false.
Proof. destruct p; [congruence | reflexivity]. Qed.

Lemma startswith_length (s p : str) :
  startswith s p = true -> length p <= length s.
Proof.
  intros H. apply startswith_true in H as [r ->]. rewrite length_app. lia.
Qed.

(** Only the first [length p] characters matter. *)
Lemma startswith_firstn (s p : str) (n : nat) :
  length p <= n -> startswith (firstn n s) p = startswith s p.
Proof.
  revert s n; induction p as [|a p IH]; intros s n Hn; simpl.
  - destruct (firstn n s); reflexivity.
  - destruct n as [|n]; [simpl in Hn; lia|].
    destruct s as [|b s]; simpl; [reflexivity|].
    rewrite IH by (simpl in Hn; lia). reflexivity.
Qed.

(** An occurrence at the front of [a ++ y] lies in [a] or runs over its
    end. *)
Lemma startswith_app_cases (a y p : str) :
  startswith (a ++ y) p = true ->
  startswith a p = true
  \/ (length a < length p /\ firstn (length a) p = a
      /\ startswith y (skipn (length a) p) = true).
Proof.
  revert p; induction a as [|c a IH]; intros p H.
  - destruct p as [|d p]; [left; reflexivity|].
    right. simpl. split; [lia|]. split; [reflexivity | exact H].
  - destruct p as [|d p]; [left; reflexivity|].
    simpl in H. apply andb_true_iff in H as [Hc H].
    destruct (IH _ H) as [Ha | (Hl & Hf & Hy)].
    + left. simpl. rewrite Hc, Ha. reflexivity.
    + right. simpl. split; [lia|]. split; [|exact Hy].
      apply Ascii.eqb_eq in Hc. subst. f_equal. exact Hf.
Qed.

Lemma find_Some (s sub : str) (i : nat) :
  find s sub = Some i ->
  startswith (skipn i s) sub = true
  /\ (forall j, j < i -> startswith (skipn j s) sub = false)
  /\ i + length sub <= length s.
Proof.
  revert i; induction s as [|c s IH]; intros i; simpl.
  - destruct (startswith [] sub) eqn:E; [|discriminate].
    intros [= <-]. simpl. rewrite E. split; [reflexivity|]. split; [lia|].
    apply startswith_length in E. simpl in *. lia.
  - destruct (startswith (c :: s) sub) eqn:E.
    + intros [= <-]. simpl. rewrite E. split; [reflexivity|]. split; [lia|].
      apply startswith_length in E. simpl in *. lia.
    + destruct (find s sub) as [k|] eqn:F; [|discriminate].
      simpl. intros [= <-]. destruct (IH k eq_refl) as (H1 & H2 & H3).
      split; [exact H1|]. split; [|lia].
      intros [|j] Hj; simpl; [exact E | apply H2; lia].
Qed.

Lemma find_None (s sub : str) :
  find s sub = None -> forall j, startswith (skipn j s) sub = false.
Proof.
  induction s as [|c s IH]; simpl.
  - destruct (startswith [] sub) eqn:E; [discriminate|].
    intros _ j. destruct j; simpl; exact E.
  - destruct (startswith (c :: s) sub) eqn:E; [discriminate|].
    destruct (find s sub) eqn:F; [discriminate|].
    intros _ [|j]; simpl; [exact E | apply IH; reflexivity].
Qed.

Lemma find_intro (s sub : str) (i : nat) :
  startswith (skipn i s) sub = true ->
  (forall j, j < i -> startswith (skipn j s) sub = false) ->
  find s sub = Some i.
Proof.
  revert i; induction s as [|c s IH]; intros i H Hmin.
  - simpl. rewrite skipn_nil in H. rewrite H.
    destruct i; [reflexivity|]. specialize (Hmin 0 ltac:(lia)). simpl in Hmin. congruence.
  - simpl. destruct i as [|i].
    + simpl in H. rewrite H. reflexivity.
    + pose proof (Hmin 0 ltac:(lia)) as H0. simpl in H0. rewrite H0.
      rewrite (IH i); [reflexivity | exact H |].
      intros j Hj. apply (Hmin (S j)). lia.
Qed.

Lemma find_None_intro (s sub : str) :
  (forall j, startswith (skipn j s) sub = false) -> find s sub = None.
Proof.
  intros H. destruct (find s sub) as [i|] eqn:F; [|reflexivity].
  apply find_Some in F as (F & _). rewrite H in F. discriminate.
Qed.

(** [find] and occurrence as a substring. *)
Lemma find_None_substr (s sub : str) :
  find s sub = None <-> ~ substr sub s.
Proof.
  split.
  - intros F (u & v & E). pose proof (find_None _ _ F (length u)) as H.
    subst s. rewrite skipn_app, skipn_all, Nat.sub_diag in H. simpl in H.
    rewrite startswith_app in H. discriminate.
  - intros N. apply find_None_intro. intros j.
    destruct (startswith (skipn j s) sub) eqn:E; [|reflexivity].
    exfalso. apply N. apply startswith_true in E as [r Hr].
    exists (firstn j s), r. rewrite <- Hr. symmetry. apply firstn_skipn.
Qed.

Lemma substr_refl (s : str) : substr s s.
Proof. exists [], []. rewrite app_nil_r. reflexivity. Qed.

Lemma substr_trans (a b c : str) : substr a b -> substr b c -> substr a c.
Proof.
  intros (u & v & ->) (u' & v' & ->). exists (u' ++ u), (v ++ v').
  rewrite !app_assoc. reflexivity.
Qed.

Lemma substr_app_l (a b : str) : substr a (a ++ b).
Proof. exists [], b. reflexivity. Qed.

Lemma substr_app_r (a b : str) : substr b (a ++ b).
Proof. exists a, []. rewrite app_nil_r. reflexivity. Qed.

Lemma substr_firstn (n : nat) (s : str) : substr (firstn n s) s.
Proof.
  exists [], (skipn n s). simpl. symmetry. apply firstn_skipn.
Qed.

Lemma substr_skipn (n : nat) (s : str) : substr (skipn n s) s.
Proof.
  exists (firstn n s), []. rewrite app_nil_r. symmetry. apply firstn_skipn.
Qed.

Lemma find_None_sub (a b sub : str) :
  substr a b -> find b sub = None -> find a sub = None.
Proof.
  intros Hab F. apply find_None_substr. intros H.
  apply find_None_substr in F. apply F. eapply substr_trans; eassumption.
Qed.

(** The result of [find] depends only on the text up to the end of the
    occurrence. *)
Lemma find_prefix_stable (s s' sub : str) (i n : nat) :
  find s sub = Some i -> i + length sub <= n ->
  firstn n s' = firstn n s -> find s' sub = Some i.
Proof.
  intros F Hn E. apply find_Some in F as (F1 & F2 & F3).
  assert (K : forall j, j + length sub <= n ->
              startswith (skipn j s') sub = startswith (skipn j s) sub).
  { intros j Hj.
    rewrite <- (@startswith_firstn (skipn j s') sub (n - j)) by lia.
    rewrite <- (@startswith_firstn (skipn j s) sub (n - j)) by lia.
    rewrite !firstn_skipn_comm. replace (j + (n - j)) with n by lia.
    rewrite E. reflexivity. }
  apply find_intro.
  - rewrite K by lia. exact F1.
  - intros j Hj. rewrite K by lia. apply F2. exact Hj.
Qed.

End Strings.


(* ================================================================= *)
(** * Splitting and joining on the entry separator *)

Section SplitJoin.

Lemma skipn_app_length (A : Type) (a b : list A) : skipn (length a) (a ++ b) = b.
Proof. induction a; simpl; auto. Qed.

Lemma firstn_app_length (A : Type) (a b : list A) : firstn (length a) (a ++ b) = a.
Proof. induction a; simpl; [reflexivity | f_equal; assumption]. Qed.

Lemma skipn_app_lt (A : Type) (j : nat) (a b : list A) :
  j <= length a -> skipn j (a ++ b) = skipn j a ++ b.
Proof.
  revert a; induction j as [|j IH]; intros a H; [reflexivity|].
  destruct a; simpl in *; [lia | apply IH; lia].
Qed.

Lemma find_nil_nonempty (sep : str) : sep <> [] -> find [] sep = None.
Proof. intros H. simpl. rewrite startswith_nil_l by exact H. reflexivity. Qed.

(** The counter of [split_fuel] is never exhausted. *)
Lemma split_fuel_irrelevant (sep : str) (n m : nat) (s : str) :
  sep <> [] -> length s <= n -> length s <= m ->
  split_fuel n s sep = split_fuel m s sep.
Proof.
  intros Hsep. revert m s; induction n as [|n IH]; intros m s Hn Hm.
  - destruct s; [|simpl in Hn; lia].
    destruct m; simpl; [reflexivity|].
    rewrite startswith_nil_l by exact Hsep. reflexivity.
  - destruct m as [|m].
    + destruct s; [|simpl in Hm; lia]. simpl.
      rewrite startswith_nil_l by exact Hsep. reflexivity.
    + simpl. destruct (find s sep) as [i|] eqn:F; [|reflexivity].
      f_equal. apply find_Some in F as (_ & _ & F).
      assert (0 < length sep) by (destruct sep; [congruence | simpl; lia]).
      apply IH; rewrite length_skipn; lia.
Qed.

Lemma split_fuel_enough (sep : str) (n : nat) (s : str) :
  sep <> [] -> length s <= n -> split_fuel n s sep = split s sep.
Proof. intros. unfold split. apply split_fuel_irrelevant; auto. Qed.

Lemma split_none (s sep : str) : find s sep = None -> split s sep = [s].
Proof.
  intros F. unfold split. destruct (length s); simpl; [reflexivity|].
  rewrite F. reflexivity.
Qed.

Lemma split_cons (s sep : str) (i : nat) :
  sep <> [] -> find s sep = Some i ->
  split s sep = firstn i s :: split (skipn (i + length sep) s) sep.
Proof.
  intros Hsep F. unfold split at 1.
  pose proof (find_Some _ _ F) as (_ & _ & Hl).
  assert (0 < length sep) by (destruct sep; [congruence | simpl; lia]).
  destruct (length s) as [|n] eqn:E; [lia|]. simpl. rewrite F. f_equal.
  apply split_fuel_enough; [exact Hsep|]. rewrite length_skipn. lia.
Qed.

(** Every piece is free of the separator and is a part of the text. *)
Lemma firstn_find_free (s sep : str) (i : nat) :
  sep <> [] -> find s sep = Some i -> find (firstn i s) sep = None.
Proof.
  intros Hsep F. apply find_Some in F as (_ & Fmin & _).
  apply find_None_intro. intros j.
  destruct (startswith (skipn j (firstn i s)) sep) eqn:E; [|reflexivity].
  exfalso.
  pose proof (startswith_length _ _ E) as Hl.
  rewrite length_skipn, length_firstn in Hl.
  assert (0 < length sep) by (destruct sep; [congruence | simpl; lia]).
  assert (Hj : j < i) by lia.
  specialize (Fmin j Hj).
  apply startswith_true in E as [r Hr].
  assert (K : startswith (skipn j s) sep = true).
  { apply startswith_true. exists (r ++ skipn i s).
    rewrite <- (firstn_skipn i s) at 1.
    rewrite skipn_app_lt by (rewrite length_firstn; lia).
    rewrite Hr, <- app_assoc. reflexivity. }
  congruence.
Qed.

Lemma split_pieces (sep : str) (s : str) :
  sep <> [] ->
  Forall (fun p => find p sep = None /\ substr p s) (split s sep).
Proof.
  intros Hsep. remember (length s) as n eqn:E.
  assert (Hn : length s <= n) by lia. clear E.
  revert s Hn; induction n as [|n IH]; intros s Hn.
  - destruct s; [|simpl in Hn; lia]. rewrite split_none.
    + constructor; [|constructor]. split; [|apply substr_refl].
      apply find_nil_nonempty; exact Hsep.
    + apply find_nil_nonempty; exact Hsep.
  - destruct (find s sep) as [i|] eqn:F.
    + rewrite (@split_cons s sep i Hsep F). constructor.
      * split; [eapply firstn_find_free; eassumption | apply substr_firstn].
      * pose proof (find_Some _ _ F) as (_ & _ & Hl).
        assert (0 < length sep) by (destruct sep; [congruence | simpl; lia]).
        eapply Forall_impl; [|apply IH; rewrite length_skipn; lia].
        intros p [Hp Hs]. split; [exact Hp|].
        eapply substr_trans; [exact Hs | apply substr_skipn].
    + rewrite (@split_none s sep F). constructor; [|constructor].
      split; [exact F | apply substr_refl].
Qed.

Lemma ENTRY_SEPARATOR_eq :
  ENTRY_SEPARATOR = ["-"%char; "-"%char; "-"%char; NL].
Proof. reflexivity. Qed.

Lemma ENTRY_SEPARATOR_nonempty : ENTRY_SEPARATOR <> [].
Proof. discriminate. Qed.

(** A text without separator, followed by a separator: the separator is
    found where it was put. *)
Lemma find_sep_after (e rest : str) :
  find e ENTRY_SEPARATOR = None ->
  find (e ++ ENTRY_SEPARATOR ++ rest) ENTRY_SEPARATOR = Some (length e).
Proof.
  intros F. apply find_intro.
  - rewrite skipn_app_length. apply startswith_app.
  - intros j Hj. rewrite skipn_app_lt by lia.
    destruct (startswith (skipn j e ++ ENTRY_SEPARATOR ++ rest) ENTRY_SEPARATOR)
      eqn:E; [|reflexivity].
    exfalso. apply startswith_app_cases in E as [E | (Hl & Hf & Hy)].
    + rewrite (find_None _ _ F j) in E. discriminate.
    + assert (Hpos : 0 < length (skipn j e)) by (rewrite length_skipn; lia).
      rewrite ENTRY_SEPARATOR_eq in Hl, Hy.
      destruct (length (skipn j e)) as [|[|[|[|n]]]]; simpl in *;
        try lia; discriminate.
Qed.

Lemma split_sep_after (e rest : str) :
  find e ENTRY_SEPARATOR = None ->
  split (e ++ ENTRY_SEPARATOR ++ rest) ENTRY_SEPARATOR
  = e :: split rest ENTRY_SEPARATOR.
Proof.
  intros F. rewrite (@split_cons _ _ _ ENTRY_SEPARATOR_nonempty (@find_sep_after e rest F)).
  rewrite firstn_app_length. f_equal. f_equal.
  rewrite app_assoc, <- length_app. apply skipn_app_length.
Qed.

Lemma split_join (es : list str) :
  es <> [] -> Forall (fun e => find e ENTRY_SEPARATOR = None) es ->
  split (join ENTRY_SEPARATOR es) ENTRY_SEPARATOR = es.
Proof.
  induction es as [|x [|y r] IH]; intros Hne Hall.
  - congruence.
  - simpl. apply split_none. inversion Hall; assumption.
  - change (join ENTRY_SEPARATOR (x :: y :: r))
      with (x ++ ENTRY_SEPARATOR ++ join ENTRY_SEPARATOR (y :: r)).
    inversion Hall as [|? ? Hx Hr]; subst.
    rewrite split_sep_after by exact Hx. f_equal.
    apply IH; [discriminate | exact Hr].
Qed.

Lemma split_join_sep (es : list str) :
  es <> [] -> Forall (fun e => find e ENTRY_SEPARATOR = None) es ->
  split (join ENTRY_SEPARATOR es ++ ENTRY_SEPARATOR) ENTRY_SEPARATOR
  = es ++ [[]].
Proof.
  induction es as [|x [|y r] IH]; intros Hne Hall.
  - congruence.
  - simpl join. inversion Hall as [|? ? Hx Hr]; subst.
    rewrite <- (app_nil_r ENTRY_SEPARATOR) at 1.
    rewrite split_sep_after by exact Hx. reflexivity.
  - change (join ENTRY_SEPARATOR (x :: y :: r))
      with (x ++ ENTRY_SEPARATOR ++ join ENTRY_SEPARATOR (y :: r)).
    inversion Hall as [|? ? Hx Hr]; subst.
    rewrite <- !app_assoc.
    rewrite split_sep_after by exact Hx. simpl. f_equal.
    apply IH; [discriminate | exact Hr].
Qed.

End SplitJoin.

(* ================================================================= *)
(** * Stripping *)

Section Strip.

Lemma lstrip_suffix (s : str) : exists u, s = u ++ lstrip s.
Proof.
  induction s as [|c s [u IH]]; simpl.
  - exists []; reflexivity.
  - destruct (isspace c).
    + exists (c :: u). simpl. f_equal. exact IH.
    + exists []. reflexivity.
Qed.

Lemma rstrip_prefix (s : str) : exists v, s = rstrip s ++ v.
Proof.
  unfold rstrip. destruct (lstrip_suffix (rev s)) as [u Hu].
  exists (rev u). rewrite <- rev_app_distr, <- Hu, rev_involutive. reflexivity.
Qed.

Lemma strip_substr (s : str) : substr (strip s) s.
Proof.
  unfold strip. destruct (lstrip_suffix s) as [u Hu].
  destruct (rstrip_prefix (lstrip s)) as [v Hv].
  exists u, v. rewrite <- Hv. exact Hu.
Qed.

Lemma lstrip_head (s : str) (c : ascii) (r : str) :
  lstrip s = c :: r -> isspace c = false.
Proof.
  induction s as [|d s IH]; simpl; [discriminate|].
  destruct (isspace d) eqn:E; [exact IH|].
  intros [= <- <-]. exact E.
Qed.

Lemma lstrip_fixed (s : str) :
  match s with [] => True | c :: _ => isspace c = false end -> lstrip s = s.
Proof. destruct s as [|c s]; simpl; [reflexivity|]. intros ->. reflexivity. Qed.

Lemma lstrip_idem (s : str) : lstrip (lstrip s) = lstrip s.
Proof.
  apply lstrip_fixed. destruct (lstrip s) as [|c r] eqn:E; [exact I|].
  eapply lstrip_head; eassumption.
Qed.

Lemma strip_head (s : str) (c : ascii) (r : str) :
  strip s = c :: r -> isspace c = false.
Proof.
  unfold strip. intros E. destruct (rstrip_prefix (lstrip s)) as [v Hv].
  rewrite E in Hv. simpl in Hv. eapply lstrip_head; eassumption.
Qed.

Lemma strip_idem (s : str) : strip (strip s) = strip s.
Proof.
  assert (H1 : lstrip (strip s) = strip s).
  { apply lstrip_fixed. destruct (strip s) as [|c r] eqn:E; [exact I|].
    eapply strip_head; eassumption. }
  unfold strip at 1. rewrite H1. unfold strip, rstrip.
  rewrite rev_involutive, lstrip_idem. reflexivity.
Qed.

Lemma strip_nil : strip [] = [].
Proof. reflexivity. Qed.

End Strip.

(* ================================================================= *)
(** * Entry blocks *)

Section Entries.

Lemma entry_texts_good (processed : str) :
  Forall (fun e => good_entry e /\ substr e processed) (entry_texts processed).
Proof.
  unfold entry_texts.
  pose proof (@split_pieces _ processed ENTRY_SEPARATOR_nonempty) as H.
  induction H as [|p l [Hp Hs] _ IH]; simpl; [constructor|].
  destruct (truthy (strip p)) eqn:T; [|exact IH].
  simpl. constructor; [|exact IH]. split.
  - split; [|split].
    + destruct (strip p); [discriminate | discriminate].
    + apply strip_idem.
    + eapply find_None_sub; [apply strip_substr | exact Hp].
  - eapply substr_trans; [apply strip_substr | exact Hs].
Qed.

Lemma entry_texts_nonblank (processed : str) :
  Forall (fun e => truthy (strip e) = true) (entry_texts processed).
Proof.
  eapply Forall_impl; [|apply entry_texts_good].
  intros e [(Hne & Hs & _) _]. rewrite Hs. destruct e; [congruence | reflexivity].
Qed.

Lemma filter_map_good (es : list str) :
  Forall good_entry es ->
  map strip (filter (fun entry => truthy (strip entry)) es) = es.
Proof.
  induction 1 as [|e es (Hne & Hs & _) _ IH]; simpl; [reflexivity|].
  rewrite Hs. destruct e as [|c e]; [congruence|]. simpl.
  rewrite Hs, IH. reflexivity.
Qed.

Lemma good_entries_free (es : list str) :
  Forall good_entry es -> Forall (fun e => find e ENTRY_SEPARATOR = None) es.
Proof. apply Forall_impl. intros e (_ & _ & H). exact H. Qed.

(** Reading back what the rewrite writes gives the same entries. *)
Lemma entry_texts_join (es : list str) :
  es <> [] -> Forall good_entry es ->
  entry_texts (join ENTRY_SEPARATOR es) = es.
Proof.
  intros Hne Hg. unfold entry_texts.
  rewrite split_join by (auto using good_entries_free).
  apply filter_map_good; exact Hg.
Qed.

Lemma entry_texts_join_sep (es : list str) :
  es <> [] -> Forall good_entry es ->
  entry_texts (join ENTRY_SEPARATOR es ++ ENTRY_SEPARATOR) = es.
Proof.
  intros Hne Hg. unfold entry_texts.
  rewrite split_join_sep by (auto using good_entries_free).
  rewrite filter_app, map_app. simpl. rewrite app_nil_r.
  apply filter_map_good; exact Hg.
Qed.

Lemma entry_texts_nil : entry_texts [] = [].
Proof. reflexivity. Qed.

End Entries.


(* ================================================================= *)
(** * The template partition *)

Section Partition.

Lemma MARKER_length : length TEMPLATE_END_MARKER = 21.
Proof. reflexivity. Qed.

Lemma SEP_length : length ENTRY_SEPARATOR = 4.
Proof. reflexivity. Qed.

Lemma find_from_Some (s sub : str) (st j : nat) :
  find_from s sub st = Some j ->
  st <= length s /\ exists k, j = st + k /\ find (skipn st s) sub = Some k.
Proof.
  unfold find_from. destruct (st <=? length s) eqn:E; [|discriminate].
  apply Nat.leb_le in E. destruct (find (skipn st s) sub) as [k|]; [|discriminate].
  simpl. intros [= <-]. split; [exact E|]. exists k. split; reflexivity.
Qed.

Lemma find_from_None (s sub : str) (st : nat) :
  find_from s sub st = None -> st <= length s -> find (skipn st s) sub = None.
Proof.
  unfold find_from. intros H Hst. apply Nat.leb_le in Hst. rewrite Hst in H.
  destruct (find (skipn st s) sub); [discriminate | reflexivity].
Qed.

Lemma find_from_intro (s sub : str) (st : nat) (r : option nat) :
  st <= length s -> find (skipn st s) sub = r ->
  find_from s sub st = option_map (Nat.add st) r.
Proof.
  intros Hst <-. unfold find_from. apply Nat.leb_le in Hst. rewrite Hst.
  reflexivity.
Qed.

(** The three shapes of a pending log. *)
Lemma partition_no_marker (c : str) :
  find c TEMPLATE_END_MARKER = None -> template_partition c = ([], c).
Proof. intros F. unfold template_partition. rewrite F. reflexivity. Qed.

Lemma partition_with_separator (c : str) (i j : nat) :
  find c TEMPLATE_END_MARKER = Some i ->
  find_from c ENTRY_SEPARATOR (i + 21) = Some j ->
  template_partition c = (firstn (j + 4) c, skipn (j + 4) c).
Proof.
  intros F G. unfold template_partition. rewrite F, MARKER_length, G.
  rewrite SEP_length. reflexivity.
Qed.

(** A template that ends with its separator is found again in front of
    anything. *)
Lemma partition_stable (c : str) (i j : nat) (x : str) :
  find c TEMPLATE_END_MARKER = Some i ->
  find_from c ENTRY_SEPARATOR (i + 21) = Some j ->
  template_partition (firstn (j + 4) c ++ x) = (firstn (j + 4) c, x).
Proof.
  intros F G.
  pose proof (find_Some _ _ F) as (_ & _ & Hi). rewrite MARKER_length in Hi.
  destruct (find_from_Some _ _ _ G) as (Hst & k & -> & Gk).
  pose proof (find_Some _ _ Gk) as (_ & _ & Hk).
  rewrite length_skipn, SEP_length in Hk.
  set (t := firstn (i + 21 + k + 4) c).
  assert (Lt : length t = i + 21 + k + 4)
    by (unfold t; rewrite length_firstn; lia).
  assert (Ft : firstn (i + 21 + k + 4) (t ++ x) = t)
    by (rewrite <- Lt; apply firstn_app_length).
  assert (F' : find (t ++ x) TEMPLATE_END_MARKER = Some i).
  { eapply find_prefix_stable with (n := i + 21 + k + 4); [exact F | |].
    - rewrite MARKER_length. lia.
    - exact Ft. }
  assert (G' : find_from (t ++ x) ENTRY_SEPARATOR (i + 21) = Some (i + 21 + k)).
  { rewrite (@find_from_intro (t ++ x) ENTRY_SEPARATOR (i + 21) (Some k));
      [reflexivity | rewrite length_app; lia |].
    eapply find_prefix_stable with (n := k + 4); [exact Gk | |].
    - rewrite SEP_length. lia.
    - rewrite !firstn_skipn_comm.
      replace (i + 21 + (k + 4)) with (i + 21 + k + 4) by lia.
      rewrite Ft. reflexivity. }
  rewrite (partition_with_separator _ F' G').
  rewrite Ft. f_equal. rewrite <- Lt. apply skipn_app_length.
Qed.

(** *** The marker does not arise from joining *)

Lemma marker_not_over_sep (a b : str) :
  find a TEMPLATE_END_MARKER = None -> find b TEMPLATE_END_MARKER = None ->
  find (a ++ ENTRY_SEPARATOR ++ b) TEMPLATE_END_MARKER = None.
Proof.
  intros Fa Fb. apply find_None_intro. intros j.
  destruct (startswith (skipn j (a ++ ENTRY_SEPARATOR ++ b)) TEMPLATE_END_MARKER)
    eqn:E; [|reflexivity].
  exfalso. destruct (Nat.le_gt_cases j (length a)) as [Hj | Hj].
  - rewrite skipn_app_lt in E by exact Hj.
    apply startswith_app_cases in E as [E | (Hl & _ & Hy)].
    + rewrite (find_None _ _ Fa j) in E. discriminate.
    + rewrite MARKER_length in Hl.
      remember (length (skipn j a)) as n eqn:En. clear En.
      do 21 (destruct n as [|n]; [vm_compute in Hy; discriminate|]).
      lia.
  - replace j with ((j - length a) + length a) in E by lia.
    rewrite <- skipn_skipn, skipn_app_length in E.
    remember (j - length a) as n eqn:En.
    destruct n as [|[|[|[|n]]]]; try (vm_compute in E; discriminate); try lia.
    change (skipn (S (S (S (S n)))) (ENTRY_SEPARATOR ++ b)) with (skipn n b) in E.
    rewrite (find_None _ _ Fb n) in E. discriminate.
Qed.

Lemma marker_not_in_join (es : list str) :
  Forall (fun e => find e TEMPLATE_END_MARKER = None) es ->
  find (join ENTRY_SEPARATOR es) TEMPLATE_END_MARKER = None.
Proof.
  induction es as [|x [|y r] IH]; intros H.
  - reflexivity.
  - inversion H; assumption.
  - change (join ENTRY_SEPARATOR (x :: y :: r))
      with (x ++ ENTRY_SEPARATOR ++ join ENTRY_SEPARATOR (y :: r)).
    inversion H; subst. apply marker_not_over_sep; auto.
Qed.

Lemma marker_not_in_closed (joined : str) :
  find joined TEMPLATE_END_MARKER = None ->
  find (joined ++ closing joined) TEMPLATE_END_MARKER = None.
Proof.
  intros F. unfold closing. destruct (endswith joined (L "---")).
  - rewrite app_nil_r. exact F.
  - rewrite <- (app_nil_r ENTRY_SEPARATOR). apply marker_not_over_sep; auto.
Qed.

(** *** What the second rewrite writes for entries read from a log *)

Lemma utf8_len_app (a b : str) : utf8_len (a ++ b) = utf8_len a + utf8_len b.
Proof.
  induction a as [|c a IH]; simpl; [reflexivity|].
  unfold utf8_len in *. simpl. rewrite IH. lia.
Qed.

Lemma utf8_len_ge (a : str) : length a <= utf8_len a.
Proof.
  induction a as [|c a IH]; simpl; [lia|].
  unfold utf8_len in *. simpl. destruct (nat_of_ascii c <? 128); lia.
Qed.

Lemma join_nonempty (sep : str) (es : list str) :
  es <> [] -> Forall (fun e => e <> []) es -> join sep es <> [].
Proof.
  destruct es as [|x [|y r]]; intros Hne H; [congruence | |];
    inversion H as [|? ? Hx _]; subst; simpl.
  - exact Hx.
  - destruct x; [congruence | discriminate].
Qed.

Lemma strip_SEP : strip ENTRY_SEPARATOR = L "---".
Proof. reflexivity. Qed.

Lemma second_rewrite_content_entries (t : str) (es : list str) :
  es <> [] -> Forall (fun e => e <> []) es ->
  second_rewrite_content t es
  = t ++ join ENTRY_SEPARATOR es ++ closing (join ENTRY_SEPARATOR es).
Proof.
  intros Hne Hall. pose proof (join_nonempty ENTRY_SEPARATOR Hne Hall) as HJ.
  unfold second_rewrite_content, second_rewrite_writes, closing.
  destruct es as [|e r]; [congruence|].
  set (J := join ENTRY_SEPARATOR (e :: r)) in *.
  assert (T : (utf8_len (t ++ J) =? length t) = false).
  { apply Nat.eqb_neq. rewrite utf8_len_app.
    pose proof (utf8_len_ge t). pose proof (utf8_len_ge J).
    destruct J; [congruence | simpl in *; lia]. }
  rewrite T, strip_SEP. simpl negb.
  change (L "---") with ["-"%char; "-"%char; "-"%char].
  destruct (endswith J ["-"%char; "-"%char; "-"%char]); simpl;
    rewrite ?app_nil_r; reflexivity.
Qed.

Lemma good_nonempty (es : list str) :
  Forall good_entry es -> Forall (fun e => e <> []) es.
Proof. apply Forall_impl. intros e (H & _). exact H. Qed.

Lemma entry_texts_closed (es : list str) :
  es <> [] -> Forall good_entry es ->
  entry_texts (join ENTRY_SEPARATOR es ++ closing (join ENTRY_SEPARATOR es)) = es.
Proof.
  intros Hne Hg. unfold closing.
  destruct (endswith (join ENTRY_SEPARATOR es) (L "---")).
  - rewrite app_nil_r. apply entry_texts_join; assumption.
  - apply entry_texts_join_sep; assumption.
Qed.

End Partition.


(* ================================================================= *)
(** * A template without a separator after its marker *)

Section NoSeparator.

Lemma count_newlines_split (s : str) :
  s = repeat NL (count_newlines s) ++ skipn (count_newlines s) s.
Proof.
  induction s as [|c s IH]; simpl; [reflexivity|].
  destruct (Ascii.eqb c NL) eqn:E; [|reflexivity].
  apply Ascii.eqb_eq in E. subst c. simpl. f_equal. exact IH.
Qed.


Lemma find_after_newlines (m : nat) (x : str) :
  find (repeat NL m ++ x) ENTRY_SEPARATOR
  = option_map (Nat.add m) (find x ENTRY_SEPARATOR).
Proof.
  induction m as [|m IH].
  - simpl. destruct (find x ENTRY_SEPARATOR); reflexivity.
  - change (repeat NL (S m) ++ x) with (NL :: (repeat NL m ++ x)).
    change (find (NL :: repeat NL m ++ x) ENTRY_SEPARATOR)
      with (option_map S (find (repeat NL m ++ x) ENTRY_SEPARATOR)).
    rewrite IH. destruct (find x ENTRY_SEPARATOR); reflexivity.
Qed.

Lemma firstn_add_skipn (A : Type) (a b : nat) (l : list A) :
  firstn (a + b) l = firstn a l ++ firstn b (skipn a l).
Proof.
  revert l; induction a as [|a IH]; intros l; [reflexivity|].
  destruct l; simpl; [rewrite firstn_nil; reflexivity | f_equal; apply IH].
Qed.

Lemma endswith_snoc (x : str) (c d : ascii) :
  endswith (x ++ [c]) [d] = Ascii.eqb d c.
Proof.
  unfold endswith. rewrite rev_app_distr. simpl. apply andb_true_r.
Qed.

Lemma repeat_snoc (A : Type) (a : A) (n : nat) :
  repeat a (S n) = repeat a n ++ [a].
Proof. induction n as [|n IH]; [reflexivity|]. simpl in *. f_equal. exact IH. Qed.

(** The text up to the end of the leftmost marker. *)
Lemma firstn_marker (c : str) (i : nat) :
  find c TEMPLATE_END_MARKER = Some i ->
  firstn (i + 21) c = firstn i c ++ TEMPLATE_END_MARKER
  /\ length (firstn (i + 21) c) = i + 21.
Proof.
  intros F. apply find_Some in F as (F & _ & Hl). rewrite MARKER_length in Hl.
  split; [|rewrite length_firstn; lia].
  apply startswith_true in F as [r Hr].
  rewrite firstn_add_skipn, Hr. reflexivity.
Qed.

Lemma partition_without_separator (c : str) (i : nat) :
  find c TEMPLATE_END_MARKER = Some i ->
  find_from c ENTRY_SEPARATOR (i + 21) = None ->
  let nl := count_newlines (skipn (i + 21) c) in
  template_partition c
  = (firstn (i + 21) c ++ repeat NL (Nat.max nl 1), skipn (i + 21 + nl) c)
  /\ find (skipn (i + 21 + nl) c) ENTRY_SEPARATOR = None.
Proof.
  intros F G nl.
  pose proof (find_Some _ _ F) as (_ & _ & Hl). rewrite MARKER_length in Hl.
  pose proof (find_from_None _ _ G Hl) as G'.
  split.
  - unfold template_partition. rewrite F, MARKER_length, G. fold nl.
    f_equal. rewrite firstn_add_skipn.
    assert (E : firstn nl (skipn (i + 21) c) = repeat NL nl).
    { rewrite (count_newlines_split (skipn (i + 21) c)) at 1. fold nl.
      rewrite <- (repeat_length NL nl) at 1. apply firstn_app_length. }
    rewrite E. destruct nl as [|n].
    + assert (Hend : endswith (firstn (i + 21) c ++ repeat NL 0) [NL] = false).
      { simpl repeat. rewrite app_nil_r.
        destruct (firstn_marker c F) as [Hm _]. rewrite Hm.
        change TEMPLATE_END_MARKER
          with (L "<!-- END TEMPLATE --" ++ [">"%char]).
        rewrite app_assoc, endswith_snoc. reflexivity. }
      rewrite Hend. simpl. rewrite app_nil_r. reflexivity.
    + assert (Hend : endswith (firstn (i + 21) c ++ repeat NL (S n)) [NL] = true).
      { rewrite repeat_snoc, app_assoc, endswith_snoc. apply Ascii.eqb_refl. }
      rewrite Hend. replace (Nat.max (S n) 1) with (S n) by lia. reflexivity.
  - eapply find_None_sub; [|exact G'].
    replace (i + 21 + nl) with (nl + (i + 21)) by lia.
    rewrite <- skipn_skipn. apply substr_skipn.
Qed.



End NoSeparator.


(* ================================================================= *)
(** * Rewriting a log with every entry retained *)

Section Rewritten.

Lemma good_of_entry_texts (processed : str) :
  Forall good_entry (entry_texts processed).
Proof.
  eapply Forall_impl; [|apply entry_texts_good]. intros e [H _]. exact H.
Qed.



End Rewritten.


(* ================================================================= *)
(** * Carriage returns *)

Section Newlines.

Lemma universal_newlines_no_cr (s : str) : ~ In CR (universal_newlines s).
Proof.
  remember (length s) as n eqn:E.
  assert (Hn : length s <= n) by lia. clear E.
  revert s Hn. induction n as [|n IH]; intros s Hn.
  - destruct s; [intros [] | simpl in Hn; lia].
  - destruct s as [|c s]; [intros []|]. cbn [universal_newlines].
    cbn [length] in Hn. destruct (Ascii.eqb c CR) eqn:C.
    + intros [H | H]; [discriminate|].
      destruct s as [|c' s]; [exact H|]. cbn [length] in Hn.
      destruct (Ascii.eqb c' NL).
      * apply (IH s); [lia | exact H].
      * apply (IH (c' :: s)); [cbn [length]; lia | exact H].
    + intros [H | H].
      * subst c. rewrite Ascii.eqb_refl in C. discriminate.
      * apply (IH s); [lia | exact H].
Qed.

Lemma universal_newlines_id (s : str) :
  ~ In CR s -> universal_newlines s = s.
Proof.
  induction s as [|c s IH]; [reflexivity|]. intros H. cbn [universal_newlines].
  destruct (Ascii.eqb c CR) eqn:C.
  - apply Ascii.eqb_eq in C. subst c. exfalso. apply H. left. reflexivity.
  - f_equal. apply IH. intros K. apply H. right. exact K.
Qed.

Lemma universal_newlines_idem (s : str) :
  universal_newlines (universal_newlines s) = universal_newlines s.
Proof. apply universal_newlines_id, universal_newlines_no_cr. Qed.











End Newlines.



(* ================================================================= *)
(** * Computations that leave the files alone *)

Section Quiet.

Lemma quiet_step_refl (w : World) : quiet_step w w.
Proof.
  split; [reflexivity|]. split.
  - exists []. rewrite app_nil_r. split; [reflexivity | constructor].
  - exists []. reflexivity.
Qed.

Lemma quiet_step_trans (w1 w2 w3 : World) :
  quiet_step w1 w2 -> quiet_step w2 w3 -> quiet_step w1 w3.
Proof.
  intros (F1 & (e1 & E1 & A1) & (k1 & K1)) (F2 & (e2 & E2 & A2) & (k2 & K2)).
  split; [congruence|]. split.
  - exists (e1 ++ e2). rewrite E2, E1, app_assoc. split; [reflexivity|].
    apply Forall_app; split; assumption.
  - exists (k1 ++ k2). rewrite K1, K2, app_assoc. reflexivity.
Qed.

Lemma quiet_step_emit (e : Event) (w : World) :
  event_path e = None -> quiet_step w (emit e w).
Proof.
  intros He. split; [reflexivity|]. split.
  - exists [e]. split; [reflexivity | constructor; [exact He | constructor]].
  - exists []. reflexivity.
Qed.

Lemma quiet_ret (A : Type) (a : A) : quiet (ret a).
Proof. intros w r w' [= <- <-]. apply quiet_step_refl. Qed.

Lemma quiet_raise (A : Type) (e : exn) : quiet (@raise A e).
Proof. intros w r w' [= <- <-]. apply quiet_step_refl. Qed.

Lemma quiet_bind (A B : Type) (m : M A) (k : A -> M B) :
  quiet m -> (forall a, quiet (k a)) -> quiet (bind m k).
Proof.
  intros Hm Hk w r w' H. unfold bind in H.
  destruct (m w) as [[a|e] w1] eqn:E.
  - eapply quiet_step_trans; [eapply Hm; exact E | eapply Hk; exact H].
  - injection H as <- <-. eapply Hm; exact E.
Qed.

Lemma quiet_try_except (A : Type) (m : M A) (h : exn -> M A) :
  quiet m -> (forall e, quiet (h e)) -> quiet (try_except m h).
Proof.
  intros Hm Hh w r w' H. unfold try_except in H.
  destruct (m w) as [[a|e] w1] eqn:E.
  - injection H as <- <-. eapply Hm; exact E.
  - eapply quiet_step_trans; [eapply Hm; exact E | eapply Hh; exact H].
Qed.

Lemma quiet_while_true (A : Type) (n : nat) (body : M (option A)) :
  quiet body -> quiet (while_true n body).
Proof.
  intros Hb. induction n as [|n IH]; intros w r w' H; simpl in H;
    destruct (body w) as [[[a|]|e] w1] eqn:E.
  - injection H as <- <-. eapply Hb; exact E.
  - injection H as <- <-. eapply Hb; exact E.
  - injection H as <- <-. eapply Hb; exact E.
  - injection H as <- <-. eapply Hb; exact E.
  - eapply quiet_step_trans; [eapply Hb; exact E | eapply IH; exact H].
  - injection H as <- <-. eapply Hb; exact E.
Qed.

Lemma quiet_while_input (A : Type) (body : M (option A)) :
  quiet body -> quiet (while_input body).
Proof.
  intros Hb w r w' H. unfold while_input in H.
  eapply quiet_while_true; eassumption.
Qed.

Lemma quiet_input (prompt : str) : quiet (input prompt).
Proof.
  intros w r w' H. unfold input in H. destruct (stdin w) as [|l rest] eqn:E.
  - injection H as <- <-. apply quiet_step_emit. reflexivity.
  - injection H as <- <-. split; [reflexivity|]. split.
    + exists [EvInput prompt (Some l)].
      split; [reflexivity | constructor; [reflexivity | constructor]].
    + exists [l]. simpl. exact E.
Qed.

Lemma quiet_log (level : Level) (msg : str) : quiet (log level msg).
Proof. intros w r w' [= <- <-]. apply quiet_step_emit. reflexivity. Qed.

Lemma quiet_connect (srv : Server) : quiet (connect srv).
Proof. intros w r w' [= <- <-]. apply quiet_step_emit. reflexivity. Qed.

Lemma quiet_search_issues (srv : Server) (jql : str) :
  quiet (search_issues srv jql).
Proof. intros w r w' [= <- <-]. apply quiet_step_emit. reflexivity. Qed.

Lemma quiet_project_versions (srv : Server) (k : str) :
  quiet (project_versions srv k).
Proof. intros w r w' [= <- <-]. apply quiet_step_emit. reflexivity. Qed.

Lemma quiet_create_issue (srv : Server) (d : dict FieldValue) :
  quiet (create_issue srv d).
Proof. intros w r w' [= <- <-]. apply quiet_step_emit. reflexivity. Qed.

Lemma quiet_transitions (srv : Server) (k : str) : quiet (transitions srv k).
Proof. intros w r w' [= <- <-]. apply quiet_step_emit. reflexivity. Qed.

Lemma quiet_transition_issue (srv : Server) (k t : str) :
  quiet (transition_issue srv k t).
Proof. intros w r w' [= <- <-]. apply quiet_step_emit. reflexivity. Qed.

Lemma quiet_path_exists (p : str) : quiet (path_exists p).
Proof. intros w r w' [= <- <-]. apply quiet_step_refl. Qed.

Lemma quiet_read_file (p : str) : quiet (read_file p).
Proof.
  intros w r w' H. unfold read_file in H.
  destruct (fs w p); injection H as <- <-; apply quiet_step_refl.
Qed.

End Quiet.

Create HintDb quiet.

#[local] Hint Resolve quiet_ret quiet_raise quiet_input quiet_log quiet_connect
  quiet_search_issues quiet_project_versions quiet_create_issue
  quiet_transitions quiet_transition_issue quiet_path_exists quiet_read_file
  : quiet.

(** Goes through a computation built from the ones above. *)
Ltac quiet_steps :=
  repeat first
    [ progress eauto with quiet
    | apply quiet_bind; [|intros]
    | apply quiet_try_except; [|intros]
    | apply quiet_while_input
    | match goal with
      | |- quiet (if ?b then _ else _) => destruct b
      | |- quiet (match ?x with _ => _ end) => destruct x
      | |- quiet (let '(_, _) := ?x in _) => destruct x
      end ].

Section QuietRun.

Variables (srv : Server) (env : Env).

Lemma quiet_get_user_input (p : str) (d : option str) :
  quiet (get_user_input p d).
Proof. unfold get_user_input. quiet_steps. Qed.

Lemma quiet_get_project_epics (k : str) : quiet (get_project_epics srv k).
Proof. unfold get_project_epics. quiet_steps. Qed.

Lemma quiet_get_stories_in_epic (k e : str) :
  quiet (get_stories_in_epic srv k e).
Proof. unfold get_stories_in_epic. quiet_steps. Qed.

Lemma quiet_get_project_versions (k : str) :
  quiet (get_project_versions srv k).
Proof. unfold get_project_versions. quiet_steps. Qed.

Lemma quiet_create_jira_issue (a b c d e f : str) (g : option str) (h : str) :
  quiet (create_jira_issue srv a b c d e f g h).
Proof. unfold create_jira_issue. quiet_steps. Qed.

Lemma quiet_create_jira_epic (a b c d : str) (e : option str)
    (f g : option (list str)) :
  quiet (create_jira_epic srv env a b c d e f g).
Proof. unfold create_jira_epic. quiet_steps. Qed.

Lemma quiet_transition_jira_issue (k t : str) :
  quiet (transition_jira_issue srv k t).
Proof. unfold transition_jira_issue. quiet_steps. Qed.

Hint Resolve quiet_get_user_input quiet_get_project_epics
  quiet_get_stories_in_epic quiet_get_project_versions
  quiet_create_jira_issue quiet_create_jira_epic quiet_transition_jira_issue
  : quiet.

Lemma quiet_select_fix_versions (vs : list (str * str)) :
  quiet (select_fix_versions vs).
Proof. unfold select_fix_versions. quiet_steps. Qed.

Hint Resolve quiet_select_fix_versions : quiet.

Lemma quiet_create_new_epic (r : str) : quiet (create_new_epic srv env r).
Proof. unfold create_new_epic. quiet_steps. Qed.

Lemma quiet_no_epics_found (r : str) : quiet (no_epics_found srv env r).
Proof. unfold no_epics_found. quiet_steps. Qed.

Hint Resolve quiet_create_new_epic quiet_no_epics_found : quiet.

Lemma quiet_choose_epic (r : str) (epics : list (str * str)) :
  quiet (choose_epic srv env r epics).
Proof. unfold choose_epic. quiet_steps. Qed.

Hint Resolve quiet_choose_epic : quiet.

Lemma quiet_epic_handling (r : str) : quiet (epic_handling srv env r).
Proof. unfold epic_handling. quiet_steps. Qed.

Lemma quiet_duplicate_check (k : option str) (n s t : str) :
  quiet (duplicate_check srv k n s t).
Proof. unfold duplicate_check. quiet_steps. Qed.

Lemma quiet_create_and_transition (r : str) (k : option str)
    (n t s d a : str) :
  quiet (create_and_transition srv r k n t s d a).
Proof. unfold create_and_transition. quiet_steps. Qed.

Hint Resolve quiet_epic_handling quiet_duplicate_check
  quiet_create_and_transition : quiet.

Lemma quiet_confirm_and_resolve_epic (d : dict str) (u : UserDetails) :
  quiet (confirm_and_resolve_epic srv env d u).
Proof. unfold confirm_and_resolve_epic. quiet_steps. Qed.

Hint Resolve quiet_confirm_and_resolve_epic : quiet.

Lemma quiet_process_single_entry (d : dict str) (u : UserDetails) :
  quiet (process_single_entry srv env d u).
Proof. unfold process_single_entry. quiet_steps. Qed.

Lemma quiet_parse_pending_entry (e : str) : quiet (parse_pending_entry e).
Proof. unfold parse_pending_entry. quiet_steps. Qed.

Hint Resolve quiet_process_single_entry quiet_parse_pending_entry : quiet.

Lemma quiet_process_entry (u : UserDetails) (e : str) (st : loop_state) :
  quiet (process_entry srv env u e st).
Proof. unfold process_entry. quiet_steps. Qed.

Hint Resolve quiet_process_entry : quiet.

Lemma quiet_entries_loop (u : UserDetails) (es : list str) (st : loop_state) :
  quiet (entries_loop srv env u es st).
Proof. revert st; induction es as [|e es IH]; intros st; simpl; quiet_steps. Qed.

Lemma quiet_remaining_loop (i : nat) (es : list str)
    (p : list (option str)) (acc : list str) :
  quiet (remaining_loop i es p acc).
Proof.
  revert i acc; induction es as [|e es IH]; intros i acc; simpl; quiet_steps.
Qed.

End QuietRun.


(* ================================================================= *)
(** * Writing files *)

Section Files.

Lemma str_eqb_refl (a : str) : str_eqb a a = true.
Proof. unfold str_eqb. destruct (str_eq_dec a a); congruence. Qed.

Lemma str_eqb_eq (a b : str) : str_eqb a b = true <-> a = b.
Proof.
  unfold str_eqb. destruct (str_eq_dec a b); split; congruence.
Qed.

Lemma str_eqb_neq (a b : str) : str_eqb a b = false <-> a <> b.
Proof.
  unfold str_eqb. destruct (str_eq_dec a b); split; congruence.
Qed.

Lemma after_events_nil (w : World) : after_events [] w = w.
Proof. destruct w. unfold after_events. simpl. rewrite app_nil_r. reflexivity. Qed.

Lemma after_events_app (e1 e2 : list Event) (w : World) :
  after_events e2 (after_events e1 w) = after_events (e1 ++ e2) w.
Proof.
  unfold after_events, apply_events. simpl.
  rewrite fold_left_app, app_assoc. reflexivity.
Qed.

Lemma fs_op_run (e : Event) (w : World) :
  fs_op e w = (Ok tt, after_events [e] w).
Proof. reflexivity. Qed.

Lemma for_each_write (path : str) (ws : list str) (w : World) :
  for_each ws (write path) w
  = (Ok tt, after_events (map (EvWrite path) ws) w).
Proof.
  revert w; induction ws as [|x ws IH]; intros w; simpl.
  - unfold ret. rewrite after_events_nil. reflexivity.
  - unfold bind, write. rewrite fs_op_run, IH, after_events_app. reflexivity.
Qed.

Lemma write_file_run (path : str) (ws : list str) (w : World) :
  write_file path ws w = (Ok tt, after_events (write_file_events path ws) w).
Proof.
  unfold write_file, bind, open_w. rewrite fs_op_run, for_each_write.
  rewrite after_events_app. reflexivity.
Qed.

Lemma for_each_append (path : str) (rs : list str) (w : World) :
  for_each rs (fun r => write path (r ++ [NL])) w
  = (Ok tt, after_events (map (fun r => EvWrite path (r ++ [NL])) rs) w).
Proof.
  revert w; induction rs as [|x rs IH]; intros w; simpl.
  - unfold ret. rewrite after_events_nil. reflexivity.
  - unfold bind, write. rewrite fs_op_run, IH, after_events_app. reflexivity.
Qed.

Lemma append_committed_run (path : str) (rs : list str) (w : World) :
  append_committed path rs w = (Ok tt, after_events (committed_events path rs) w).
Proof.
  unfold append_committed, committed_events. destruct rs as [|r rs].
  - unfold ret. rewrite after_events_nil. reflexivity.
  - unfold bind, open_a. rewrite fs_op_run, for_each_append.
    rewrite after_events_app. reflexivity.
Qed.

(** *** The files after the events *)

Lemma fs_set_same (f : FS) (p : str) (v : str) : fs_set f p v p = Some v.
Proof. unfold fs_set. rewrite str_eqb_refl. reflexivity. Qed.

Lemma fs_set_other (f : FS) (p q : str) (v : str) :
  q <> p -> fs_set f p v q = f q.
Proof.
  intros H. unfold fs_set. apply str_eqb_neq in H. rewrite H. reflexivity.
Qed.

Lemma apply_writes_same (path : str) (ws : list str) (f : FS) (c : str) :
  f path = Some c ->
  apply_events (map (EvWrite path) ws) f path = Some (c ++ concat ws).
Proof.
  revert f c; induction ws as [|x ws IH]; intros f c H; simpl.
  - rewrite app_nil_r. exact H.
  - unfold apply_events in *. simpl.
    rewrite (IH _ (c ++ x)).
    + rewrite <- app_assoc. reflexivity.
    + rewrite H. apply fs_set_same.
Qed.

Lemma apply_events_other (evs : list Event) (f : FS) (q : str) :
  Forall (fun e => touches q e = false) evs ->
  apply_events evs f q = f q.
Proof.
  intros H. revert f; induction H as [|e evs He _ IH]; intros f;
    [reflexivity|].
  unfold apply_events in *. simpl. rewrite IH.
  unfold touches in He.
  destruct e; simpl in *; try reflexivity;
    apply fs_set_other; apply str_eqb_neq in He; congruence.
Qed.

Lemma apply_write_file_same (path : str) (ws : list str) (f : FS) :
  apply_events (write_file_events path ws) f path = Some (concat ws).
Proof.
  unfold write_file_events.
  change (apply_events (EvOpenW path :: map (EvWrite path) ws) f)
    with (apply_events (map (EvWrite path) ws) (fs_set f path [])).
  rewrite (@apply_writes_same path ws _ []); [reflexivity | apply fs_set_same].
Qed.

Lemma write_file_events_touch (path q : str) (ws : list str) :
  q <> path -> Forall (fun e => touches q e = false) (write_file_events path ws).
Proof.
  intros H. assert (E : str_eqb path q = false) by (apply str_eqb_neq; congruence).
  unfold write_file_events. constructor; [exact E|].
  apply Forall_forall. intros e He. apply in_map_iff in He as (x & <- & _).
  exact E.
Qed.

Lemma write_file_events_on (path : str) (ws : list str) :
  Forall (fun e => touches path e = true) (write_file_events path ws).
Proof.
  unfold write_file_events. constructor; [apply str_eqb_refl|].
  apply Forall_forall. intros e He. apply in_map_iff in He as (x & <- & _).
  apply str_eqb_refl.
Qed.

(** After any part of the operations of a rewrite, the file holds what has
    been written so far. *)
Lemma apply_write_file_prefix (path : str) (ws : list str) (f : FS) (k : nat) :
  apply_events (firstn (S k) (write_file_events path ws)) f path
  = Some (concat (firstn k ws)).
Proof.
  unfold write_file_events. simpl firstn. rewrite firstn_map.
  apply (apply_write_file_same path (firstn k ws) f).
Qed.

Lemma apply_committed_same (path : str) (rs : list str) (f : FS) :
  rs <> [] ->
  apply_events (committed_events path rs) f path
  = Some (content_or_empty f path ++ concat (map (fun r => r ++ [NL]) rs)).
Proof.
  intros Hne. unfold committed_events. destruct rs as [|r rs]; [congruence|].
  change (apply_events (EvOpenA path :: ?l) f)
    with (apply_events l (fs_set f path (content_or_empty f path))).
  rewrite <- (map_map (fun r => r ++ [NL]) (EvWrite path)).
  apply apply_writes_same. apply fs_set_same.
Qed.

Lemma committed_events_touch (path q : str) (rs : list str) :
  q <> path -> Forall (fun e => touches q e = false) (committed_events path rs).
Proof.
  intros H. assert (E : str_eqb path q = false) by (apply str_eqb_neq; congruence).
  unfold committed_events. destruct rs as [|r rs]; constructor; [exact E|].
  apply Forall_forall. intros e He. apply in_map_iff in He as (x & <- & _).
  exact E.
Qed.

Lemma quiet_events_touch (q : str) (evs : list Event) :
  Forall (fun e => event_path e = None) evs ->
  Forall (fun e => touches q e = false) evs.
Proof.
  apply Forall_impl. intros e H. unfold touches. rewrite H. reflexivity.
Qed.

Lemma new_events_app (w w' : World) (evs : list Event) :
  events w' = events w ++ evs -> new_events w w' = evs.
Proof. intros H. unfold new_events. rewrite H. apply skipn_app_length. Qed.

End Files.


(* ================================================================= *)
(** * The end of the run *)

#[local] Arguments L : simpl never.
#[local] Arguments Ln : simpl never.

(** Takes apart the first call of a computation in a hypothesis. *)
Tactic Notation "bind_inv" hyp(H) "as" ident(a) ident(w) ident(E) :=
  unfold bind in H;
  match type of H with
  | context [match ?m ?w0 with (_, _) => _ end] =>
      destruct (m w0) as [[a|a] w] eqn:E; [|discriminate]
  end.

Section Writer.

Lemma remaining_loop_result (i : nat) (es : list str)
    (p : list (option str)) (acc : list str) (w : World) :
  exists w1,
    remaining_loop i es p acc w = (Ok (acc ++ retained_from i es p), w1)
    /\ quiet_step w w1.
Proof.
  revert i acc w; induction es as [|e es IH]; intros i acc w;
    cbn [remaining_loop retained_from].
  - exists w. rewrite app_nil_r. split; [reflexivity | apply quiet_step_refl].
  - destruct (nth_error p i) as [[t|]|].
    + apply IH.
    + destruct (IH (S i) (acc ++ [e]) w) as (w1 & R & Q).
      exists w1. rewrite R, <- app_assoc. split; [reflexivity | exact Q].
    + destruct (IH (S i) (acc ++ [e])
                  (emit (EvLog WARNING
                     (L "Mismatch in processed_successfully_texts length. Keeping entry: "
                      ++ firstn 50 e ++ L "...")) w)) as (w1 & R & Q).
      exists w1. unfold bind, log. rewrite R, <- app_assoc.
      split; [reflexivity|].
      eapply quiet_step_trans; [|exact Q]. apply quiet_step_emit. reflexivity.
Qed.

(** [write_logs] always completes: the committed log is appended to, some
    warnings may be logged, and the pending log is written twice. *)
Lemma write_logs_run (user : str) (d : Locals) (w : World) :
  exists w1,
    quiet_step
      (after_events
         (committed_events (COMMITTED_FILE_PATH d) (all_committed_entries_text d)) w)
      w1
    /\ write_logs user d w
       = (Ok tt,
          after_events
            (write_file_events (PENDING_FILE_PATH d)
               (first_rewrite_writes user (template_section d) (retained d))
             ++ write_file_events (PENDING_FILE_PATH d)
                  (second_rewrite_writes (template_section d) (retained d)))
            w1).
Proof.
  destruct (remaining_loop_result 0 (pending_entry_texts d)
              (processed_successfully_texts d) []
              (after_events
                 (committed_events (COMMITTED_FILE_PATH d)
                    (all_committed_entries_text d)) w)) as (w1 & R & Q).
  exists w1. split; [exact Q|].
  unfold write_logs, bind. rewrite append_committed_run, R.
  unfold first_rewrite, second_rewrite. simpl app.
  rewrite !write_file_run, after_events_app. reflexivity.
Qed.

Lemma main_unfold (srv : Server) (env : Env) (user : str) (w : World) :
  main srv env user w
  = match main_entries srv env user w with
    | (Ok (Some d), w1) => write_logs user d w1
    | (Ok None, w1) => (Ok tt, w1)
    | (Raise e, w1) => (Raise e, w1)
    end.
Proof.
  unfold main, bind. destruct (main_entries srv env user w) as [[[d|]|e] w1];
    reflexivity.
Qed.

End Writer.

(* ================================================================= *)
(** * One entry *)

Section OneEntry.

Variables (srv : Server) (env : Env).

Lemma committed_entry_str_head (n : str) (k : option str) (t i s st d a : str) :
  exists r, committed_entry_str n k t i s st d a = "#"%char :: r.
Proof. unfold committed_entry_str. eexists. reflexivity. Qed.

Lemma create_and_transition_result (r : str) (k : option str)
    (n t s d a : str) (w w' : World) (b : bool) (rd : option str) :
  create_and_transition srv r k n t s d a w = (Ok (b, rd), w') ->
  (b = true /\ exists i st, rd = Some (committed_entry_str n k t i s st d a))
  \/ (b = false /\ rd = None).
Proof.
  unfold create_and_transition. intros H. bind_inv H as key w1 E1.
  destruct key as [key|].
  - destruct (truthy key).
    + bind_inv H as ok w2 E2. destruct ok.
      * unfold ret in H. injection H as <- <- <-. left. eauto.
      * bind_inv H as u w3 E3. unfold ret in H.
        injection H as <- <- <-. left. eauto.
    + bind_inv H as u w2 E2. unfold ret in H.
      injection H as <- <- <-. right. auto.
  - bind_inv H as u w2 E2. unfold ret in H.
    injection H as <- <- <-. right. auto.
Qed.

Lemma process_single_entry_result (d : dict str) (u : UserDetails)
    (w w' : World) (b : bool) (rd : option str) :
  process_single_entry srv env d u w = (Ok (b, rd), w') ->
  (b = true /\ exists c, rd = Some ("#"%char :: c))
  \/ (b = false /\ (rd = SKIPPED \/ rd = None)).
Proof.
  unfold process_single_entry. intros H. bind_inv H as o w1 E1.
  destruct o as [[[t k] n]|].
  - bind_inv H as go w2 E2. destruct go.
    + apply create_and_transition_result in H as [(-> & i & st & ->) | (-> & ->)].
      * left. split; [reflexivity|].
        destruct (committed_entry_str_head n k t i
                    (dict_get_default d (L "draft_summary") (L "No summary provided"))
                    st
                    (dict_get_default d (L "description") (L "Description to be added."))
                    (dict_get_default d (L "acceptance_criteria")
                       (L "- Acceptance criteria to be added."))) as [c ->].
        eauto.
      * right. auto.
    + unfold ret in H. injection H as <- <- <-. right. auto.
  - unfold ret in H. injection H as <- <- <-. right. auto.
Qed.

Lemma parse_pending_entry_result (e : str) (w w' : World) (data : dict str) :
  parse_pending_entry e w = (Ok data, w') ->
  data = [] \/ (parseable e = true /\ data = parsed_fields e).
Proof.
  unfold parse_pending_entry, parseable. intros H.
  destruct (truthy_opt (dict_get (parsed_fields e) (L "draft_summary")));
    cbn [negb] in H.
  - unfold ret in H. injection H as <- <-. right. auto.
  - bind_inv H as u w1 E1. unfold ret in H. injection H as <- <-. left. auto.
Qed.

(** One round of the loop adds one slot: [None], or the entry itself
    together with one record. *)
Lemma process_entry_result (u : UserDetails) (e : str) (st st' : loop_state)
    (w w' : World) :
  truthy (strip e) = true ->
  process_entry srv env u e st w = (Ok st', w') ->
  st' = (fst st ++ [None], snd st)
  \/ (parseable e = true /\ exists rec, st' = (fst st ++ [Some e], snd st ++ [rec])).
Proof.
  intros Hb H. unfold process_entry in H. destruct st as [ps cs].
  rewrite Hb in H. cbn [negb] in H. cbv iota in H.
  bind_inv H as data w1 E1.
  pose proof (parse_pending_entry_result _ _ E1) as P.
  destruct data as [|x data].
  - bind_inv H as v w2 E2. unfold ret in H. injection H as <- <-.
    left. reflexivity.
  - destruct P as [P | [P _]]; [discriminate|].
    bind_inv H as p w2 E2. destruct p as [b rd].
    apply process_single_entry_result in E2
      as [(-> & c & ->) | (-> & [-> | ->])].
    + unfold ret in H. cbn [truthy andb] in H.
      assert (N : str_eqb ("#"%char :: c) (L "skipped") = false)
        by (apply str_eqb_neq; discriminate).
      rewrite N in H. cbn [negb] in H. injection H as <- <-.
      right. split; [exact P | eauto].
    + unfold SKIPPED in H. rewrite str_eqb_refl in H.
      unfold ret in H. injection H as <- <-. left. reflexivity.
    + bind_inv H as v w3 E3. unfold ret in H. injection H as <- <-.
      left. reflexivity.
Qed.

Lemma entries_loop_result (u : UserDetails) (es : list str)
    (st st' : loop_state) (w w' : World) :
  Forall (fun e => truthy (strip e) = true) es ->
  entries_loop srv env u es st w = (Ok st', w') ->
  exists slots recs,
    st' = (fst st ++ slots, snd st ++ recs)
    /\ Forall2 (fun e s => s = None \/ (s = Some e /\ parseable e = true)) es slots
    /\ length recs = committed_count slots.
Proof.
  intros Hall. revert st w; induction Hall as [|e es He _ IH]; intros st w H.
  - cbn [entries_loop] in H. unfold ret in H. injection H as <- <-.
    exists [], []. rewrite !app_nil_r. destruct st. repeat split. constructor.
  - cbn [entries_loop] in H. bind_inv H as st1 w1 E1.
    apply IH in H as (slots & recs & -> & F2 & Hl).
    apply process_entry_result in E1 as [-> | (P & rec & ->)]; [| |exact He].
    + exists (None :: slots), recs. cbn [fst snd].
      rewrite <- app_assoc. repeat split; [constructor; auto | exact Hl].
    + exists (Some e :: slots), (rec :: recs). cbn [fst snd].
      rewrite <- !app_assoc. repeat split; [constructor; auto|].
      unfold committed_count in *. cbn [filter length]. rewrite Hl. reflexivity.
Qed.

End OneEntry.


(* ================================================================= *)
(** * The run up to the end of the loop *)

Tactic Notation "bind_inv'" hyp(H) "as" ident(a) ident(w) ident(E) :=
  unfold bind in H;
  match type of H with
  | context [match ?m ?w0 with (_, _) => _ end] =>
      destruct (m w0) as [[a|a] w] eqn:E
  end.

Section MainEntries.

Variables (srv : Server) (env : Env) (user : str).

(** How [main] can come to the end of its loop, return before it, or be
    interrupted in it. *)
Lemma main_entries_cases (w w1 : World) (r : Result (option Locals)) :
  main_entries srv env user w = (r, w1) ->
  match r with
  | Ok (Some d) =>
      exists pn cn content,
        assoc user USERS_CONFIG = Some (pn, cn)
        /\ PENDING_FILE_PATH d = path_join (BASE_DIR env) pn
        /\ COMMITTED_FILE_PATH d = path_join (BASE_DIR env) cn
        /\ fs w (PENDING_FILE_PATH d) = Some content
        /\ template_section d = template_of (universal_newlines content)
        /\ pending_entry_texts d = entries_of (universal_newlines content)
        /\ entries_of (universal_newlines content) <> []
        /\ truthy_opt (dict_get (environ env) (L "Jira")) = true
        /\ quiet_step w w1
        /\ Forall2 (fun e s => s = None \/ (s = Some e /\ parseable e = true))
             (pending_entry_texts d) (processed_successfully_texts d)
        /\ length (all_committed_entries_text d)
           = committed_count (processed_successfully_texts d)
  | Ok None =>
      (quiet_step w w1
       /\ (assoc user USERS_CONFIG = None
           \/ exists pn cn content,
                assoc user USERS_CONFIG = Some (pn, cn)
                /\ fs w (path_join (BASE_DIR env) pn) = Some content
                /\ (entries_of (universal_newlines content) = []
                    \/ truthy_opt (dict_get (environ env) (L "Jira")) = false)))
      \/ (exists pn cn,
            assoc user USERS_CONFIG = Some (pn, cn)
            /\ fs w (path_join (BASE_DIR env) pn) = None
            /\ w1 = after_events
                      (write_file_events (path_join (BASE_DIR env) pn)
                         (initial_template user)) w)
  | Raise e =>
      quiet_step w w1
      /\ exists pn cn content,
           assoc user USERS_CONFIG = Some (pn, cn)
           /\ fs w (path_join (BASE_DIR env) pn) = Some content
  end.
Proof.
  unfold main_entries. intros H.
  destruct (assoc user USERS_CONFIG) as [[pn cn]|] eqn:A.
  2:{ unfold bind, log, ret in H. injection H as <- <-. left.
      split; [apply quiet_step_emit; reflexivity | left; reflexivity]. }
  unfold bind at 1 in H. unfold path_exists in H.
  destruct (fs w (path_join (BASE_DIR env) pn)) as [content|] eqn:F;
    cbn [negb] in H.
  2:{ unfold bind in H. rewrite write_file_run in H. unfold ret in H.
      injection H as <- <-. right. exists pn, cn. auto. }
  unfold bind at 1 in H. unfold try_except at 1 in H.
  unfold bind at 1 in H. unfold read_file at 1 in H. rewrite F in H.
  unfold ret at 1 in H. cbv iota beta in H.
  unfold bind at 1 in H. unfold try_except at 1 in H.
  unfold bind at 1 in H. unfold read_file at 1 in H. rewrite F in H.
  unfold ret at 1 in H. cbv iota beta in H.
  unfold entries_of, template_of.
  destruct (template_partition (universal_newlines content)) as [t pc] eqn:TP. cbn [fst snd].
  destruct (entry_texts pc) as [|e0 es0] eqn:ET.
  { unfold ret in H. injection H as <- <-. left.
    split; [apply quiet_step_refl|]. right. exists pn, cn, content.
    rewrite TP. cbn [snd]. auto. }
  destruct (truthy_opt (dict_get (environ env) (L "Jira"))) eqn:TK.
  2:{ assert (Q : quiet_step w w1 /\ r = Ok None).
      { unfold bind, log, ret in H. injection H as <- <-.
        split; [|reflexivity].
        eapply quiet_step_trans; apply quiet_step_emit; reflexivity. }
      destruct Q as [Q ->]. left. split; [exact Q|]. right.
      exists pn, cn, content. auto. }
  assert (Q : quiet_step w w1).
  { refine (@quiet_bind _ _ _ _ _ _ w r w1 H); [apply quiet_input | intros line].
    apply quiet_bind; [apply quiet_entries_loop | intros; apply quiet_ret]. }
  bind_inv' H as line w2 E1.
  2:{ injection H as <- <-. split; [exact Q|]. exists pn, cn, content. auto. }
  bind_inv' H as st w3 E2.
  2:{ injection H as <- <-. split; [exact Q|]. exists pn, cn, content. auto. }
  unfold ret in H. injection H as <- <-.
  apply entries_loop_result in E2 as (slots & recs & -> & F2 & Hl).
  2:{ rewrite <- ET. apply entry_texts_nonblank. }
  exists pn, cn, content. cbn [PENDING_FILE_PATH COMMITTED_FILE_PATH
    template_section pending_entry_texts processed_successfully_texts
    all_committed_entries_text fst snd app].
  rewrite TP. cbn [fst snd]. rewrite ET.
  destruct Q as (Q1 & Q2 & Q3). repeat split; auto. discriminate.
Qed.

End MainEntries.


(* ================================================================= *)
(** * A run that comes to its end *)

Section Finished.

Variables (srv : Server) (env : Env) (user : str).

Lemma config_names_distinct (pn cn : str) :
  assoc user USERS_CONFIG = Some (pn, cn) -> pn <> cn.
Proof.
  unfold USERS_CONFIG. cbn [assoc].
  repeat match goal with
         | |- context [str_eqb user ?x] => destruct (str_eqb user x)
         end;
    intros [= <- <-]; discriminate.
Qed.

Lemma config_paths_distinct (pn cn : str) :
  assoc user USERS_CONFIG = Some (pn, cn) ->
  path_join (BASE_DIR env) pn <> path_join (BASE_DIR env) cn.
Proof.
  intros A E. apply (config_names_distinct A).
  unfold path_join in E. apply app_inv_head in E. apply app_inv_head in E.
  exact E.
Qed.

Lemma apply_events_app (e1 e2 : list Event) (f : FS) :
  apply_events (e1 ++ e2) f = apply_events e2 (apply_events e1 f).
Proof. unfold apply_events. apply fold_left_app. Qed.

Lemma rewrite_events_touch (d : Locals) (q : str) :
  q <> PENDING_FILE_PATH d ->
  Forall (fun e => touches q e = false) (rewrite_events user d).
Proof.
  intros H. unfold rewrite_events. apply Forall_app.
  split; apply write_file_events_touch; exact H.
Qed.

(** What a run that comes to the end of its loop does afterwards. *)
Lemma main_finished (w w1 : World) (d : Locals) :
  main_entries srv env user w = (Ok (Some d), w1) ->
  exists qevs w',
    main srv env user w = (Ok tt, w')
    /\ Forall (fun e => event_path e = None) qevs
    /\ events w'
       = events w1
         ++ committed_events (COMMITTED_FILE_PATH d) (all_committed_entries_text d)
         ++ qevs ++ rewrite_events user d
    /\ fs w' (PENDING_FILE_PATH d)
       = Some (second_rewrite_content (template_section d) (retained d))
    /\ (forall q, q <> PENDING_FILE_PATH d ->
          fs w' q
          = apply_events
              (committed_events (COMMITTED_FILE_PATH d)
                 (all_committed_entries_text d)) (fs w1) q).
Proof.
  intros H. rewrite main_unfold, H.
  destruct (write_logs_run user d w1) as (w2 & (Qf & (qevs & Qe & Qa) & _) & R).
  exists qevs. eexists. split; [exact R|]. split; [exact Qa|].
  fold (rewrite_events user d). unfold after_events in *.
  cbn [events fs] in *.
  split; [|split].
  - rewrite Qe. rewrite <- !app_assoc. reflexivity.
  - unfold rewrite_events. rewrite apply_events_app.
    apply apply_write_file_same.
  - intros q Hq. rewrite apply_events_other by (apply rewrite_events_touch; exact Hq).
    rewrite Qf. reflexivity.
Qed.




End Finished.


(* ================================================================= *)
(** * The claims about the logs *)

Section Logs.

Variables (srv : Server) (env : Env) (user : str).

Lemma assoc_same (pn cn pn' cn' : str) :
  assoc user USERS_CONFIG = Some (pn, cn) ->
  assoc user USERS_CONFIG = Some (pn', cn') -> pn' = pn /\ cn' = cn.
Proof. intros A B. rewrite A in B. injection B as <- <-. auto. Qed.





(** C10.  The committed log is left alone, neither opened nor written,
    by every run that creates no record; a run that creates records appends
    each of them, followed by a newline, to what the log held. *)
Theorem committed_log_frame (w : World) (pn cn : str) :
  assoc user USERS_CONFIG = Some (pn, cn) ->
  let committed := path_join (BASE_DIR env) cn in
  let w' := snd (main srv env user w) in
  let records := committed_records srv env user w in
  (records = [] ->
     fs w' committed = fs w committed
     /\ Forall (fun e => touches committed e = false) (new_events w w'))
  /\ (records <> [] ->
        fs w' committed
        = Some (content_or_empty (fs w) committed
                ++ concat (map (fun r => r ++ [NL]) records))).
Proof.
  intros A committed w' records. unfold w', records, committed_records.
  rewrite main_unfold.
  pose proof (@config_paths_distinct env user pn cn A) as Hd.
  destruct (main_entries srv env user w) as [[[d|]|e] w1] eqn:H.
  - pose proof (main_entries_cases _ _ _ _ H)
      as (pn' & cn' & c' & A' & HP & HC & _ & _ & _ & _ & _ & Q & _).
    destruct (assoc_same A A') as [-> ->].
    destruct (main_finished _ _ _ _ H) as (qevs & w2 & R & Qa & Ev & _ & Fo).
    rewrite main_unfold, H in R. rewrite R. cbn [snd].
    assert (Hc : committed <> PENDING_FILE_PATH d)
      by (rewrite HP; unfold committed; congruence).
    rewrite (Fo _ Hc), HC. fold committed.
    destruct Q as (Qf & (evs0 & Qe & Qa0) & _). rewrite Qf.
    split.
    + intros E. rewrite E. split; [reflexivity|].
      rewrite (@new_events_app w w2 (evs0 ++ qevs ++ rewrite_events user d)).
      * apply Forall_app. split; [apply quiet_events_touch; exact Qa0|].
        apply Forall_app. split; [apply quiet_events_touch; exact Qa|].
        apply rewrite_events_touch. exact Hc.
      * rewrite Ev, Qe, E. cbn [committed_events app].
        rewrite <- app_assoc. reflexivity.
    + intros Hne. rewrite apply_committed_same by exact Hne. reflexivity.
  - cbn [snd]. split; [intros _ | intros C; congruence].
    apply main_entries_cases in H
      as [((Qf & (evs & Qe & Qa) & _) & _) | (pn' & cn' & A' & F' & ->)].
    + rewrite Qf. split; [reflexivity|].
      rewrite (@new_events_app _ _ _ Qe). apply quiet_events_touch. exact Qa.
    + destruct (assoc_same A A') as [-> ->].
      unfold after_events. cbn [fs events]. split.
      * apply apply_events_other. apply write_file_events_touch.
        unfold committed. congruence.
      * unfold new_events. cbn [events]. rewrite skipn_app_length.
        apply write_file_events_touch. unfold committed. congruence.
  - cbn [snd]. split; [intros _ | intros C; congruence].
    apply main_entries_cases in H as ((Qf & (evs & Qe & Qa) & _) & _).
    rewrite Qf. split; [reflexivity|].
    rewrite (@new_events_app _ _ _ Qe). apply quiet_events_touch. exact Qa.
Qed.

End Logs.

Lemma committed_log_frame_witness :
  (committed_records ex_srv ex_env (L "Amy") ex_world_decline = [] ->
   fs (snd (main ex_srv ex_env (L "Amy") ex_world_decline)) ex_committed
   = fs ex_world_decline ex_committed
   /\ Forall (fun e => touches ex_committed e = false)
        (new_events ex_world_decline
           (snd (main ex_srv ex_env (L "Amy") ex_world_decline))))
  /\ (committed_records ex_srv ex_env (L "Amy") ex_world_decline <> [] ->
      fs (snd (main ex_srv ex_env (L "Amy") ex_world_decline)) ex_committed
      = Some (content_or_empty (fs ex_world_decline) ex_committed
              ++ concat (map (fun r => r ++ [NL])
                           (committed_records ex_srv ex_env (L "Amy")
                              ex_world_decline)))).
Proof.
  apply (@committed_log_frame ex_srv ex_env (L "Amy") ex_world_decline
           (L "PENDING_AMY_CHANGELOG.md") (L "COMMITTED_AMY_CHANGELOG.md")).
  vm_compute. reflexivity.
Defined.


(* ================================================================= *)
(** * The two rewrites of the pending log *)

Section Rewrites.






Lemma concat_firstn_prefix (k : nat) (ws : list str) :
  prefix (concat (firstn k ws)) (concat ws).
Proof.
  exists (concat (skipn k ws)). rewrite <- concat_app, firstn_skipn.
  reflexivity.
Qed.

Lemma write_file_events_length (p : str) (ws : list str) :
  length (write_file_events p ws) = S (length ws).
Proof. unfold write_file_events. cbn [length]. rewrite length_map. reflexivity. Qed.

Variables (srv : Server) (env : Env) (user : str).


(** C1 (amended).  The pending log is rewritten in place: the operations
    of the two rewrites are the last of the run, each of them works on the
    pending log itself, and the first one truncates it.  After any number of
    them the pending log holds a beginning, possibly empty, of what the
    first or the second rewrite writes, and after all of them what the
    second rewrite writes. *)
Theorem rewrite_in_place (w w1 : World) (d : Locals) :
  main_entries srv env user w = (Ok (Some d), w1) ->
  let path := PENDING_FILE_PATH d in
  let ops := rewrite_events user d in
  (exists before, events (snd (main srv env user w)) = before ++ ops)
  /\ Forall (fun e => touches path e = true) ops
  /\ hd_error ops = Some (EvOpenW path)
  /\ (forall (f : FS) (k : nat), 0 < k ->
        exists text,
          apply_events (firstn k ops) f path = Some text
          /\ (prefix text (first_rewrite_content user (template_section d) (retained d))
              \/ prefix text (second_rewrite_content (template_section d) (retained d))))
  /\ (forall f : FS,
        apply_events ops f path
        = Some (second_rewrite_content (template_section d) (retained d))).
Proof.
  intros H path ops.
  destruct (main_finished _ _ _ _ H) as (qevs & w2 & R & _ & Ev & _ & _).
  rewrite R. cbn [snd].
  split; [|split; [|split; [|split]]].
  - eexists. rewrite Ev. fold ops. rewrite !app_assoc. reflexivity.
  - unfold ops, rewrite_events. apply Forall_app.
    split; apply write_file_events_on.
  - reflexivity.
  - intros f k Hk. unfold ops, rewrite_events.
    set (ws1 := first_rewrite_writes user (template_section d) (retained d)).
    set (ws2 := second_rewrite_writes (template_section d) (retained d)).
    rewrite firstn_app, write_file_events_length.
    destruct (Nat.le_gt_cases k (S (length ws1))) as [Hle | Hgt].
    + replace (k - S (length ws1)) with 0 by lia. cbn [firstn].
      rewrite app_nil_r. destruct k as [|k]; [lia|].
      rewrite apply_write_file_prefix. eexists. split; [reflexivity|].
      left. apply concat_firstn_prefix.
    + rewrite firstn_all2 by (rewrite write_file_events_length; lia).
      rewrite apply_events_app.
      destruct (k - S (length ws1)) as [|m] eqn:Em; [lia|].
      rewrite apply_write_file_prefix. eexists. split; [reflexivity|].
      right. apply concat_firstn_prefix.
  - intros f. unfold ops, rewrite_events. rewrite apply_events_app.
    apply apply_write_file_same.
Qed.

End Rewrites.



(** C1, as it is stated, fails: after the first operation of the rewrite
    the pending log is empty, which is neither what it held before the run
    nor what it holds after it. *)
Lemma crash_counterexample :
  let w' := snd (main ex_srv ex_env (L "Amy") ex_world) in
  let crashed := apply_events (firstn 14 (new_events ex_world w')) (fs ex_world) in
  crashed ex_pending = Some []
  /\ crashed ex_pending <> fs ex_world ex_pending
  /\ crashed ex_pending <> fs w' ex_pending.
Proof.
  vm_compute. split; [reflexivity|]. split; discriminate.
Qed.

Lemma rewrite_in_place_witness :
  hd_error
    (rewrite_events (L "Amy")
       {| PENDING_FILE_PATH := ex_pending;
          COMMITTED_FILE_PATH := ex_committed;
          template_section := ex_template;
          pending_entry_texts := [ex_entry1; ex_entry2];
          processed_successfully_texts := [Some ex_entry1; None];
          all_committed_entries_text :=
            committed_records ex_srv ex_env (L "Amy") ex_world |})
  = Some (EvOpenW ex_pending).
Proof.
  refine (proj1 (proj2 (proj2
    (@rewrite_in_place ex_srv ex_env (L "Amy") ex_world
       (snd (main_entries ex_srv ex_env (L "Amy") ex_world)) _ _)))).
  vm_compute. reflexivity.
Defined.


(* ================================================================= *)
(** * Runs in which the operator declines every entry *)

Section Declined.

Variables (srv : Server) (env : Env).

Abbreviation declining := (Forall (fun l => declines (L "yes") l = true)).








End Declined.

Section Rerun.

Abbreviation declining := (Forall (fun l => declines (L "yes") l = true)).






End Rerun.



(* ================================================================= *)
(** * The fate of one entry *)




Section Loop.

Variables (srv : Server) (env : Env).


(** The loop of a run that comes to its end: it starts after the question
    about the reporter, with nothing committed. *)
Lemma main_entries_loop (user : str) (w w1 : World) (d : Locals) :
  main_entries srv env user w = (Ok (Some d), w1) ->
  entries_loop srv env (reporter_of env w) (pending_entry_texts d) ([], [])
    (loop_start env w)
  = (Ok (processed_successfully_texts d, all_committed_entries_text d), w1)
  /\ Forall (fun e => truthy (strip e) = true) (pending_entry_texts d).
Proof.
  unfold main_entries. intros H.
  destruct (assoc user USERS_CONFIG) as [[pn cn]|] eqn:A.
  2:{ unfold bind, log, ret in H. discriminate. }
  unfold bind at 1 in H. unfold path_exists in H.
  destruct (fs w (path_join (BASE_DIR env) pn)) as [content|] eqn:F;
    cbn [negb] in H.
  2:{ unfold bind in H. rewrite write_file_run in H. unfold ret in H.
      discriminate. }
  unfold bind at 1 in H. unfold try_except at 1 in H.
  unfold bind at 1 in H. unfold read_file at 1 in H. rewrite F in H.
  unfold ret at 1 in H. cbv iota beta in H.
  unfold bind at 1 in H. unfold try_except at 1 in H.
  unfold bind at 1 in H. unfold read_file at 1 in H. rewrite F in H.
  unfold ret at 1 in H. cbv iota beta in H.
  destruct (template_partition (universal_newlines content)) as [t pc] eqn:TP.
  destruct (entry_texts pc) as [|e0 es0] eqn:ET.
  { unfold ret in H. discriminate. }
  destruct (truthy_opt (dict_get (environ env) (L "Jira"))) eqn:TK.
  2:{ unfold bind, log, ret in H. discriminate. }
  unfold reporter_of, loop_start. fold (reporter_prompt env) in H.
  unfold bind at 1 in H.
  destruct (input (reporter_prompt env) w) as [[line|x] w2]; [|discriminate].
  cbn [fst snd]. bind_inv H as st w3 E.
  unfold ret in H. injection H as <- <-.
  cbn [pending_entry_texts processed_successfully_texts
       all_committed_entries_text].
  rewrite E. destruct st. split; [reflexivity|].
  rewrite <- ET. apply entry_texts_nonblank.
Qed.


End Loop.

Section Round.

Variables (srv : Server) (env : Env) (u : UserDetails).



(** [create_jira_issue] and [transition_jira_issue] never raise. *)
Lemma create_jira_issue_total (p s t b r a : str) (k : option str) (it : str)
    (w : World) :
  exists key, fst (create_jira_issue srv p s t b r a k it w) = Ok key.
Proof.
  unfold create_jira_issue, try_except, bind, connect, create_issue, ret.
  destruct (srv_connect srv (events w)); cbn [fst snd].
  - match goal with
    | |- context [srv_create_issue srv ?ev ?d] =>
        destruct (srv_create_issue srv ev d)
    end; eexists; reflexivity.
  - eexists; reflexivity.
Qed.

Lemma transition_jira_issue_total (k t : str) (w : World) :
  exists ok, fst (transition_jira_issue srv k t w) = Ok ok.
Proof.
  unfold transition_jira_issue, try_except, bind, connect, transitions, ret.
  destruct (srv_connect srv (events w)); cbn [fst snd]; [|eexists; reflexivity].
  match goal with
  | |- context [srv_transitions srv ?ev ?d] => destruct (srv_transitions srv ev d)
  end; [|eexists; reflexivity].
  destruct (first_matching_transition t l) as [tid|]; [|eexists; reflexivity].
  destruct (truthy tid); [|eexists; reflexivity].
  unfold transition_issue.
  match goal with
  | |- context [srv_transition_issue srv ?ev ?a ?b] =>
      destruct (srv_transition_issue srv ev a b)
  end; eexists; reflexivity.
Qed.

End Round.

(* ================================================================= *)
(** * An entry whose issue cannot be created *)

Section CreationFailure.

Variables (srv : Server) (env : Env) (user : str).


End CreationFailure.





(* ================================================================= *)
(** * An issue that cannot be moved to its final status *)

(** [sub in s] *)
Lemma contains_substr (s sub : str) : contains s sub = true <-> substr sub s.
Proof.
  unfold contains. destruct (find s sub) as [i|] eqn:F.
  - split; [intros _ | reflexivity].
    apply find_Some in F as (F & _). apply startswith_true in F as [r Hr].
    exists (firstn i s), r. rewrite <- Hr. symmetry. apply firstn_skipn.
  - split; [discriminate|]. intros Y. apply find_None_substr in F. contradiction.
Qed.


Lemma first_matching_transition_None (target : str) (ts : list (str * str)) :
  first_matching_transition target ts = None
  <-> Forall (fun t => ~ substr (lower target) (lower (snd t))) ts.
Proof.
  induction ts as [|[i n] ts IH]; cbn [first_matching_transition].
  - split; [constructor | reflexivity].
  - destruct (contains (lower n) (lower target)) eqn:C.
    + split; [discriminate|]. intros F. inversion F as [|? ? N _]; subst.
      exfalso. apply N. apply contains_substr. exact C.
    + rewrite IH. split.
      * intros F. constructor; [|exact F]. cbn [snd]. intros Y.
        apply contains_substr in Y. congruence.
      * intros F. inversion F; assumption.
Qed.

Section Transition.

Variable srv : Server.


End Transition.



Section CommittedSlot.

Variables (srv : Server) (env : Env).



End CommittedSlot.

Lemma substr_skip (a s t : str) : substr s t -> substr s (a ++ t).
Proof. intros H. eapply substr_trans; [exact H | apply substr_app_r]. Qed.

Lemma prefix_skip (a s t : str) : prefix s t -> prefix (a ++ s) (a ++ t).
Proof. intros [v ->]. exists v. rewrite app_assoc. reflexivity. Qed.

Lemma prefix_substr (s t : str) : prefix s t -> substr s t.
Proof. intros [v ->]. apply substr_app_l. Qed.


Section TransitionFailure.

Variables (srv : Server) (env : Env) (user : str).


End TransitionFailure.



(* ================================================================= *)
(** * The duplicate check *)


Section Stories.

Variable srv : Server.

(** [get_stories_in_epic] connects and sends one query, for the Stories of
    the Epic; it never raises. *)
Lemma get_stories_in_epic_run (p ek : str) (w : World) :
  exists existing,
    fst (get_stories_in_epic srv p ek w) = Ok existing
    /\ stdin (snd (get_stories_in_epic srv p ek w)) = stdin w
    /\ fs (snd (get_stories_in_epic srv p ek w)) = fs w
    /\ (events (snd (get_stories_in_epic srv p ek w))
        = events w ++ [EvConnect false]
        \/ exists r,
             events (snd (get_stories_in_epic srv p ek w))
             = events w ++ [EvConnect true; EvSearchIssues (stories_jql p ek) r]).
Proof.
  unfold get_stories_in_epic, try_except, bind, connect, search_issues, ret.
  fold (stories_jql p ek).
  destruct (srv_connect srv (events w)); cbn [fst snd emit events stdin fs].
  - destruct (srv_search_issues srv (events w ++ [EvConnect true])
                (stories_jql p ek)) as [l|] eqn:S;
      cbn [fst snd emit events stdin fs]; eexists;
      (split; [reflexivity|]); (split; [reflexivity|]); (split; [reflexivity|]);
      right; eexists; rewrite <- app_assoc; reflexivity.
  - eexists. repeat split. left. reflexivity.
Qed.



End Stories.

Section DuplicateGate.

Variables (srv : Server) (env : Env) (user : str).


End DuplicateGate.




(* ================================================================= *)
(** * The issue type sent to the tracker *)

Section IssueType.

Variable srv : Server.

(** The fields that [create_jira_issue] sends name its last parameter as
    the issue type, whatever [issue_type_name] is. *)
Lemma create_jira_issue_events (p s t b r a : str) (k : option str) (it : str)
    (w : World) :
  exists evs,
    events (snd (create_jira_issue srv p s t b r a k it w)) = events w ++ evs
    /\ forall fields res,
         In (EvCreateIssue fields res) evs ->
         dict_get fields (L "issuetype") = Some (VName it).
Proof.
  unfold create_jira_issue, try_except, bind, connect, create_issue, ret.
  destruct (srv_connect srv (events w)); cbn [fst snd emit events].
  - match goal with
    | |- context [srv_create_issue srv ?ev ?d] =>
        destruct (srv_create_issue srv ev d) as [key|]
    end; cbn [fst snd emit events]; rewrite <- app_assoc; cbn [app];
      eexists; (split; [reflexivity|]); intros fields res [H | [H | []]];
      try discriminate; injection H as <- _;
      destruct k as [ek|]; try destruct (truthy ek); reflexivity.
  - eexists. split; [reflexivity|]. intros fields res [H | []]. discriminate.
Qed.

Lemma transition_jira_issue_events (k t : str) (w : World) :
  exists evs,
    events (snd (transition_jira_issue srv k t w)) = events w ++ evs
    /\ forall fields res, ~ In (EvCreateIssue fields res) evs.
Proof.
  unfold transition_jira_issue, try_except, bind, connect, transitions,
    transition_issue, ret.
  destruct (srv_connect srv (events w)); cbn [fst snd emit events].
  2:{ eexists. split; [reflexivity|]. intros f r [H | []]. discriminate. }
  destruct (srv_transitions srv (events w ++ [EvConnect true]) k) as [ts|];
    cbn [fst snd emit events].
  2:{ rewrite <- app_assoc. eexists. split; [reflexivity|].
      intros f r [H | [H | []]]; discriminate. }
  destruct (first_matching_transition t ts) as [tid|].
  2:{ cbn [fst snd emit events]. rewrite <- app_assoc. eexists.
      split; [reflexivity|]. intros f r [H | [H | []]]; discriminate. }
  destruct (truthy tid).
  2:{ cbn [fst snd emit events]. rewrite <- app_assoc. eexists.
      split; [reflexivity|]. intros f r [H | [H | []]]; discriminate. }
  cbn [emit events].
  match goal with
  | |- context [srv_transition_issue srv ?ev ?a ?b] =>
      destruct (srv_transition_issue srv ev a b)
  end; cbn [fst snd emit events]; rewrite <- !app_assoc; cbn [app];
    eexists; (split; [reflexivity|]);
    intros f r [H | [H | [H | []]]]; discriminate.
Qed.

(** C6.  The issue type that reaches the tracker is not the one worked out
    for the entry: whatever issue type [create_and_transition] is given,
    [Bug] included, every issue it asks the tracker to create has the type
    [Story], while the record it returns for the committed log names the
    type it was given. *)
Theorem issue_type_not_sent (r : str) (k : option str) (n t s d a : str)
    (w : World) :
  let w' := snd (create_and_transition srv r k n t s d a w) in
  (forall fields res,
     In (EvCreateIssue fields res) (new_events w w') ->
     dict_get fields (L "issuetype") = Some (VName (L "Story")))
  /\ (forall record,
        fst (create_and_transition srv r k n t s d a w) = Ok (true, Some record) ->
        exists key status,
          substr (L "### " ++ t ++ L ": " ++ key ++ L " - " ++ s
                  ++ L " (Status: " ++ status ++ L ")" ++ [NL]) record).
Proof.
  intros w'. split.
  - subst w'. unfold create_and_transition. unfold bind at 1.
    match goal with
    | |- context [create_jira_issue srv ?p ?s' ?t' ?b ?r1 ?a1 ?k1 ?it] =>
        destruct (create_jira_issue_events p s' t' b r1 a1 k1 it w)
          as (evs1 & E1 & C1);
        destruct (create_jira_issue srv p s' t' b r1 a1 k1 it w) as [[key|x] w1]
    end; cbn [snd] in E1.
    2:{ cbn [snd]. rewrite (@new_events_app _ _ _ E1). exact C1. }
    assert (Hlog : forall l m fields res,
              In (EvCreateIssue fields res) (new_events w (emit (EvLog l m) w1)) ->
              dict_get fields (L "issuetype") = Some (VName (L "Story"))).
    { intros l m fields res H.
      rewrite (@new_events_app w (emit (EvLog l m) w1) (evs1 ++ [EvLog l m])) in H.
      - apply in_app_or in H as [H | [H | []]]; [eapply C1; exact H | discriminate].
      - cbn [emit events]. rewrite E1, <- app_assoc. reflexivity. }
    destruct key as [key|]; [destruct (truthy key)|].
    + unfold bind at 1.
      destruct (transition_jira_issue_events key (L "Done") w1) as (evs2 & E2 & C2).
      destruct (transition_jira_issue srv key (L "Done") w1) as [[ok|x] w2];
        cbn [snd] in E2.
      * assert (E : forall l, events w2 ++ l = events w ++ evs1 ++ evs2 ++ l)
          by (intros l; rewrite E2, E1, <- !app_assoc; reflexivity).
        destruct ok; unfold bind, log, ret; cbn [snd emit events];
          intros fields res H.
        -- rewrite (@new_events_app w w2 (evs1 ++ evs2)) in H
             by (rewrite <- (app_nil_r (events w2)), E, app_nil_r; reflexivity).
           apply in_app_or in H as [H | H]; [eapply C1; exact H|].
           exfalso. eapply C2; exact H.
        -- match type of H with
           | In _ (new_events w ?x) =>
               rewrite (@new_events_app w x (evs1 ++ evs2 ++ [EvLog WARNING
                 (L "Failed to automatically transition " ++ t
                  ++ L " " ++ key ++ L " to '" ++ L "Done"
                  ++ L "'. It may need manual transition in Jira.")])) in H
                 by (cbn [events]; apply E)
           end.
           apply in_app_or in H as [H | H]; [eapply C1; exact H|].
           apply in_app_or in H as [H | [H | []]]; [|discriminate].
           exfalso. eapply C2; exact H.
      * cbn [snd]. intros fields res H.
        rewrite (@new_events_app w w2 (evs1 ++ evs2)) in H
          by (rewrite E2, E1, <- app_assoc; reflexivity).
        apply in_app_or in H as [H | H]; [eapply C1; exact H|].
        exfalso. eapply C2; exact H.
    + unfold bind, log, ret. cbn [snd]. apply Hlog.
    + unfold bind, log, ret. cbn [snd]. apply Hlog.
  - intros record H.
    destruct (create_and_transition srv r k n t s d a w) as [res w2] eqn:E.
    cbn [fst] in H. subst res.
    apply create_and_transition_result in E
      as [(_ & i & st & [= ->]) | (Hf & _)]; [|discriminate].
    exists i, st. unfold committed_entry_str.
    do 7 apply substr_skip. apply prefix_substr.
    do 9 apply prefix_skip. eexists. reflexivity.
Qed.

End IssueType.


(** The first entry of the sample log, of type [bug]: its record says
    [Bug], the issue asked of the tracker is a [Story]. *)
Lemma issue_type_not_sent_witness :
  let w' :=
    snd (create_and_transition ex_srv (L "amy") None NA (L "Bug")
           (L "Add CSV export") (L "As a user I want to export.")
           (L "- a file is produced") ex_loop_world) in
  (exists fields res,
     In (EvCreateIssue fields res) (new_events ex_loop_world w')
     /\ dict_get fields (L "issuetype") = Some (VName (L "Story")))
  /\ exists key status,
       substr (L "### " ++ L "Bug" ++ L ": " ++ key ++ L " - "
               ++ L "Add CSV export"
               ++ L " (Status: " ++ status ++ L ")" ++ [NL])
         (committed_entry_str NA None (L "Bug") (L "ROIA-7")
            (L "Add CSV export") (L "Done") (L "As a user I want to export.")
            (L "- a file is produced")).
Proof.
  intros w'.
  destruct (@issue_type_not_sent ex_srv (L "amy") None NA (L "Bug")
              (L "Add CSV export") (L "As a user I want to export.")
              (L "- a file is produced") ex_loop_world) as [A B].
  split.
  - eexists _, _. split.
    + cbv. right. left. reflexivity.
    + eapply A. cbv. right. left. reflexivity.
  - apply B. vm_compute. reflexivity.
Defined.


(* ================================================================= *)
(** * The loops that wait for a valid answer *)

Section Rounds.

Variable A : Type.
Variable body : M (option A).

(** The body reads a line whenever it asks for another round. *)
Hypothesis body_reads :
  forall w w', body w = (Ok None, w') -> length (stdin w') < length (stdin w).

Lemma while_true_rounds (n m : nat) (w : World) :
  length (stdin w) <= n -> length (stdin w) <= m ->
  while_true n body w = while_true m body w.
Proof.
  revert m w. induction n as [|n IH]; intros m w Hn Hm.
  - destruct m as [|m]; [reflexivity|]. cbn [while_true].
    destruct (body w) as [[[a|]|x] w'] eqn:B; try reflexivity.
    apply body_reads in B. lia.
  - cbn [while_true]. destruct (body w) as [[[a|]|x] w'] eqn:B.
    + destruct m; cbn [while_true]; rewrite B; reflexivity.
    + pose proof (body_reads B) as Hlt. destruct m as [|m]; [lia|].
      cbn [while_true]. rewrite B. apply IH; lia.
    + destruct m; cbn [while_true]; rewrite B; reflexivity.
Qed.

End Rounds.

(** [while_input] gives its loop enough rounds: more change nothing. *)
Lemma while_input_fuel (A : Type) (body : M (option A)) (n : nat) (w : World) :
  (forall w w', body w = (Ok None, w') -> length (stdin w') < length (stdin w)) ->
  length (stdin w) <= n ->
  while_true n body w = while_input body w.
Proof.
  intros Hb Hn. unfold while_input. apply while_true_rounds; [exact Hb | lia | lia].
Qed.

Lemma get_user_input_reads (p : str) (d : option str) (w w' : World) (a : str) :
  get_user_input p d w = (Ok a, w') -> length (stdin w) = S (length (stdin w')).
Proof.
  unfold get_user_input, bind, input.
  destruct d as [d|]; destruct (stdin w) as [|l rest]; try discriminate;
    cbv beta iota zeta.
  - destruct (str_eqb (lower (strip l)) (L "confirm")); unfold ret;
      intros [= _ <-]; reflexivity.
  - unfold ret. intros [= _ <-]. reflexivity.
Qed.

Lemma select_fix_versions_round_reads (av : list (str * str)) (w w' : World) :
  select_fix_versions_round av w = (Ok None, w') ->
  length (stdin w') < length (stdin w).
Proof.
  unfold select_fix_versions_round. intros H. bind_inv H as s w1 E.
  apply get_user_input_reads in E.
  assert (w' = w1); [|subst; lia].
  destruct (negb (truthy (lower s)) || str_eqb (lower s) (L "none"));
    [unfold ret in H; discriminate|].
  destruct (selected_indices (split (lower s) (L ","))) as [ix|];
    [destruct (selected_versions_names av ix)|];
    unfold ret in H; congruence.
Qed.

Lemma choose_epic_round_reads (srv : Server) (env : Env) (r : str)
    (epics : list (str * str)) (w w' : World) :
  choose_epic_round srv env r epics w = (Ok None, w') ->
  length (stdin w') < length (stdin w).
Proof.
  unfold choose_epic_round. intros H. bind_inv H as c w1 E.
  apply get_user_input_reads in E.
  destruct (str_eqb (upper c) (L "N")).
  { bind_inv H as x w2 E2. unfold ret in H. discriminate. }
  assert (w' = w1); [|subst; lia].
  destruct (str_eqb (lower (upper c)) (L "none")); [unfold ret in H; discriminate|].
  destruct (py_int (upper c)) as [n|]; [|unfold ret in H; congruence].
  cbv zeta in H.
  destruct ((0 <=? n - 1)%Z && (n - 1 <? Z.of_nat (length epics))%Z);
    [|unfold ret in H; congruence].
  destruct (nth_error epics (Z.to_nat (n - 1))); unfold ret in H; congruence.
Qed.

(** The two loops of the script with any number of rounds to spare. *)
Lemma select_fix_versions_fuel (av : list (str * str)) (n : nat) (w : World) :
  length (stdin w) <= n ->
  while_true n (select_fix_versions_round av) w = select_fix_versions av w.
Proof.
  intros Hn. apply (while_input_fuel (select_fix_versions_round av) w);
    [apply select_fix_versions_round_reads | exact Hn].
Qed.

Lemma choose_epic_fuel (srv : Server) (env : Env) (r : str)
    (epics : list (str * str)) (n : nat) (w : World) :
  length (stdin w) <= n ->
  while_true n (choose_epic_round srv env r epics) w = choose_epic srv env r epics w.
Proof.
  intros Hn. apply (while_input_fuel (choose_epic_round srv env r epics) w);
    [apply choose_epic_round_reads | exact Hn].
Qed.


(* ================================================================= *)
(** * Runs that end before the logs are written *)

Section EarlyEnd.

Variables (srv : Server) (env : Env) (user : str).




End EarlyEnd.





(* ================================================================= *)
(** * What can interrupt a run *)

Section AtEof.

Lemma at_eof_ret (A : Type) (a : A) : at_eof (ret a).
Proof. intros w e w' H. discriminate. Qed.

Lemma at_eof_log (l : Level) (m : str) : at_eof (log l m).
Proof. intros w e w' H. discriminate. Qed.

Lemma at_eof_input (p : str) : at_eof (input p).
Proof.
  intros w e w' H. unfold input in H. destruct (stdin w) as [|l r] eqn:S.
  - injection H as <- <-. split; [reflexivity | exact S].
  - discriminate.
Qed.

Lemma at_eof_bind (A B : Type) (m : M A) (k : A -> M B) :
  at_eof m -> (forall a, at_eof (k a)) -> at_eof (bind m k).
Proof.
  intros Hm Hk w e w' H. unfold bind in H.
  destruct (m w) as [[a|x] w1] eqn:E.
  - eapply Hk; exact H.
  - injection H as <- <-. eapply Hm; exact E.
Qed.

(** A handler that deals with everything. *)
Lemma at_eof_try_except (A : Type) (m : M A) (h : exn -> M A) :
  (forall x, at_eof (h x)) -> at_eof (try_except m h).
Proof.
  intros Hh w e w' H. unfold try_except in H.
  destruct (m w) as [[a|x] w1] eqn:E; [discriminate|].
  eapply Hh; exact H.
Qed.

(** A handler for the end of the input alone. *)
Lemma at_eof_try_except_eof (A : Type) (m : M A) (h : exn -> M A) :
  at_eof m -> at_eof (h EOFError) -> at_eof (try_except m h).
Proof.
  intros Hm Hh w e w' H. unfold try_except in H.
  destruct (m w) as [[a|x] w1] eqn:E; [discriminate|].
  destruct (Hm _ _ _ E) as [-> _]. eapply Hh; exact H.
Qed.

Lemma at_eof_while_true (A : Type) (body : M (option A)) (n : nat) (w : World)
    (e : exn) (w' : World) :
  at_eof body -> reads_on_retry body ->
  length (stdin w) <= n ->
  while_true n body w = (Raise e, w') -> e = EOFError /\ stdin w' = [].
Proof.
  intros Hb Hr. revert w. induction n as [|n IH]; intros w Hn H;
    cbn [while_true] in H; destruct (body w) as [[[a|]|x] w1] eqn:E;
    try discriminate.
  - apply Hr in E. lia.
  - injection H as <- <-. eapply Hb; exact E.
  - apply IH in H; [exact H|]. apply Hr in E. lia.
  - injection H as <- <-. eapply Hb; exact E.
Qed.

Lemma at_eof_while_input (A : Type) (body : M (option A)) :
  at_eof body -> reads_on_retry body -> at_eof (while_input body).
Proof.
  intros Hb Hr w e w' H. unfold while_input in H.
  eapply at_eof_while_true; [exact Hb | exact Hr | | exact H]. lia.
Qed.

Lemma at_eof_fs_op (ev : Event) : at_eof (fs_op ev).
Proof. intros w e w' H. discriminate. Qed.

Lemma at_eof_for_each (A : Type) (l : list A) (body : A -> M unit) :
  (forall a, at_eof (body a)) -> at_eof (for_each l body).
Proof.
  intros Hb. induction l as [|x l IH]; cbn [for_each].
  - apply at_eof_ret.
  - apply at_eof_bind; [apply Hb | intros _; exact IH].
Qed.

End AtEof.

Create HintDb at_eof.

#[local] Hint Resolve at_eof_ret at_eof_log at_eof_input at_eof_fs_op : at_eof.

Ltac at_eof_steps :=
  repeat first
    [ progress eauto with at_eof
    | apply at_eof_bind; [|intros]
    | apply at_eof_try_except; intros
    | apply at_eof_for_each; intros
    | match goal with
      | |- at_eof (if ?b then _ else _) => destruct b
      | |- at_eof (match ?x with _ => _ end) => destruct x
      | |- at_eof (let '(_, _) := ?x in _) => destruct x
      end ].

Section AtEofRun.

Variables (srv : Server) (env : Env).

Lemma at_eof_get_user_input (p : str) (d : option str) :
  at_eof (get_user_input p d).
Proof. unfold get_user_input. at_eof_steps. Qed.

Lemma at_eof_get_project_epics (k : str) : at_eof (get_project_epics srv k).
Proof. unfold get_project_epics. at_eof_steps. Qed.

Lemma at_eof_get_stories_in_epic (k e : str) :
  at_eof (get_stories_in_epic srv k e).
Proof. unfold get_stories_in_epic. at_eof_steps. Qed.

Lemma at_eof_get_project_versions (k : str) :
  at_eof (get_project_versions srv k).
Proof. unfold get_project_versions. at_eof_steps. Qed.

Lemma at_eof_create_jira_issue (a b c d e f : str) (g : option str) (h : str) :
  at_eof (create_jira_issue srv a b c d e f g h).
Proof. unfold create_jira_issue. at_eof_steps. Qed.

Lemma at_eof_create_jira_epic (a b c d : str) (e : option str)
    (f g : option (list str)) :
  at_eof (create_jira_epic srv env a b c d e f g).
Proof. unfold create_jira_epic. at_eof_steps. Qed.

Lemma at_eof_transition_jira_issue (k t : str) :
  at_eof (transition_jira_issue srv k t).
Proof. unfold transition_jira_issue. at_eof_steps. Qed.

Hint Resolve at_eof_get_user_input at_eof_get_project_epics
  at_eof_get_stories_in_epic at_eof_get_project_versions
  at_eof_create_jira_issue at_eof_create_jira_epic
  at_eof_transition_jira_issue : at_eof.

Lemma at_eof_select_fix_versions (vs : list (str * str)) :
  at_eof (select_fix_versions vs).
Proof.
  change (select_fix_versions vs) with (while_input (select_fix_versions_round vs)).
  apply at_eof_while_input.
  - unfold select_fix_versions_round. at_eof_steps.
  - intros w w'. apply select_fix_versions_round_reads.
Qed.

Hint Resolve at_eof_select_fix_versions : at_eof.

Lemma at_eof_create_new_epic (r : str) : at_eof (create_new_epic srv env r).
Proof. unfold create_new_epic. at_eof_steps. Qed.

Lemma at_eof_no_epics_found (r : str) : at_eof (no_epics_found srv env r).
Proof. unfold no_epics_found. at_eof_steps. Qed.

Hint Resolve at_eof_create_new_epic at_eof_no_epics_found : at_eof.

Lemma at_eof_choose_epic (r : str) (epics : list (str * str)) :
  at_eof (choose_epic srv env r epics).
Proof.
  change (choose_epic srv env r epics)
    with (while_input (choose_epic_round srv env r epics)).
  apply at_eof_while_input.
  - unfold choose_epic_round. at_eof_steps.
  - intros w w'. apply choose_epic_round_reads.
Qed.

Hint Resolve at_eof_choose_epic : at_eof.

Lemma at_eof_epic_handling (r : str) : at_eof (epic_handling srv env r).
Proof. unfold epic_handling. at_eof_steps. Qed.

Lemma at_eof_duplicate_check (k : option str) (n s t : str) :
  at_eof (duplicate_check srv k n s t).
Proof. unfold duplicate_check. at_eof_steps. Qed.

Lemma at_eof_create_and_transition (r : str) (k : option str)
    (n t s d a : str) :
  at_eof (create_and_transition srv r k n t s d a).
Proof. unfold create_and_transition. at_eof_steps. Qed.

Hint Resolve at_eof_epic_handling at_eof_duplicate_check
  at_eof_create_and_transition : at_eof.

Lemma at_eof_confirm_and_resolve_epic (d : dict str) (u : UserDetails) :
  at_eof (confirm_and_resolve_epic srv env d u).
Proof. unfold confirm_and_resolve_epic. at_eof_steps. Qed.

Hint Resolve at_eof_confirm_and_resolve_epic : at_eof.

Lemma at_eof_process_single_entry (d : dict str) (u : UserDetails) :
  at_eof (process_single_entry srv env d u).
Proof. unfold process_single_entry. at_eof_steps. Qed.

Lemma at_eof_parse_pending_entry (e : str) : at_eof (parse_pending_entry e).
Proof. unfold parse_pending_entry. at_eof_steps. Qed.

Hint Resolve at_eof_process_single_entry at_eof_parse_pending_entry : at_eof.

Lemma at_eof_process_entry (u : UserDetails) (e : str) (st : loop_state) :
  at_eof (process_entry srv env u e st).
Proof. unfold process_entry. at_eof_steps. Qed.

Hint Resolve at_eof_process_entry : at_eof.

Lemma at_eof_entries_loop (u : UserDetails) (es : list str) (st : loop_state) :
  at_eof (entries_loop srv env u es st).
Proof.
  revert st; induction es as [|e es IH]; intros st; cbn [entries_loop];
    at_eof_steps.
Qed.

Hint Resolve at_eof_entries_loop : at_eof.

Lemma at_eof_main_entries (user : str) : at_eof (main_entries srv env user).
Proof.
  unfold main_entries, write_file, open_w, write, path_exists.
  destruct (assoc user USERS_CONFIG) as [[pn cn]|]; [|at_eof_steps].
  cbv zeta. apply at_eof_bind; [intros w e w' H; discriminate | intros there].
  at_eof_steps.
Qed.

End AtEofRun.

(* ================================================================= *)
(** * The confirmation of an entry *)

(** A question with a default, answered at the console. *)
Lemma get_user_input_run (p d line : str) (rest : list str) (w : World) :
  stdin w = line :: rest ->
  exists a,
    get_user_input p (Some d) w
    = (Ok a,
       {| stdin := rest;
          events := events w
                    ++ [EvInput (p ++ L " (Press Enter to accept: '" ++ d
                                 ++ L "') [" ++ d ++ L "]: ") (Some line)];
          fs := fs w |})
    /\ negb (str_eqb (lower a) (L "yes")) = declines d line
    /\ (a = d \/ (a = strip line /\ a <> [])).
Proof.
  intros Hin. unfold get_user_input, bind, input. rewrite Hin.
  cbv beta iota zeta. unfold declines. cbv zeta.
  destruct (str_eqb (lower (strip line)) (L "confirm")); unfold ret.
  - eexists. split; [reflexivity|]. split; [reflexivity | left; reflexivity].
  - eexists. split; [reflexivity|]. split; [reflexivity|].
    destruct (strip line) as [|c s] eqn:S; cbn [truthy].
    + left. reflexivity.
    + right. split; [reflexivity | discriminate].
Qed.

Section Confirmation.

Variables (srv : Server) (env : Env).

(** The issue type of an entry (lines 141-145): [Story] or [Bug], [Story]
    when the entry names no type, [Bug] when the type it names is [bug] in
    any letter case, and [Story] with a warning, the first thing the
    operator gets to see, for any other type.  The warning names the type
    as [capitalize] gives it, which is the text that Python builds when the
    type starts with none of the three letters whose capital [upper_char]
    does not have ([cased]). *)
Theorem issue_type_coerced (data : dict str) (u : UserDetails) (w : World)
    (issue_type : str) (epic_key : option str) (epic_name : str) :
  fst (confirm_and_resolve_epic srv env data u w)
  = Ok (Some (issue_type, epic_key, epic_name)) ->
  let named := capitalize (dict_get_default data (L "type") (L "Story")) in
  let w' := snd (confirm_and_resolve_epic srv env data u w) in
  (issue_type = L "Story" \/ issue_type = L "Bug")
  /\ (dict_get data (L "type") = None -> issue_type = L "Story")
  /\ (issue_type = L "Bug" <-> named = L "Bug")
  /\ (named <> L "Story" -> named <> L "Bug" ->
      exists msg rest,
        new_events w w' = EvLog WARNING msg :: rest
        /\ ((forall c s, dict_get_default data (L "type") (L "Story") = c :: s ->
                         cased c = true) ->
            msg
            = L "Unsupported issue type '" ++ named ++ L "' found for entry '"
              ++ dict_get_default data (L "draft_summary") (L "No summary provided")
              ++ L "'. Defaulting to 'Story'."))
  /\ (named = L "Story" \/ named = L "Bug" ->
      exists prompt line rest, new_events w w' = EvInput prompt line :: rest).
Proof.
  intros H named w'. subst w'.
  destruct (confirm_and_resolve_epic srv env data u w) as [r w'] eqn:E.
  cbn [fst snd] in *. subst r.
  unfold confirm_and_resolve_epic in E.
  destruct (truthy (dict_get_default data (L "draft_summary")
                      (L "No summary provided"))); cbn [negb] in E.
  2:{ unfold bind, log, ret in E. discriminate. }
  fold named in E.
  bind_inv E as t w1 E1. bind_inv E as a w2 E2.
  assert (Q : exists evs, events w' = events w2 ++ evs).
  { destruct (str_eqb (lower a) (L "skip")); [unfold ret in E; discriminate|].
    destruct (negb (str_eqb (lower a) (L "yes"))); [unfold ret in E; discriminate|].
    bind_inv E as ep w3 E3.
    destruct (quiet_epic_handling srv env (username u) _ E3) as (_ & (evs & Ev & _) & _).
    exists evs. destruct ep as [[k n]|]; unfold ret in E; [|discriminate].
    injection E as _ _ _ <-. exact Ev. }
  assert (T : t = issue_type).
  { destruct (str_eqb (lower a) (L "skip")); [unfold ret in E; discriminate|].
    destruct (negb (str_eqb (lower a) (L "yes"))); [unfold ret in E; discriminate|].
    bind_inv E as ep w3 E3. destruct ep as [[k n]|]; unfold ret in E;
      [|discriminate]. congruence. }
  subst t. destruct Q as [evs Q].
  assert (I : exists p l, events w2 = events w1 ++ [EvInput p l]).
  { unfold get_user_input, bind, input in E2.
    destruct (stdin w1) as [|l r]; [discriminate|]. cbv beta iota zeta in E2.
    destruct (str_eqb (lower (strip l)) (L "confirm")); unfold ret in E2;
      injection E2 as _ <-; eexists _, _; reflexivity. }
  destruct I as (p & l & I).
  unfold supported_issue_type in E1.
  destruct (str_eqb named (L "Story")) eqn:S1; cbn [orb] in E1.
  { apply str_eqb_eq in S1. unfold ret in E1. injection E1 as <- <-.
    split; [left; exact S1|]. split; [intros _; exact S1|].
    split; [split; congruence|]. split; [congruence|].
    intros _. exists p, l, evs. apply new_events_app.
    rewrite Q, I, <- app_assoc. reflexivity. }
  apply str_eqb_neq in S1.
  destruct (str_eqb named (L "Bug")) eqn:S2.
  { apply str_eqb_eq in S2. unfold ret in E1. injection E1 as <- <-.
    split; [right; exact S2|]. split.
    { intros N. exfalso. unfold named, dict_get_default, dict_get in *.
      rewrite N in S2. discriminate. }
    split; [split; congruence|]. split; [congruence|].
    intros _. exists p, l, evs. apply new_events_app.
    rewrite Q, I, <- app_assoc. reflexivity. }
  apply str_eqb_neq in S2.
  unfold bind, log, ret in E1. injection E1 as <- <-.
  split; [left; reflexivity|]. split; [reflexivity|].
  split; [split; [discriminate | congruence]|]. split.
  - intros _ _. eexists _, _. split; [|intros _; reflexivity].
    apply new_events_app.
    rewrite Q, I. cbn [emit events]. rewrite <- !app_assoc. reflexivity.
  - intros [N | N]; congruence.
Qed.

(** An entry that the operator does not confirm with a yes is given up
    before anything is asked of the tracker: one line of input is read, and
    apart from a warning about its type nothing else happens. *)
Theorem unconfirmed_entry_skipped (data : dict str) (u : UserDetails)
    (w : World) (line : str) (rest : list str) :
  truthy (dict_get_default data (L "draft_summary") (L "No summary provided"))
  = true ->
  stdin w = line :: rest ->
  declines (L "yes") line = true ->
  exists prompt logs,
    process_single_entry srv env data u w
    = (Ok (false, SKIPPED),
       {| stdin := rest;
          events := events w ++ logs ++ [EvInput prompt (Some line)];
          fs := fs w |})
    /\ Forall (fun ev => exists m, ev = EvLog WARNING m) logs.
Proof.
  intros Hs Hin Hd.
  assert (C : exists prompt logs,
            confirm_and_resolve_epic srv env data u w
            = (Ok None,
               {| stdin := rest;
                  events := events w ++ logs ++ [EvInput prompt (Some line)];
                  fs := fs w |})
            /\ Forall (fun ev => exists m, ev = EvLog WARNING m) logs).
  { unfold confirm_and_resolve_epic. rewrite Hs. cbn [negb]. cbv iota.
    unfold bind at 1.
    match goal with
    | |- context [if supported_issue_type ?t then _ else _] =>
        destruct (supported_issue_type t)
    end.
    - unfold ret at 1. cbv iota beta. unfold bind at 1.
      match goal with
      | |- context [get_user_input ?p (Some ?d) w] =>
          destruct (@get_user_input_run p d line rest w Hin) as (a & G & Ha & _)
      end.
      rewrite G. cbv iota beta. rewrite Hd in Ha.
      eexists _, []. cbn [app]. split; [|constructor].
      destruct (str_eqb (lower a) (L "skip")); [reflexivity|].
      rewrite Ha. reflexivity.
    - unfold bind at 1. unfold log at 1. unfold ret at 1. cbv iota beta.
      unfold bind at 1.
      match goal with
      | |- context [get_user_input ?p (Some ?d) (emit ?ev w)] =>
          destruct (@get_user_input_run p d line rest (emit ev w) Hin)
            as (a & G & Ha & _)
      end.
      rewrite G. cbv iota beta. rewrite Hd in Ha. cbn [emit events fs].
      eexists _, [_]. rewrite <- app_assoc. cbn [app].
      split; [|repeat constructor; eauto].
      destruct (str_eqb (lower a) (L "skip")); [reflexivity|].
      rewrite Ha. reflexivity. }
  destruct C as (prompt & logs & C & Hl). exists prompt, logs.
  split; [|exact Hl]. unfold process_single_entry, bind. rewrite C. reflexivity.
Qed.

End Confirmation.

Lemma issue_type_coerced_witness :
  capitalize (dict_get_default (parsed_fields ex_entry1) (L "type") (L "Story"))
  = L "Bug".
Proof.
  refine (proj1 (proj1 (proj2 (proj2
    (@issue_type_coerced ex_srv ex_env (parsed_fields ex_entry1) ex_user
       ex_loop_world (L "Bug") None NA _)))) eq_refl).
  vm_compute. reflexivity.
Defined.

Lemma unconfirmed_entry_skipped_witness :
  exists prompt logs,
    process_single_entry ex_srv ex_env (parsed_fields ex_entry1) ex_user
      {| stdin := [L "no"]; events := []; fs := ex_fs |}
    = (Ok (false, SKIPPED),
       {| stdin := [];
          events := [] ++ logs ++ [EvInput prompt (Some (L "no"))];
          fs := ex_fs |})
    /\ Forall (fun ev => exists m, ev = EvLog WARNING m) logs.
Proof.
  apply (@unconfirmed_entry_skipped ex_srv ex_env (parsed_fields ex_entry1)
           ex_user {| stdin := [L "no"]; events := []; fs := ex_fs |}
           (L "no") []); reflexivity.
Defined.


(* ================================================================= *)
(** * When the duplicate check is not made *)

Section NoCheck.

Variable srv : Server.

(** What [get_stories_in_epic] answers when the tracker fails: nothing, as
    for an Epic without Stories. *)
Lemma get_stories_in_epic_failed (p ek : str) (w : World) :
  srv_connect srv (events w) = false
  \/ srv_search_issues srv (events w ++ [EvConnect true]) (stories_jql p ek) = None ->
  exists evs,
    get_stories_in_epic srv p ek w
    = (Ok [], {| stdin := stdin w; events := events w ++ evs; fs := fs w |})
    /\ (evs = [EvConnect false]
        \/ evs = [EvConnect true; EvSearchIssues (stories_jql p ek) None]).
Proof.
  intros H. unfold get_stories_in_epic, try_except, bind, connect, search_issues, ret.
  fold (stories_jql p ek).
  destruct (srv_connect srv (events w)) eqn:C; cbn [fst snd emit events stdin fs].
  - destruct H as [H | H]; [discriminate|]. rewrite H.
    cbn [fst snd emit events stdin fs]. exists [EvConnect true; EvSearchIssues (stories_jql p ek) None].
    split; [|right; reflexivity].
    unfold emit. cbn [stdin events fs]. rewrite <- app_assoc. reflexivity.
  - eexists. split; [reflexivity | left; reflexivity].
Qed.

(** The duplicate check is passed without a question when the entry has no
    Epic, and also when the tracker fails to list the Stories of its Epic:
    the connector answers a failure with an empty list, so that the question
    whether to go on without the check is only ever put to a console that is
    closed. *)
Theorem duplicate_check_not_made (epic_key : option str)
    (epic_name final_summary issue_type : str) (w : World) :
  let w' := snd (duplicate_check srv epic_key epic_name final_summary issue_type w) in
  (truthy_opt epic_key = false ->
   duplicate_check srv epic_key epic_name final_summary issue_type w = (Ok true, w))
  /\ (forall ek,
        epic_key = Some ek -> truthy ek = true ->
        srv_connect srv (events w) = false
        \/ srv_search_issues srv (events w ++ [EvConnect true])
             (stories_jql JIRA_PROJECT_KEY ek) = None ->
        fst (duplicate_check srv epic_key epic_name final_summary issue_type w)
        = Ok true
        /\ stdin w' = stdin w
        /\ (new_events w w' = [EvConnect false]
            \/ new_events w w'
               = [EvConnect true;
                  EvSearchIssues (stories_jql JIRA_PROJECT_KEY ek) None]))
  /\ (forall line,
        ~ In (EvInput
                ((L "Could not perform duplicate check. Proceed with creation anyway? (yes/no)")
                 ++ L " (Press Enter to accept: '" ++ L "no" ++ L "') ["
                 ++ L "no" ++ L "]: ")
                (Some line))
             (new_events w w')).
Proof.
  intros w'. split; [|split].
  - intros T. unfold duplicate_check. destruct epic_key as [ek|]; [|reflexivity].
    cbn [truthy_opt] in T. rewrite T. reflexivity.
  - intros ek -> T F. subst w'.
    destruct (@get_stories_in_epic_failed JIRA_PROJECT_KEY ek w F) as (evs & G & Hev).
    unfold duplicate_check. rewrite T. unfold try_except, bind. rewrite G.
    unfold ret. cbn [fst snd stdin].
    split; [reflexivity|]. split; [reflexivity|].
    rewrite (@new_events_app w _ evs) by reflexivity.
    destruct Hev as [-> | ->]; [left | right]; reflexivity.
  - intros line Hin. subst w'.
    unfold duplicate_check in Hin.
    destruct epic_key as [ek|].
    2:{ unfold ret, new_events in Hin. cbn [snd] in Hin.
        rewrite skipn_all in Hin. destruct Hin. }
    destruct (truthy ek) eqn:T.
    2:{ unfold ret, new_events in Hin. cbn [snd] in Hin.
        rewrite skipn_all in Hin. destruct Hin. }
    destruct (get_stories_in_epic_run srv JIRA_PROJECT_KEY ek w)
      as (existing & G1 & G2 & G3 & G4).
    unfold try_except, bind in Hin.
    destruct (get_stories_in_epic srv JIRA_PROJECT_KEY ek w) as [r w1] eqn:G.
    cbn [fst snd] in G1, G2, G3, G4. subst r.
    assert (E1 : exists evs, events w1 = events w ++ evs
                 /\ forall p l, ~ In (EvInput p l) evs).
    { destruct G4 as [E | [r E]]; eexists; (split; [exact E|]);
        intros p l K; repeat (destruct K as [K | K]; [discriminate|]);
        exact K. }
    destruct E1 as (evs & E1 & N1).
    destruct existing as [|x existing'].
    { unfold ret in Hin. cbn [snd] in Hin.
      rewrite (@new_events_app _ _ _ E1) in Hin. eapply N1; exact Hin. }
    destruct (duplicate_summaries (x :: existing') final_summary) as [|t ts].
    { unfold ret in Hin. cbn [snd] in Hin.
      rewrite (@new_events_app _ _ _ E1) in Hin. eapply N1; exact Hin. }
    unfold log, get_user_input, bind, input in Hin. cbn [emit stdin events fs] in Hin.
    destruct (stdin w1) as [|l rest] eqn:S.
    + cbn [emit stdin events fs snd] in Hin. rewrite S in Hin.
      cbn [emit stdin events fs snd] in Hin.
      unfold new_events, emit in Hin. cbn [events] in Hin.
      rewrite E1, <- !app_assoc in Hin. rewrite skipn_app_length in Hin.
      cbn [app] in Hin.
      apply in_app_or in Hin as [Hin | Hin]; [eapply N1; exact Hin|].
      repeat (destruct Hin as [Hin | Hin]; [discriminate|]). exact Hin.
    + cbv beta iota zeta in Hin.
      destruct (str_eqb (lower (strip l)) (L "confirm")); unfold ret in Hin;
        unfold new_events, emit in Hin; cbn [snd events] in Hin;
        rewrite E1, <- !app_assoc in Hin; rewrite skipn_app_length in Hin;
        cbn [app] in Hin;
        (apply in_app_or in Hin as [Hin | Hin]; [eapply N1; exact Hin|]);
        (destruct Hin as [K | [K | []]]; [discriminate|]);
        exfalso; injection K; intros; discriminate.
Qed.

End NoCheck.

Lemma duplicate_check_not_made_witness :
  duplicate_check ex_srv None NA (L "Add CSV export") (L "Bug") ex_loop_world
  = (Ok true, ex_loop_world).
Proof.
  apply (proj1 (@duplicate_check_not_made ex_srv None NA (L "Add CSV export")
                  (L "Bug") ex_loop_world)).
  reflexivity.
Defined.


(* ================================================================= *)
(** * The entries of a pending log and what the next run reads back *)

Lemma partition_suffix (content : str) :
  exists n, snd (template_partition content) = skipn n content.
Proof.
  unfold template_partition.
  destruct (find content TEMPLATE_END_MARKER) as [i|].
  - destruct (find_from content ENTRY_SEPARATOR (i + length TEMPLATE_END_MARKER));
      eexists; reflexivity.
  - exists 0. reflexivity.
Qed.

(** The blocks that [main] hands to the parser (lines 475-477): none of
    them is empty, has white space around it or holds a separator line, and
    each of them stands in the text read from the pending log. *)
Theorem entry_blocks_clean (content : str) :
  Forall (fun e => e <> []
                   /\ strip e = e
                   /\ find e ENTRY_SEPARATOR = None
                   /\ truthy (strip e) = true
                   /\ substr e content)
    (entries_of content).
Proof.
  unfold entries_of. destruct (partition_suffix content) as [n Hn].
  eapply Forall_impl; [|apply entry_texts_good].
  intros e [(Hne & Hs & Hf) Hsub]. split; [exact Hne|]. split; [exact Hs|].
  split; [exact Hf|]. split.
  - rewrite Hs. destruct e; [congruence | reflexivity].
  - eapply substr_trans; [exact Hsub|]. rewrite Hn. apply substr_skipn.
Qed.

(** Entries that a run retains are read back as the same entries, under
    the same template, by the next run, provided the pending log has no
    template or a template whose end marker is followed by a separator. *)
Theorem retained_entries_read_back (content : str) (rem : list str) :
  (find content TEMPLATE_END_MARKER = None
   \/ exists i j,
        find content TEMPLATE_END_MARKER = Some i
        /\ find_from content ENTRY_SEPARATOR (i + length TEMPLATE_END_MARKER)
           = Some j) ->
  rem <> [] ->
  Forall (fun e => In e (entries_of content)) rem ->
  let rewritten_log := second_rewrite_content (template_of content) rem in
  entries_of rewritten_log = rem
  /\ template_of rewritten_log = template_of content.
Proof.
  intros Shape Hne Hin rewritten_log. subst rewritten_log.
  assert (Hg : Forall (fun e => good_entry e /\ substr e content) rem).
  { eapply Forall_impl; [|exact Hin]. intros e He.
    pose proof (entry_blocks_clean content) as C. rewrite Forall_forall in C.
    destruct (C e He) as (A & B & D & _ & E). repeat split; assumption. }
  assert (Hgood : Forall good_entry rem)
    by (eapply Forall_impl; [|exact Hg]; intros e [H _]; exact H).
  rewrite second_rewrite_content_entries by (auto using good_nonempty).
  destruct Shape as [F | (i & j & F & G)].
  - unfold template_of. rewrite (partition_no_marker _ F). cbn [fst app].
    assert (M : find (join ENTRY_SEPARATOR rem
                      ++ closing (join ENTRY_SEPARATOR rem))
                  TEMPLATE_END_MARKER = None).
    { apply marker_not_in_closed. apply marker_not_in_join.
      eapply Forall_impl; [|exact Hg]. intros e [_ Hs].
      eapply find_None_sub; [exact Hs | exact F]. }
    unfold entries_of. rewrite (partition_no_marker _ M). cbn [fst snd].
    split; [|reflexivity]. apply entry_texts_closed; assumption.
  - rewrite MARKER_length in G. unfold template_of, entries_of.
    rewrite (partition_with_separator _ F G). cbn [fst].
    rewrite (partition_stable content _ F G). cbn [fst snd].
    split; [|reflexivity]. apply entry_texts_closed; assumption.
Qed.

(** After a template whose end marker is followed by no separator, the
    text that follows is one entry at most.  When a run retains it and it
    does not end with three dashes, the rewrite puts a separator after it,
    and the next run takes the whole log, entry included, for the template:
    it finds no entry. *)
Theorem retained_entry_absorbed (content e : str) (i : nat) :
  find content TEMPLATE_END_MARKER = Some i ->
  find_from content ENTRY_SEPARATOR (i + length TEMPLATE_END_MARKER) = None ->
  entries_of content = [e] ->
  endswith e (L "---") = false ->
  let rewritten_log := second_rewrite_content (template_of content) [e] in
  rewritten_log = template_of content ++ e ++ ENTRY_SEPARATOR
  /\ entries_of rewritten_log = []
  /\ template_of rewritten_log = rewritten_log.
Proof.
  intros F G He Hd rewritten_log. subst rewritten_log.
  rewrite MARKER_length in G.
  assert (Hg : good_entry e).
  { pose proof (good_of_entry_texts (snd (template_partition content))) as C.
    fold (entries_of content) in C. rewrite He in C. inversion C; assumption. }
  destruct (partition_without_separator content F G) as [P _].
  set (m := Nat.max (count_newlines (skipn (i + 21) content)) 1) in *.
  set (p := firstn (i + 21) content) in *.
  assert (T : template_of content = p ++ repeat NL m)
    by (unfold template_of; rewrite P; reflexivity).
  rewrite T.
  rewrite second_rewrite_content_entries;
    [| discriminate | constructor; [apply Hg | constructor]].
  cbn [join]. unfold closing. rewrite Hd.
  split; [reflexivity|].
  set (c' := (p ++ repeat NL m) ++ e ++ ENTRY_SEPARATOR).
  destruct (firstn_marker content F) as [Pm Lp]. fold p in Pm, Lp.
  assert (Fp : find p TEMPLATE_END_MARKER = Some i).
  { eapply find_prefix_stable with (n := i + 21); [exact F | |].
    - rewrite MARKER_length. lia.
    - unfold p. rewrite firstn_firstn. f_equal. lia. }
  assert (E' : c' = p ++ repeat NL m ++ e ++ ENTRY_SEPARATOR)
    by (unfold c'; rewrite <- app_assoc; reflexivity).
  assert (F' : find c' TEMPLATE_END_MARKER = Some i).
  { eapply find_prefix_stable with (n := i + 21); [exact Fp | |].
    - rewrite MARKER_length. lia.
    - rewrite E', <- Lp, firstn_app_length, firstn_all. reflexivity. }
  assert (S' : skipn (i + 21) c' = repeat NL m ++ e ++ ENTRY_SEPARATOR)
    by (rewrite E', <- Lp; apply skipn_app_length).
  assert (Lc : i + 21 <= length c')
    by (rewrite E', length_app; lia).
  destruct Hg as (Hne & Hs & Hf).
  assert (G' : find_from c' ENTRY_SEPARATOR (i + 21)
               = Some (i + 21 + (m + length e))).
  { rewrite (@find_from_intro c' ENTRY_SEPARATOR (i + 21)
               (Some (m + length e))); [reflexivity | exact Lc |].
    rewrite S', find_after_newlines.
    rewrite <- (app_nil_r ENTRY_SEPARATOR), find_sep_after by exact Hf.
    reflexivity. }
  assert (Lc' : length c' = i + 21 + (m + length e) + 4).
  { rewrite E', !length_app, repeat_length, SEP_length. lia. }
  unfold entries_of, template_of.
  rewrite (partition_with_separator c' F' G'). cbn [fst snd].
  rewrite <- Lc', skipn_all, firstn_all. split; reflexivity.
Qed.

Lemma retained_entries_read_back_witness :
  entries_of (second_rewrite_content (template_of ex_content) [ex_entry2])
  = [ex_entry2].
Proof.
  refine (proj1 (@retained_entries_read_back ex_content [ex_entry2] _ _ _)).
  - right. exists 24, 46. split; vm_compute; reflexivity.
  - discriminate.
  - constructor; [|constructor]. vm_compute. right. left. reflexivity.
Defined.

Lemma retained_entry_absorbed_witness :
  let content := Ln "<!-- END TEMPLATE -->" ++ L "**Draft Summary:** First" in
  entries_of (second_rewrite_content (template_of content)
                [L "**Draft Summary:** First"]) = [].
Proof.
  intros content.
  refine (proj1 (proj2
    (@retained_entry_absorbed content (L "**Draft Summary:** First") 0 _ _ _ _)));
    vm_compute; reflexivity.
Defined.


(* ================================================================= *)
(** * The fields of an entry *)

Lemma substr_In (s t : str) (c : ascii) : substr s t -> In c s -> In c t.
Proof.
  intros (u & v & ->) H. apply in_or_app. right. apply in_or_app. left. exact H.
Qed.

Lemma line_of_no_NL (s : str) : ~ In NL (line_of s).
Proof.
  induction s as [|c s IH]; cbn [line_of]; [intros []|].
  destruct (Ascii.eqb c NL) eqn:E; [intros []|].
  intros [H | H]; [|exact (IH H)]. subst c. rewrite Ascii.eqb_refl in E.
  discriminate.
Qed.

Lemma line_of_app (s rest : str) :
  ~ In NL s -> rest = [] \/ (exists r, rest = NL :: r) ->
  line_of (s ++ rest) = s.
Proof.
  intros Hs Hr. induction s as [|c s IH]; cbn [app line_of].
  - destruct Hr as [-> | [r ->]]; [reflexivity|].
    cbn [line_of]. rewrite Ascii.eqb_refl. reflexivity.
  - destruct (Ascii.eqb c NL) eqn:E.
    + apply Ascii.eqb_eq in E. subst c. exfalso. apply Hs. left. reflexivity.
    + f_equal. apply IH. intros H. apply Hs. right. exact H.
Qed.

Lemma stripped_line (x : str) :
  strip (strip (line_of x)) = strip (line_of x)
  /\ ~ In NL (strip (line_of x)).
Proof.
  split; [apply strip_idem|]. intros H.
  apply (line_of_no_NL x). eapply substr_In; [apply strip_substr | exact H].
Qed.

(** What [parse_pending_entry] makes of a block (lines 78-120): fields
    under five names at most, each once, each value without white space
    around it, the summary, the type and the user on one line.  The block is
    given up, with a warning, when no summary or an empty one is found;
    otherwise the fields are returned and the summary among them is not
    empty.  Nothing else happens. *)
Theorem parse_pending_entry_fields (e : str) (w : World) :
  let data := parsed_fields e in
  Forall (fun kv => strip (snd kv) = snd kv) data
  /\ (forall k v,
        In (k, v) data ->
        In k [L "draft_summary"; L "type"; L "user"] -> ~ In NL v)
  /\ NoDup (map fst data)
  /\ incl (map fst data)
       [L "draft_summary"; L "type"; L "user"; L "description";
        L "acceptance_criteria"]
  /\ (parseable e = true ->
      parse_pending_entry e w = (Ok data, w)
      /\ data <> []
      /\ exists s, dict_get data (L "draft_summary") = Some s /\ s <> [])
  /\ (parseable e = false ->
      parse_pending_entry e w
      = (Ok [],
         emit (EvLog WARNING
                 (L "Could not parse Draft Summary from entry block: " ++ [NL]
                  ++ firstn 200 e ++ L "...")) w)).
Proof.
  intros data.
  assert (Shape :
    Forall (fun kv => strip (snd kv) = snd kv) data
    /\ (forall k v,
          In (k, v) data ->
          In k [L "draft_summary"; L "type"; L "user"] -> ~ In NL v)
    /\ NoDup (map fst data)
    /\ incl (map fst data)
         [L "draft_summary"; L "type"; L "user"; L "description";
          L "acceptance_criteria"]).
  { subst data. unfold parsed_fields.
    destruct (after_label e (L "draft summary:")) as [r1|];
      destruct (after_label e (L "type:")) as [r2|];
      destruct (after_label e (L "user:")) as [r3|];
      destruct (description_block e) as [g4|];
      try destruct (after_label e (L "description:")) as [g4'|];
      destruct (ac_block e) as [g5|];
      unfold dict_set; cbn [app map fst snd];
      (split; [repeat constructor; cbn [snd]; first [apply strip_idem | apply stripped_line]|]);
      (split;
       [intros k v Hin Hk;
        repeat (destruct Hin as [Hin | Hin];
                [injection Hin as <- <-;
                 first [apply stripped_line
                       | exfalso;
                         repeat (destruct Hk as [Hk | Hk]; [discriminate Hk|]);
                         exact Hk]|]);
        destruct Hin|]);
      (split;
       [repeat (constructor;
                [cbn [In]; intros K;
                 repeat (destruct K as [K | K]; [discriminate K|]); exact K|]);
        constructor|]);
      intros k Hk; cbn [In] in *;
      repeat (destruct Hk as [Hk | Hk]; [subst k; auto 10|]); destruct Hk. }
  destruct Shape as (S1 & S2 & S3 & S4).
  split; [exact S1|]. split; [exact S2|]. split; [exact S3|]. split; [exact S4|].
  unfold parse_pending_entry, parseable. fold data.
  destruct (dict_get data (L "draft_summary")) as [s|] eqn:D; cbn [truthy_opt].
  - destruct s as [|c s]; cbn [truthy negb].
    + split; [discriminate|]. intros _. reflexivity.
    + split; [|discriminate]. intros _. split; [reflexivity|]. split.
      * intros N. rewrite N in D. discriminate.
      * eexists. split; [reflexivity | discriminate].
  - cbn [negb]. split; [discriminate|]. intros _. reflexivity.
Qed.

(** A block that starts with a summary line in the format of the template
    is parsed, and its summary is the text of that line. *)
Theorem summary_line_parsed (s rest : str) :
  s <> [] -> strip s = s -> ~ In NL s ->
  rest = [] \/ (exists r, rest = NL :: r) ->
  let e := L "**Draft Summary:** " ++ s ++ rest in
  dict_get (parsed_fields e) (L "draft_summary") = Some s
  /\ parseable e = true.
Proof.
  intros Hne Hs Hnl Hr e.
  assert (A : after_label e (L "draft summary:") = Some ([" "%char] ++ s ++ rest)).
  { unfold after_label.
    assert (F : find (lower e) (L "draft summary:") = Some 2).
    { apply find_intro.
      - reflexivity.
      - intros j Hj. destruct j as [|[|j]]; [reflexivity | reflexivity | lia]. }
    rewrite F. reflexivity. }
  assert (Hh : match s with [] => True | c :: _ => isspace c = false end).
  { destruct s as [|c s']; [exact I|]. eapply strip_head. exact Hs. }
  assert (V : strip (line_of (lstrip ([" "%char] ++ s ++ rest))) = s).
  { cbn [app lstrip]. change (isspace " "%char) with true. cbv iota.
    assert (Ls : lstrip (s ++ rest) = s ++ rest).
    { apply lstrip_fixed. destruct s as [|c s']; [congruence | exact Hh]. }
    rewrite Ls, line_of_app by assumption. exact Hs. }
  assert (D : dict_get (parsed_fields e) (L "draft_summary") = Some s).
  { unfold parsed_fields. rewrite A, V.
    destruct (after_label e (L "type:")) as [r2|];
      destruct (after_label e (L "user:")) as [r3|];
      destruct (description_block e) as [g4|];
      try destruct (after_label e (L "description:")) as [g4'|];
      destruct (ac_block e) as [g5|]; reflexivity. }
  split; [exact D|]. unfold parseable. rewrite D.
  destruct s; [congruence | reflexivity].
Qed.

Lemma parse_pending_entry_fields_witness :
  parse_pending_entry ex_entry1 ex_loop_world
  = (Ok (parsed_fields ex_entry1), ex_loop_world).
Proof.
  refine (proj1 (proj1 (proj2 (proj2 (proj2 (proj2
    (parse_pending_entry_fields ex_entry1 ex_loop_world))))) _)).
  vm_compute. reflexivity.
Defined.

Lemma summary_line_parsed_witness :
  dict_get (parsed_fields ex_entry2) (L "draft_summary") = Some (L "Second").
Proof.
  refine (proj1 (@summary_line_parsed (L "Second") ([NL] ++ L "---") _ _ _ _)).
  - discriminate.
  - reflexivity.
  - vm_compute. intros H. repeat (destruct H as [H | H]; [discriminate|]). exact H.
  - right. eexists. reflexivity.
Defined.


(* ================================================================= *)
(** * Choosing from a numbered list *)

(** What a loop returns, one of its rounds returned. *)
Lemma while_true_result (A : Type) (body : M (option A)) (P : A -> Prop)
    (n : nat) (w w' : World) (a : A) :
  (forall w a w', body w = (Ok (Some a), w') -> P a) ->
  while_true n body w = (Ok a, w') -> P a.
Proof.
  intros Hb. revert w. induction n as [|n IH]; intros w H; cbn [while_true] in H;
    destruct (body w) as [[[x|]|e] w1] eqn:E; try discriminate.
  - injection H as <- <-. eapply Hb; exact E.
  - injection H as <- <-. eapply Hb; exact E.
  - eapply IH; exact H.
Qed.

Lemma split_not_nil (s sep : str) : split s sep <> [].
Proof.
  unfold split. destruct (length s) as [|n]; cbn [split_fuel]; [discriminate|].
  destruct (find s sep); discriminate.
Qed.

Lemma selected_indices_length (parts : list str) (l : list Z) :
  selected_indices parts = Some l -> length l = length parts.
Proof.
  revert l; induction parts as [|x parts IH]; intros l; cbn [selected_indices].
  - intros [= <-]. reflexivity.
  - destruct (py_int (strip x)) as [n|]; [|discriminate].
    destruct (selected_indices parts) as [l'|]; [|discriminate].
    intros [= <-]. cbn [length]. f_equal. apply IH. reflexivity.
Qed.

Lemma selected_versions_names_spec (av : list (str * str)) (indices : list Z)
    (names : list str) :
  selected_versions_names av indices = Some names ->
  Forall2 (fun index name =>
             (0 <= index < Z.of_nat (length av))%Z
             /\ exists id, nth_error av (Z.to_nat index) = Some (id, name))
    indices names.
Proof.
  revert names; induction indices as [|i indices IH]; intros names;
    cbn [selected_versions_names].
  - intros [= <-]. constructor.
  - destruct ((0 <=? i)%Z && (i <? Z.of_nat (length av))%Z) eqn:B; [|discriminate].
    destruct (nth_error av (Z.to_nat i)) as [[id nm]|] eqn:N; [|discriminate].
    destruct (selected_versions_names av indices) as [l|]; [|discriminate].
    intros [= <-]. constructor; [|apply IH; reflexivity].
    apply andb_true_iff in B as [B1 B2].
    apply Z.leb_le in B1. apply Z.ltb_lt in B2.
    split; [lia|]. exists id. exact N.
Qed.

Section Epics.

Variables (srv : Server) (env : Env).

Lemma dict_get_set (V : Type) (d : dict V) (k k' : str) (v : V) :
  dict_get (dict_set d k v) k'
  = if str_eqb k' k then Some v else dict_get d k'.
Proof.
  unfold dict_get. induction d as [|[a b] d IH]; cbn [dict_set assoc].
  - reflexivity.
  - destruct (str_eqb k a) eqn:Ka; cbn [assoc].
    + apply str_eqb_eq in Ka. subst a.
      destruct (str_eqb k' k); reflexivity.
    + destruct (str_eqb k' a) eqn:K'a.
      * apply str_eqb_eq in K'a. subst a.
        destruct (str_eqb k' k) eqn:K; [|reflexivity].
        apply str_eqb_eq in K. subst k'. rewrite str_eqb_refl in Ka.
        discriminate.
      * exact IH.
Qed.

Lemma create_jira_epic_run (p name r a : str) (desc : option str)
    (fv comps : option (list str)) (w w' : World) (ko : option str) :
  create_jira_epic srv env p name r a desc fv comps w = (Ok ko, w') ->
  match ko with
  | None => True
  | Some k =>
      exists fields,
        events w' = events w ++ [EvConnect true; EvCreateIssue fields (Some k)]
        /\ dict_get fields (L "summary") = Some (VStr name)
  end.
Proof.
  unfold create_jira_epic, try_except, bind, connect, create_issue, ret.
  destruct (srv_connect srv (events w)); cbn [emit events].
  2:{ intros [= <- _]. exact I. }
  match goal with
  | |- context [srv_create_issue srv ?ev ?d] =>
      destruct (srv_create_issue srv ev d) as [k|] eqn:C; set (fields := d) in *
  end.
  2:{ intros [= <- _]. exact I. }
  intros [= <- <-]. exists fields. cbn [emit events]. rewrite <- app_assoc.
  split; [reflexivity|]. subst fields.
  destruct desc as [d|]; [destruct (truthy d)|];
    destruct fv as [[|f fv]|]; destruct comps as [[|c cs]|];
    destruct (dict_get (environ env) (L "JIRA_EPIC_NAME_FIELD_ID")) as [f0|];
    try destruct (truthy f0);
    repeat (rewrite dict_get_set;
            match goal with
            | |- context [str_eqb (L "summary") ?key] =>
                let E := fresh "E" in
                destruct (str_eqb (L "summary") key) eqn:E;
                [try reflexivity; try (vm_compute in E; discriminate)|]
            end);
    reflexivity.
Qed.

Lemma events_extend (A : Type) (m : M A) (w w' : World) (r : Result A) :
  quiet m -> m w = (r, w') -> exists evs, events w' = events w ++ evs.
Proof.
  intros Q H. destruct (Q _ _ _ H) as (_ & (evs & E & _) & _). exists evs. exact E.
Qed.

Lemma create_new_epic_run (r : str) (w w' : World) (ko : option str) (name : str) :
  create_new_epic srv env r w = (Ok (ko, name), w') ->
  (ko = None /\ name = NA)
  \/ exists k fields,
       ko = Some k /\ truthy k = true
       /\ In (EvCreateIssue fields (Some k)) (new_events w w')
       /\ dict_get fields (L "summary") = Some (VStr name).
Proof.
  unfold create_new_epic. intros H. bind_inv H as nm w1 E1.
  destruct (truthy nm); cbn [negb] in H.
  2:{ unfold bind, log, ret in H. injection H as <- <- _. left. auto. }
  bind_inv H as ds w2 E2. bind_inv H as av w3 E3. bind_inv H as fvs w4 E4.
  bind_inv H as ck w5 E5.
  assert (X1 : exists v1, events w1 = events w ++ v1)
    by (eapply events_extend; [apply quiet_get_user_input | exact E1]).
  assert (X2 : exists v2, events w2 = events w1 ++ v2)
    by (eapply events_extend; [apply quiet_get_user_input | exact E2]).
  assert (X3 : exists v3, events w3 = events w2 ++ v3)
    by (eapply events_extend; [apply quiet_get_project_versions | exact E3]).
  destruct X1 as [v1 X1]. destruct X2 as [v2 X2]. destruct X3 as [v3 X3].
  assert (X4 : exists v4, events w4 = events w3 ++ v4).
  { destruct av as [|v av].
    - bind_inv E4 as s w6 E6. unfold ret in E4. injection E4 as _ <-.
      eapply events_extend; [apply quiet_get_user_input | exact E6].
    - eapply events_extend; [apply quiet_select_fix_versions | exact E4]. }
  destruct X4 as [v4 X4].
  pose proof (create_jira_epic_run _ _ _ _ _ _ _ _ E5) as C.
  destruct ck as [k|]; cbn [truthy_opt] in H.
  - destruct (truthy k) eqn:T.
    + unfold ret in H. injection H as <- <- <-. right.
      destruct C as (fields & Ev & D). exists k, fields.
      split; [reflexivity|]. split; [exact T|]. split; [|exact D].
      rewrite (@new_events_app w w5
                 (v1 ++ v2 ++ v3 ++ v4
                  ++ [EvConnect true; EvCreateIssue fields (Some k)])).
      * repeat (apply in_or_app; right). right. left. reflexivity.
      * rewrite Ev, X4, X3, X2, X1, <- !app_assoc. reflexivity.
    + unfold bind, log, ret in H. injection H as <- <- _. left. auto.
  - unfold bind, log, ret in H. injection H as <- <- _. left. auto.
Qed.

Lemma new_events_later (w w0 w1 : World) (ev : Event) :
  (exists pre, events w0 = events w ++ pre) ->
  (exists evs, events w1 = events w0 ++ evs) ->
  In ev (new_events w0 w1) -> In ev (new_events w w1).
Proof.
  intros [pre Hp] [evs He] H.
  rewrite (@new_events_app _ _ _ He) in H.
  rewrite (@new_events_app w w1 (pre ++ evs))
    by (rewrite He, Hp, app_assoc; reflexivity).
  apply in_or_app. right. exact H.
Qed.

Lemma quiet_choose_epic_round (r : str) (epics : list (str * str)) :
  quiet (choose_epic_round srv env r epics).
Proof.
  unfold choose_epic_round. apply quiet_bind; [apply quiet_get_user_input|].
  intros c. cbv zeta.
  destruct (str_eqb (upper c) (L "N")).
  { apply quiet_bind; [apply quiet_create_new_epic | intros; apply quiet_ret]. }
  destruct (str_eqb (lower (upper c)) (L "none")); [apply quiet_ret|].
  destruct (py_int (upper c)) as [z|]; [|apply quiet_ret].
  destruct ((0 <=? z - 1)%Z && (z - 1 <? Z.of_nat (length epics))%Z);
    [|apply quiet_ret].
  destruct (nth_error epics (Z.to_nat (z - 1))); apply quiet_ret.
Qed.

Lemma choose_epic_round_result (r : str) (epics : list (str * str))
    (w0 w1 : World) (ko : option str) (name : str) :
  choose_epic_round srv env r epics w0 = (Ok (Some (ko, name)), w1) ->
  (ko = None /\ name = NA)
  \/ (exists k, ko = Some k /\ In (k, name) epics)
  \/ (exists k fields,
        ko = Some k /\ truthy k = true
        /\ In (EvCreateIssue fields (Some k)) (new_events w0 w1)
        /\ dict_get fields (L "summary") = Some (VStr name)).
Proof.
  intros E. unfold choose_epic_round in E. bind_inv E as c w2 E1.
  assert (X1 : exists v1, events w2 = events w0 ++ v1)
    by (eapply events_extend; [apply quiet_get_user_input | exact E1]).
  cbv zeta in E.
  destruct (str_eqb (upper c) (L "N")).
  { bind_inv E as x w3 E2. unfold ret in E. injection E as -> <-.
    assert (X2 : exists v2, events w3 = events w2 ++ v2)
      by (eapply events_extend; [apply quiet_create_new_epic | exact E2]).
    destruct (create_new_epic_run _ _ E2)
      as [(-> & ->) | (k & fields & -> & T & Hin & D)]; [left; auto|].
    right. right. exists k, fields. split; [reflexivity|]. split; [exact T|].
    split; [|exact D]. eapply new_events_later; eassumption. }
  destruct (str_eqb (lower (upper c)) (L "none")).
  { unfold ret in E. injection E as <- <- _. left. auto. }
  destruct (py_int (upper c)) as [z|]; [|unfold ret in E; discriminate].
  destruct ((0 <=? z - 1)%Z && (z - 1 <? Z.of_nat (length epics))%Z);
    [|unfold ret in E; discriminate].
  destruct (nth_error epics (Z.to_nat (z - 1))) as [[k nm]|] eqn:N;
    unfold ret in E; [|discriminate].
  injection E as <- <- _. right. left. exists k. split; [reflexivity|].
  eapply nth_error_In. exact N.
Qed.

(** The Epic that [choose_epic] returns (lines 175-255): none, or one of
    the Epics listed, under the name it is listed with, or an Epic that the
    tracker has just created under the name returned. *)
Theorem choose_epic_listed_or_created (r : str) (epics : list (str * str))
    (w w' : World) (ko : option str) (name : str) :
  choose_epic srv env r epics w = (Ok (ko, name), w') ->
  (ko = None /\ name = NA)
  \/ (exists k, ko = Some k /\ In (k, name) epics)
  \/ (exists k fields,
        ko = Some k /\ truthy k = true
        /\ In (EvCreateIssue fields (Some k)) (new_events w w')
        /\ dict_get fields (L "summary") = Some (VStr name)).
Proof.
  change (choose_epic srv env r epics)
    with (while_input (choose_epic_round srv env r epics)).
  unfold while_input. generalize (length (stdin w)) as n. intros n.
  assert (G : forall n w0,
            (exists pre, events w0 = events w ++ pre) ->
            while_true n (choose_epic_round srv env r epics) w0
            = (Ok (ko, name), w') ->
            (ko = None /\ name = NA)
            \/ (exists k, ko = Some k /\ In (k, name) epics)
            \/ (exists k fields,
                  ko = Some k /\ truthy k = true
                  /\ In (EvCreateIssue fields (Some k)) (new_events w w')
                  /\ dict_get fields (L "summary") = Some (VStr name))).
  { clear n. intros n. induction n as [|n IH]; intros w0 Hpre H;
      cbn [while_true] in H;
      destruct (choose_epic_round srv env r epics w0) as [[[x|]|e] w1] eqn:E;
      try discriminate.
    - injection H as -> <-.
      assert (X : exists evs, events w1 = events w0 ++ evs)
        by (eapply events_extend; [apply quiet_choose_epic_round | exact E]).
      destruct (@choose_epic_round_result r epics w0 w1 ko name E)
        as [C | [C | (k & fields & A & T & Hin & D)]]; [auto | auto|].
      right. right. exists k, fields. split; [exact A|]. split; [exact T|].
      split; [|exact D]. eapply new_events_later; eassumption.
    - injection H as -> <-.
      assert (X : exists evs, events w1 = events w0 ++ evs)
        by (eapply events_extend; [apply quiet_choose_epic_round | exact E]).
      destruct (@choose_epic_round_result r epics w0 w1 ko name E)
        as [C | [C | (k & fields & A & T & Hin & D)]]; [auto | auto|].
      right. right. exists k, fields. split; [exact A|]. split; [exact T|].
      split; [|exact D]. eapply new_events_later; eassumption.
    - eapply IH; [|exact H].
      assert (X : exists evs, events w1 = events w0 ++ evs)
        by (eapply events_extend; [apply quiet_choose_epic_round | exact E]).
      destruct Hpre as [pre Hpre]. destruct X as [v X]. exists (pre ++ v).
      rewrite X, Hpre, app_assoc. reflexivity. }
  intros H. eapply G; [|exact H]. exists []. rewrite app_nil_r. reflexivity.
Qed.

End Epics.

Lemma choose_epic_listed_or_created_witness :
  let epics := [(L "ROIA-1", L "Reporting")] in
  let w := {| stdin := [L "7"; L "1"]; events := []; fs := ex_fs |} in
  let w' := snd (choose_epic ex_srv ex_env (L "amy") epics w) in
  (Some (L "ROIA-1") = None /\ L "Reporting" = NA)
  \/ (exists k, Some (L "ROIA-1") = Some k /\ In (k, L "Reporting") epics)
  \/ (exists k fields,
        Some (L "ROIA-1") = Some k /\ truthy k = true
        /\ In (EvCreateIssue fields (Some k)) (new_events w w')
        /\ dict_get fields (L "summary") = Some (VStr (L "Reporting"))).
Proof.
  intros epics w w'.
  apply (@choose_epic_listed_or_created ex_srv ex_env (L "amy") epics w w').
  vm_compute. reflexivity.
Defined.


(* ================================================================= *)
(** * The menu of users *)

Lemma assoc_In_keys (V : Type) (k : str) (l : list (str * V)) :
  In k (map fst l) -> exists v, assoc k l = Some v.
Proof.
  induction l as [|[k' v] l IH]; cbn [map fst In assoc]; [intros []|].
  intros [H | H].
  - subst k'. rewrite str_eqb_refl. eexists. reflexivity.
  - destruct (str_eqb k k'); [eexists; reflexivity | apply IH; exact H].
Qed.

(** One round of the menu: it asks again after reading a line, or it has a
    user of the configuration, or the console is closed. *)
Lemma select_user_round_cases (w : World) :
  exists r w',
    select_user_round w = (Ok r, w')
    /\ fs w' = fs w
    /\ match r with
       | None => length (stdin w') < length (stdin w)
       | Some (Some name) => In name user_choices
       | Some None => stdin w' = []
       end.
Proof.
  unfold select_user_round, try_except, get_user_input, bind, input.
  cbv beta. destruct (stdin w) as [|line rest] eqn:S.
  - rewrite ?S. cbv beta iota zeta. unfold bind, log, ret. cbn [emit stdin fs].
    eexists _, _.
    split; [reflexivity|]. split; [reflexivity | exact S].
  - rewrite ?S. cbv beta iota zeta. unfold ret at 1. cbv beta iota.
    destruct (truthy (strip line)); cbn [negb].
    2:{ unfold ret. eexists _, _. split; [reflexivity|].
        split; [reflexivity|]. cbn [stdin length]. lia. }
    destruct (py_int (strip line)) as [n|].
    2:{ unfold ret. eexists _, _. split; [reflexivity|].
        split; [reflexivity|]. cbn [stdin length]. lia. }
    destruct ((0 <=? n - 1)%Z && (n - 1 <? Z.of_nat (length user_choices))%Z).
    2:{ unfold ret. eexists _, _. split; [reflexivity|].
        split; [reflexivity|]. cbn [stdin length]. lia. }
    destruct (nth_error user_choices (Z.to_nat (n - 1))) as [name|] eqn:N;
      unfold ret; eexists _, _; (split; [reflexivity|]); (split; [reflexivity|]).
    + eapply nth_error_In. exact N.
    + cbn [stdin length]. lia.
Qed.

(** The menu (lines 376-401) never fails: it ends with a user of the
    configuration, chosen by a number within range, or, when the console
    is closed, with no user, and then [main] returns at once.  No file is
    touched while the menu is up. *)
Theorem user_menu_choice (srv : Server) (env : Env) (w : World) :
  exists r w',
    select_user None w = (Ok r, w')
    /\ fs w' = fs w
    /\ match r with
       | Some name =>
           In name user_choices
           /\ (exists pn cn, assoc name USERS_CONFIG = Some (pn, cn))
           /\ main_cli srv env None w = main srv env name w'
       | None =>
           stdin w' = [] /\ main_cli srv env None w = (Ok tt, w')
       end.
Proof.
  assert (G : forall n w0,
            length (stdin w0) <= n ->
            exists r w',
              while_true n select_user_round w0 = (Ok r, w')
              /\ fs w' = fs w0
              /\ match r with
                 | Some name => In name user_choices
                 | None => stdin w' = []
                 end).
  { intros n. induction n as [|n IH]; intros w0 Hn; cbn [while_true];
      destruct (select_user_round_cases w0) as (r & w1 & E & F & C); rewrite E;
      destruct r as [[name|]|].
    - eexists _, _. split; [reflexivity|]. split; [exact F | exact C].
    - eexists _, _. split; [reflexivity|]. split; [exact F | exact C].
    - lia.
    - eexists _, _. split; [reflexivity|]. split; [exact F | exact C].
    - eexists _, _. split; [reflexivity|]. split; [exact F | exact C].
    - destruct (IH w1 ltac:(lia)) as (r & w' & E' & F' & C').
      exists r, w'. split; [exact E'|]. split; [congruence | exact C']. }
  destruct (G (length (stdin w)) w (le_n _)) as (r & w' & E & F & C).
  exists r, w'. unfold select_user, while_input. split; [exact E|].
  split; [exact F|].
  unfold main_cli, parse_args, bind, ret, select_user, while_input.
  rewrite E.
  destruct r as [name|].
  - split; [exact C|]. split; [|reflexivity].
    destruct (assoc_In_keys _ _ C) as [[pn cn] A]. exists pn, cn. exact A.
  - split; [exact C | reflexivity].
Qed.


(* ================================================================= *)
(** * The fields of a feature *)

Section Dict.

Variable V : Type.

Lemma assoc_put_same (d : dict V) (k : str) (v : V) :
  assoc k (dict_put d k v) = Some v.
Proof.
  induction d as [|[k' v'] d IH]; cbn [dict_put assoc].
  - rewrite str_eqb_refl. reflexivity.
  - destruct (str_eqb k k') eqn:E; cbn [assoc].
    + rewrite str_eqb_refl. reflexivity.
    + rewrite E. exact IH.
Qed.

Lemma assoc_put_other (d : dict V) (k k0 : str) (v : V) :
  k0 <> k -> assoc k0 (dict_put d k v) = assoc k0 d.
Proof.
  intros Hk. induction d as [|[k' v'] d IH]; cbn [dict_put assoc].
  - apply str_eqb_neq in Hk. rewrite Hk. reflexivity.
  - destruct (str_eqb k k') eqn:E; cbn [assoc].
    + apply str_eqb_eq in E. subst k'. apply str_eqb_neq in Hk. rewrite Hk.
      reflexivity.
    + destruct (str_eqb k0 k'); [reflexivity | exact IH].
Qed.

Lemma assoc_None_keys (d : dict V) (k : str) :
  assoc k d = None <-> ~ In k (map fst d).
Proof.
  induction d as [|[k' v'] d IH]; cbn [assoc map fst In].
  - split; [intros _ [] | reflexivity].
  - destruct (str_eqb k k') eqn:E.
    + apply str_eqb_eq in E. subst k'. split; [discriminate|].
      intros N. exfalso. apply N. left. reflexivity.
    + apply str_eqb_neq in E. rewrite IH. split.
      * intros N [H | H]; [congruence | exact (N H)].
      * intros N H. apply N. right. exact H.
Qed.

Lemma keys_put (d : dict V) (k : str) (v : V) :
  map fst (dict_put d k v)
  = if dict_mem d k then map fst d else map fst d ++ [k].
Proof.
  unfold dict_mem. induction d as [|[k' v'] d IH]; cbn [dict_put assoc map fst].
  - reflexivity.
  - destruct (str_eqb k k') eqn:E; cbn [map fst].
    + apply str_eqb_eq in E. subst k'. reflexivity.
    + rewrite IH. destruct (assoc k d); reflexivity.
Qed.

Lemma NoDup_put (d : dict V) (k : str) (v : V) :
  NoDup (map fst d) -> NoDup (map fst (dict_put d k v)).
Proof.
  intros N. rewrite keys_put. unfold dict_mem.
  destruct (assoc k d) eqn:A; [exact N|].
  apply assoc_None_keys in A.
  apply NoDup_app; [exact N | repeat constructor; intros [] |].
  intros x Hx [<- | []]. exact (A Hx).
Qed.

End Dict.

Section Feature.

Variable V : Type.
Variable of_key : str -> V.
Variable extract : str -> str -> V.

Let put_mapped (d : dict V) (m : str * str) : dict V :=
  let (human_name, jira_id) := m in
  dict_put d human_name (extract jira_id human_name).

Let put_standard (d : dict V) (sf : str) : dict V :=
  if negb (dict_mem d sf) then dict_put d sf (extract sf sf) else d.

Lemma fold_mapped (m : dict str) :
  NoDup (map fst m) ->
  forall d : dict V,
    (forall h id, In (h, id) m ->
       assoc h (fold_left put_mapped m d) = Some (extract id h))
    /\ (forall k, ~ In k (map fst m) ->
          assoc k (fold_left put_mapped m d) = assoc k d)
    /\ (NoDup (map fst d) -> NoDup (map fst (fold_left put_mapped m d))).
Proof.
  induction m as [|[h0 id0] m IH]; intros N d; cbn [fold_left map fst In].
  - split; [intros h id []|]. split; [reflexivity | auto].
  - inversion N as [|? ? N1 N2]; subst.
    destruct (IH N2 (put_mapped d (h0, id0))) as (A & B & C).
    split; [|split].
    + intros h id [[= <- <-] | H]; [|apply A; exact H].
      rewrite B by exact N1. apply assoc_put_same.
    + intros k Hk. rewrite B by (intros H; apply Hk; right; exact H).
      apply assoc_put_other. intros ->. apply Hk. left. reflexivity.
    + intros Nd. apply C. apply NoDup_put. exact Nd.
Qed.

Lemma fold_standard (sfs : list str) :
  forall d : dict V,
    (forall k, dict_mem d k = true ->
       assoc k (fold_left put_standard sfs d) = assoc k d)
    /\ (forall sf, In sf sfs -> dict_mem d sf = false ->
          assoc sf (fold_left put_standard sfs d) = Some (extract sf sf))
    /\ (forall k, ~ In k sfs ->
          assoc k (fold_left put_standard sfs d) = assoc k d)
    /\ (NoDup (map fst d) -> NoDup (map fst (fold_left put_standard sfs d))).
Proof.
  induction sfs as [|s sfs IH]; intros d; cbn [fold_left In].
  - split; [reflexivity|]. split; [intros sf []|]. split; [reflexivity | auto].
  - destruct (IH (put_standard d s)) as (A & B & C & D).
    assert (Same : forall k, dict_mem d k = true ->
              assoc k (put_standard d s) = assoc k d
              /\ dict_mem (put_standard d s) k = true).
    { intros k Hk. unfold put_standard.
      destruct (dict_mem d s) eqn:M; cbn [negb]; [auto|].
      assert (k <> s) by (intros ->; congruence).
      unfold dict_mem in *. rewrite assoc_put_other by assumption. auto. }
    split; [|split; [|split]].
    + intros k Hk. destruct (Same k Hk) as [S1 S2]. rewrite A by exact S2.
      exact S1.
    + intros sf [<- | Hin] M.
      * assert (P : assoc s (put_standard d s) = Some (extract s s)).
        { unfold put_standard. rewrite M. cbn [negb]. apply assoc_put_same. }
        rewrite A; [exact P|]. unfold dict_mem. rewrite P. reflexivity.
      * destruct (str_eq_dec sf s) as [-> | Hne].
        -- assert (P : assoc s (put_standard d s) = Some (extract s s)).
           { unfold put_standard. rewrite M. cbn [negb]. apply assoc_put_same. }
           rewrite A; [exact P|]. unfold dict_mem. rewrite P. reflexivity.
        -- apply B; [exact Hin|]. unfold put_standard, dict_mem in *.
           destruct (assoc s d); cbn [negb]; [exact M|].
           rewrite assoc_put_other by exact Hne. exact M.
    + intros k Hk. rewrite C by (intros H; apply Hk; right; exact H).
      unfold put_standard. destruct (dict_mem d s); cbn [negb]; [reflexivity|].
      apply assoc_put_other. intros ->. apply Hk. left. reflexivity.
    + intros Nd. apply D. unfold put_standard.
      destruct (dict_mem d s); cbn [negb]; [exact Nd|]. apply NoDup_put. exact Nd.
Qed.

(** The record that [get_feature_issues] and [get_feature_by_key] make of
    an issue (lines 163-171 and 201-206): every name of the mapping holds
    the value of the field it is mapped to, every standard field that is not
    a name of the mapping holds its own value, and the key of the issue is
    there unless the mapping has a name [key], which then takes its place.
    No name occurs twice. *)
Theorem issue_details_lookup (key : str) (field_mapping : dict str) :
  NoDup (map fst field_mapping) ->
  let details := issue_details of_key extract key field_mapping in
  (forall human_name jira_id,
     In (human_name, jira_id) field_mapping ->
     dict_get details human_name = Some (extract jira_id human_name))
  /\ (forall sf,
        In sf standard_fields -> dict_mem field_mapping sf = false ->
        dict_get details sf = Some (extract sf sf))
  /\ (dict_mem field_mapping (L "key") = false ->
      dict_get details (L "key") = Some (of_key key))
  /\ NoDup (map fst details)
  /\ (forall k, dict_mem details k = true
                <-> k = L "key" \/ In k (map fst field_mapping)
                    \/ In k standard_fields).
Proof.
  intros N details. subst details. unfold issue_details, dict_get.
  fold put_mapped. fold put_standard.
  set (d0 := [(L "key", of_key key)]).
  destruct (@fold_mapped field_mapping N d0) as (A & B & C).
  set (d1 := fold_left put_mapped field_mapping d0) in *.
  destruct (fold_standard standard_fields d1) as (P & Q & R & S).
  set (d2 := fold_left put_standard standard_fields d1) in *.
  assert (K0 : ~ In (L "key") standard_fields).
  { unfold standard_fields. intros H.
    repeat (destruct H as [H | H]; [discriminate H|]). exact H. }
  assert (M1 : forall k, dict_mem d1 k = true
                         <-> k = L "key" \/ In k (map fst field_mapping)).
  { intros k. unfold dict_mem.
    destruct (in_dec str_eq_dec k (map fst field_mapping)) as [I | I].
    - apply in_map_iff in I as ([h id] & <- & I'). cbn [fst].
      rewrite (A h id I'). split; [intros _; right; apply in_map_iff; exists (h, id); auto | reflexivity].
    - rewrite B by exact I. subst d0. cbn [assoc].
      destruct (str_eqb k (L "key")) eqn:E.
      + apply str_eqb_eq in E. split; [auto | reflexivity].
      + apply str_eqb_neq in E. split; [discriminate|].
        intros [H | H]; [congruence | contradiction]. }
  split; [|split; [|split; [|split]]].
  - intros h id Hin. rewrite P; [apply A; exact Hin|].
    apply M1. right. apply in_map_iff. exists (h, id). auto.
  - intros sf Hin Hm. apply Q; [exact Hin|].
    destruct (dict_mem d1 sf) eqn:E; [|reflexivity].
    apply M1 in E as [-> | E]; [contradiction|].
    unfold dict_mem in Hm. destruct (assoc sf field_mapping) eqn:F; [discriminate|].
    apply assoc_None_keys in F. contradiction.
  - intros Hm. rewrite R by exact K0. rewrite B.
    + subst d0. cbn [assoc]. rewrite str_eqb_refl. reflexivity.
    + unfold dict_mem in Hm.
      destruct (assoc (L "key") field_mapping) eqn:F; [discriminate|].
      apply assoc_None_keys in F. exact F.
  - apply S. apply C. subst d0. cbn [map fst]. repeat constructor. intros [].
  - intros k. destruct (dict_mem d1 k) eqn:E1.
    + assert (E2 : dict_mem d2 k = true)
        by (unfold dict_mem in *; rewrite P by exact E1; exact E1).
      rewrite E2. split; [intros _|reflexivity].
      apply M1 in E1 as [E1 | E1]; auto.
    + destruct (in_dec str_eq_dec k standard_fields) as [I | I].
      * assert (E2 : dict_mem d2 k = true)
          by (unfold dict_mem; rewrite (Q k I E1); reflexivity).
        rewrite E2. split; [auto | reflexivity].
      * assert (E2 : dict_mem d2 k = false)
          by (unfold dict_mem in *; rewrite R by exact I; exact E1).
        rewrite E2. split; [discriminate|].
        intros [H | [H | H]]; [| | contradiction].
        -- assert (X : dict_mem d1 k = true) by (apply M1; auto). congruence.
        -- assert (X : dict_mem d1 k = true) by (apply M1; auto). congruence.
Qed.

End Feature.

Lemma issue_details_lookup_witness :
  dict_get
    (issue_details (fun k => k) (fun id name => id ++ L "/" ++ name) (L "P-1")
       [(L "summary", L "customfield_1"); (L "Owner", L "assignee")])
    (L "summary")
  = Some (L "customfield_1/summary").
Proof.
  refine (proj1 (@issue_details_lookup str (fun k => k)
                   (fun id name => id ++ L "/" ++ name) (L "P-1")
                   [(L "summary", L "customfield_1"); (L "Owner", L "assignee")] _)
            (L "summary") (L "customfield_1") _).
  - repeat constructor; cbn [In]; intros H;
      repeat (destruct H as [H | H]; [discriminate H|]); exact H.
  - left. reflexivity.
Defined.


(* ================================================================= *)
(** * The fields asked of the tracker *)

Lemma str_in_spec (x : str) (l : list str) : str_in x l = true <-> In x l.
Proof.
  unfold str_in. rewrite existsb_exists. split.
  - intros (y & Hy & E). apply str_eqb_eq in E. subst y. exact Hy.
  - intros H. exists x. split; [exact H | apply str_eqb_refl].
Qed.

Section Retrieve.

Variable field_mapping : dict str.

Let step (fields : list str) (sf : str) : list str :=
  if negb (str_in sf fields) && negb (dict_mem field_mapping sf)
  then fields ++ [sf] else fields.

Lemma fold_step (sfs : list str) :
  forall acc,
    exists added,
      fold_left step sfs acc = acc ++ added
      /\ NoDup added
      /\ Forall (fun sf => In sf sfs /\ ~ In sf acc
                           /\ dict_mem field_mapping sf = false) added
      /\ forall sf, In sf sfs ->
           In sf (acc ++ added) \/ dict_mem field_mapping sf = true.
Proof.
  induction sfs as [|s sfs IH]; intros acc; cbn [fold_left].
  - exists []. rewrite app_nil_r. repeat split; [constructor | constructor|].
    intros sf [].
  - destruct (IH (step acc s)) as (added & E & N & F & C).
    unfold step in *.
    destruct (str_in s acc) eqn:I; cbn [negb andb] in *.
    + apply str_in_spec in I. exists added. split; [exact E|]. split; [exact N|].
      split.
      * eapply Forall_impl; [|exact F]. intros sf (A & B & D).
        split; [right; exact A | auto].
      * intros sf [<- | H]; [left; apply in_or_app; left; exact I | apply C; exact H].
    + assert (I' : ~ In s acc)
        by (intros H; apply str_in_spec in H; congruence).
      destruct (dict_mem field_mapping s) eqn:M; cbn [negb] in *.
      * exists added. split; [exact E|]. split; [exact N|]. split.
        -- eapply Forall_impl; [|exact F]. intros sf (A & B & D).
           split; [right; exact A | auto].
        -- intros sf [<- | H]; [right; exact M | apply C; exact H].
      * exists (s :: added). rewrite E, <- app_assoc. cbn [app].
        split; [reflexivity|]. split.
        { constructor; [|exact N]. intros H. rewrite Forall_forall in F.
          destruct (F s H) as (_ & B & _). apply B. apply in_or_app. right.
          left. reflexivity. }
        split.
        { constructor; [split; [left; reflexivity | auto]|].
          eapply Forall_impl; [|exact F]. intros sf (A & B & D).
          split; [right; exact A|]. split; [|exact D].
          intros H. apply B. apply in_or_app. left. exact H. }
        intros sf [<- | H].
        { left. apply in_or_app. right. left. reflexivity. }
        destruct (C sf H) as [K | K]; [|right; exact K].
        left. rewrite <- app_assoc in K. exact K.
Qed.

(** The fields asked of the tracker for a feature (lines 152-157 and
    193-197): the ids of the mapping, in its order, followed by standard
    fields, none of them twice, that are neither among those ids nor names
    of the mapping.  Every field that the record of the issue is read from
    is among them: the ids of the mapping, and each standard field that is
    not a name of the mapping. *)
Theorem fields_to_retrieve_cover :
  let fields := jira_fields_to_retrieve field_mapping in
  (exists added,
     fields = map snd field_mapping ++ added
     /\ NoDup added
     /\ Forall (fun sf => In sf standard_fields
                          /\ ~ In sf (map snd field_mapping)
                          /\ dict_mem field_mapping sf = false) added)
  /\ (forall human_name jira_id,
        In (human_name, jira_id) field_mapping -> In jira_id fields)
  /\ (forall sf, In sf standard_fields ->
        dict_mem field_mapping sf = false -> In sf fields).
Proof.
  intros fields. subst fields. unfold jira_fields_to_retrieve. fold step.
  destruct (fold_step standard_fields (map snd field_mapping))
    as (added & E & N & F & C).
  rewrite E. split; [exists added; auto|]. split.
  - intros h id H. apply in_or_app. left. apply in_map_iff. exists (h, id). auto.
  - intros sf H M. destruct (C sf H) as [K | K]; [exact K | congruence].
Qed.

End Retrieve.


(* ================================================================= *)
(** * Blocks that are not parsed as they are meant *)

Section Unparsed.

Variables (srv : Server) (env : Env) (user : str).


End Unparsed.

Lemma search_intro (p : str -> bool) (s : str) (i : nat) :
  p (skipn i s) = true ->
  (forall j, j < i -> p (skipn j s) = false) ->
  search p s = Some i.
Proof.
  revert i; induction s as [|c s IH]; intros i H Hmin.
  - cbn [search]. rewrite skipn_nil in H. rewrite H.
    destruct i; [reflexivity|]. specialize (Hmin 0 ltac:(lia)).
    cbn [skipn] in Hmin. congruence.
  - cbn [search]. destruct i as [|i].
    + cbn [skipn] in H. rewrite H. reflexivity.
    + pose proof (Hmin 0 ltac:(lia)) as H0. cbn [skipn] in H0. rewrite H0.
      rewrite (IH i); [reflexivity | exact H |].
      intros j Hj. apply (Hmin (S j)). lia.
Qed.

Lemma lower_skipn (n : nat) (s : str) : lower (skipn n s) = skipn n (lower s).
Proof. unfold lower. symmetry. apply skipn_map. Qed.

Lemma startswith_prefix (s p q : str) :
  startswith s (p ++ q) = true -> startswith s p = true.
Proof.
  intros H. apply startswith_true in H as [r ->]. rewrite <- app_assoc.
  apply startswith_app.
Qed.

Lemma lstrip_keeps (a b : str) (c : ascii) :
  isspace c = false -> exists z, lstrip (a ++ c :: b) = z ++ c :: b.
Proof.
  intros Hc. induction a as [|x a [z IH]]; cbn [app lstrip].
  - rewrite Hc. exists []. reflexivity.
  - destruct (isspace x); [exists z; exact IH|]. exists (x :: a). reflexivity.
Qed.

(** No acceptance label starts in [x] when it is followed by the heading
    of the template and holds no label itself. *)
Lemma no_label_before_heading (x y : str) (j : nat) :
  find (lower x) (L "acceptance criteria") = None ->
  j < length x + 2 ->
  ac_label (skipn j (x ++ L "**Acceptance Criteria:**" ++ y)) = None.
Proof.
  intros Hx Hj. unfold ac_label.
  destruct (Nat.lt_ge_cases j (length x)) as [Hlt | Hge].
  - rewrite skipn_app_lt by lia.
    set (a := skipn j x). set (rest := L "**Acceptance Criteria:**" ++ y).
    assert (La : 0 < length a) by (unfold a; rewrite length_skipn; lia).
    assert (Na : forall q, startswith (lower a) (L "acceptance criteria" ++ q) = false).
    { intros q. destruct (startswith (lower a) (L "acceptance criteria" ++ q)) eqn:E;
        [|reflexivity].
      apply startswith_prefix in E. unfold a in E. rewrite lower_skipn in E.
      rewrite (find_None _ _ Hx j) in E. discriminate. }
    unfold lower at 1 2. rewrite !map_app. fold (lower a). fold (lower rest).
    destruct (startswith (lower a ++ lower rest) (L "acceptance criteria:")) eqn:E1.
    { exfalso. apply startswith_app_cases in E1 as [E1 | (Hl & _ & Hy)].
      - exact (eq_true_false_abs _ E1 (Na (L ":"))).
      - unfold lower in Hl, Hy. rewrite length_map in Hl, Hy.
        remember (length a) as n eqn:En. clear En.
        change (n < 20) in Hl.
        destruct n as [|n]; [lia|].
        do 19 (destruct n as [|n]; [vm_compute in Hy; discriminate Hy|]).
        lia. }
    destruct (startswith (lower a ++ lower rest) (L "acceptance criteria**:")) eqn:E2;
      [|reflexivity].
    exfalso. apply startswith_app_cases in E2 as [E2 | (Hl & _ & Hy)].
    + exact (eq_true_false_abs _ E2 (Na (L "**:"))).
    + unfold lower in Hl, Hy. rewrite length_map in Hl, Hy.
      remember (length a) as n eqn:En. clear En.
      change (n < 22) in Hl.
      destruct n as [|n]; [lia|].
      do 21 (destruct n as [|n]; [vm_compute in Hy; discriminate Hy|]).
      lia.
  - replace j with ((j - length x) + length x) by lia.
    rewrite <- skipn_skipn, skipn_app_length.
    destruct (j - length x) as [|[|k]] eqn:K; [reflexivity | reflexivity | lia].
Qed.

(** An acceptance heading written as in the template of the pending log,
    with the colon inside the asterisks, is not taken in whole by the
    pattern that reads the criteria: the two asterisks after the colon are
    read as the start of the criteria, and go with them into the description
    of the issue and into the committed log. *)
Theorem acceptance_heading_stars (x y : str) :
  find (lower x) (L "acceptance criteria") = None ->
  let e := x ++ L "**Acceptance Criteria:**" ++ y in
  dict_get (parsed_fields e) (L "acceptance_criteria")
  = Some (strip (L "**" ++ y))
  /\ exists r, strip (L "**" ++ y) = L "**" ++ r.
Proof.
  intros Hx e.
  assert (A : ac_block e = Some (L "**" ++ y)).
  { unfold ac_block.
    rewrite (@search_intro _ e (length x + 2)).
    - unfold e. rewrite Nat.add_comm, <- skipn_skipn, skipn_app_length.
      reflexivity.
    - unfold e. rewrite Nat.add_comm, <- skipn_skipn, skipn_app_length.
      reflexivity.
    - intros j Hj. unfold e. rewrite (no_label_before_heading _ _ Hx Hj).
      reflexivity. }
  split.
  - unfold parsed_fields. rewrite A.
    destruct (after_label e (L "draft summary:")) as [r1|];
      destruct (after_label e (L "type:")) as [r2|];
      destruct (after_label e (L "user:")) as [r3|];
      destruct (description_block e) as [g4|];
      try destruct (after_label e (L "description:")) as [g4'|];
      reflexivity.
  - unfold strip. change (lstrip (L "**" ++ y)) with (L "**" ++ y).
    unfold rstrip.
    change (rev (L "**" ++ y)) with (rev ("*"%char :: "*"%char :: y)).
    cbn [rev]. rewrite <- app_assoc. cbn [app].
    destruct (@lstrip_keeps (rev y) ["*"%char] "*"%char eq_refl) as [z Hz].
    rewrite Hz. rewrite rev_app_distr. cbn [rev app]. eexists. reflexivity.
Qed.


Lemma acceptance_heading_stars_witness :
  dict_get
    (parsed_fields
       (Ln "**Draft Summary:** First" ++ L "**Acceptance Criteria:**"
        ++ [NL] ++ L "- one"))
    (L "acceptance_criteria")
  = Some (strip (L "**" ++ [NL] ++ L "- one")).
Proof.
  refine (proj1 (@acceptance_heading_stars (Ln "**Draft Summary:** First")
                   ([NL] ++ L "- one") _)).
  vm_compute. reflexivity.
Defined.


(* ================================================================= *)
(** * The issues created and the records written *)

Create HintDb no_story.

Section NoStory.

Lemma no_story_here (w : World) :
  exists evs, events w = events w ++ evs
              /\ Forall (fun ev => story_requested ev = false) evs.
Proof. exists []. rewrite app_nil_r. split; [reflexivity | constructor]. Qed.

Lemma no_story_emit (ev : Event) (w : World) :
  story_requested ev = false ->
  exists evs, events (emit ev w) = events w ++ evs
              /\ Forall (fun ev => story_requested ev = false) evs.
Proof.
  intros H. exists [ev]. split; [reflexivity|].
  constructor; [exact H | constructor].
Qed.

Lemma no_story_then (w1 w2 w3 : World) :
  (exists evs, events w2 = events w1 ++ evs
               /\ Forall (fun ev => story_requested ev = false) evs) ->
  (exists evs, events w3 = events w2 ++ evs
               /\ Forall (fun ev => story_requested ev = false) evs) ->
  exists evs, events w3 = events w1 ++ evs
              /\ Forall (fun ev => story_requested ev = false) evs.
Proof.
  intros (e1 & E1 & F1) (e2 & E2 & F2). exists (e1 ++ e2).
  rewrite E2, E1, app_assoc. split; [reflexivity|].
  apply Forall_app. split; assumption.
Qed.

Lemma no_story_ret (A : Type) (a : A) : no_story (ret a).
Proof. intros w r w' [= <- <-]. apply no_story_here. Qed.

Lemma no_story_bind (A B : Type) (m : M A) (k : A -> M B) :
  no_story m -> (forall a, no_story (k a)) -> no_story (bind m k).
Proof.
  intros Hm Hk w r w' H. unfold bind in H.
  destruct (m w) as [[a|e] w1] eqn:E.
  - eapply no_story_then; [eapply Hm; exact E | eapply Hk; exact H].
  - injection H as <- <-. eapply Hm; exact E.
Qed.

Lemma no_story_try_except (A : Type) (m : M A) (h : exn -> M A) :
  no_story m -> (forall e, no_story (h e)) -> no_story (try_except m h).
Proof.
  intros Hm Hh w r w' H. unfold try_except in H.
  destruct (m w) as [[a|e] w1] eqn:E.
  - injection H as <- <-. eapply Hm; exact E.
  - eapply no_story_then; [eapply Hm; exact E | eapply Hh; exact H].
Qed.

Lemma no_story_while_true (A : Type) (n : nat) (body : M (option A)) :
  no_story body -> no_story (while_true n body).
Proof.
  intros Hb. induction n as [|n IH]; intros w r w' H; simpl in H;
    destruct (body w) as [[[a|]|e] w1] eqn:E.
  - injection H as <- <-. eapply Hb; exact E.
  - injection H as <- <-. eapply Hb; exact E.
  - injection H as <- <-. eapply Hb; exact E.
  - injection H as <- <-. eapply Hb; exact E.
  - eapply no_story_then; [eapply Hb; exact E | eapply IH; exact H].
  - injection H as <- <-. eapply Hb; exact E.
Qed.

Lemma no_story_while_input (A : Type) (body : M (option A)) :
  no_story body -> no_story (while_input body).
Proof.
  intros Hb w r w' H. unfold while_input in H.
  eapply no_story_while_true; eassumption.
Qed.

Lemma no_story_input (prompt : str) : no_story (input prompt).
Proof.
  intros w r w' H. unfold input in H. destruct (stdin w) as [|l rest].
  - injection H as <- <-. apply no_story_emit. reflexivity.
  - injection H as <- <-. exists [EvInput prompt (Some l)].
    split; [reflexivity | repeat constructor].
Qed.

Lemma no_story_log (level : Level) (msg : str) : no_story (log level msg).
Proof. intros w r w' [= <- <-]. apply no_story_emit. reflexivity. Qed.

Lemma no_story_connect (srv : Server) : no_story (connect srv).
Proof. intros w r w' [= <- <-]. apply no_story_emit. reflexivity. Qed.

Lemma no_story_search_issues (srv : Server) (jql : str) :
  no_story (search_issues srv jql).
Proof. intros w r w' [= <- <-]. apply no_story_emit. reflexivity. Qed.

Lemma no_story_project_versions (srv : Server) (k : str) :
  no_story (project_versions srv k).
Proof. intros w r w' [= <- <-]. apply no_story_emit. reflexivity. Qed.

Lemma no_story_transitions (srv : Server) (k : str) :
  no_story (transitions srv k).
Proof. intros w r w' [= <- <-]. apply no_story_emit. reflexivity. Qed.

Lemma no_story_transition_issue (srv : Server) (k t : str) :
  no_story (transition_issue srv k t).
Proof. intros w r w' [= <- <-]. apply no_story_emit. reflexivity. Qed.

(** A request whose type is not that of a Story. *)
Lemma no_story_create_issue (srv : Server) (fields : dict FieldValue) :
  story_requested (EvCreateIssue fields None) = false ->
  no_story (create_issue srv fields).
Proof.
  intros G w r w' [= <- <-]. apply no_story_emit. exact G.
Qed.

End NoStory.

#[export] Hint Resolve no_story_ret no_story_input no_story_log no_story_connect
  no_story_search_issues no_story_project_versions no_story_transitions
  no_story_transition_issue : no_story.

Ltac no_story_steps :=
  repeat first
    [ progress eauto with no_story
    | apply no_story_bind; [|intros]
    | apply no_story_try_except; [|intros]
    | apply no_story_while_input
    | match goal with
      | |- no_story (if ?b then _ else _) => destruct b
      | |- no_story (match ?x with _ => _ end) => destruct x
      | |- no_story (let '(_, _) := ?x in _) => destruct x
      end ].

Section Stories.

Variables (srv : Server) (env : Env).

Lemma no_story_get_user_input (p : str) (d : option str) :
  no_story (get_user_input p d).
Proof. unfold get_user_input. no_story_steps. Qed.

Lemma no_story_get_project_epics (k : str) : no_story (get_project_epics srv k).
Proof. unfold get_project_epics. no_story_steps. Qed.

Lemma no_story_get_stories_in_epic (k e : str) :
  no_story (get_stories_in_epic srv k e).
Proof. unfold get_stories_in_epic. no_story_steps. Qed.

Lemma no_story_get_project_versions (k : str) :
  no_story (get_project_versions srv k).
Proof. unfold get_project_versions. no_story_steps. Qed.

Lemma no_story_transition_jira_issue (k t : str) :
  no_story (transition_jira_issue srv k t).
Proof. unfold transition_jira_issue. no_story_steps. Qed.

Lemma no_story_create_jira_epic (a b c d : str) (e : option str)
    (f g : option (list str)) :
  no_story (create_jira_epic srv env a b c d e f g).
Proof.
  unfold create_jira_epic.
  apply no_story_try_except; [|intros; apply no_story_ret].
  apply no_story_bind; [apply no_story_connect | intros _].
  apply no_story_bind; [|intros; apply no_story_ret].
  apply no_story_create_issue. unfold story_requested.
  destruct e as [e0|]; [destruct (truthy e0)|];
    destruct f as [[|f0 f]|]; destruct g as [[|g0 g]|];
    destruct (dict_get (environ env) (L "JIRA_EPIC_NAME_FIELD_ID")) as [n|];
    try destruct (truthy n);
    repeat (rewrite dict_get_set;
            match goal with
            | |- context [str_eqb (L "issuetype") ?key] =>
                destruct (str_eqb (L "issuetype") key); [reflexivity|]
            end);
    reflexivity.
Qed.

Hint Resolve no_story_get_user_input no_story_get_project_epics
  no_story_get_stories_in_epic no_story_get_project_versions
  no_story_transition_jira_issue no_story_create_jira_epic : no_story.

Lemma no_story_select_fix_versions (vs : list (str * str)) :
  no_story (select_fix_versions vs).
Proof. unfold select_fix_versions. no_story_steps. Qed.

Hint Resolve no_story_select_fix_versions : no_story.

Lemma no_story_create_new_epic (r : str) : no_story (create_new_epic srv env r).
Proof. unfold create_new_epic. no_story_steps. Qed.

Lemma no_story_no_epics_found (r : str) : no_story (no_epics_found srv env r).
Proof. unfold no_epics_found. no_story_steps. Qed.

Hint Resolve no_story_create_new_epic no_story_no_epics_found : no_story.

Lemma no_story_choose_epic (r : str) (epics : list (str * str)) :
  no_story (choose_epic srv env r epics).
Proof. unfold choose_epic. no_story_steps. Qed.

Hint Resolve no_story_choose_epic : no_story.

Lemma no_story_epic_handling (r : str) : no_story (epic_handling srv env r).
Proof. unfold epic_handling. no_story_steps. Qed.

Lemma no_story_duplicate_check (k : option str) (n s t : str) :
  no_story (duplicate_check srv k n s t).
Proof. unfold duplicate_check. no_story_steps. Qed.

Hint Resolve no_story_epic_handling no_story_duplicate_check : no_story.

Lemma no_story_confirm_and_resolve_epic (d : dict str) (u : UserDetails) :
  no_story (confirm_and_resolve_epic srv env d u).
Proof. unfold confirm_and_resolve_epic. no_story_steps. Qed.

Lemma no_story_parse_pending_entry (e : str) : no_story (parse_pending_entry e).
Proof. unfold parse_pending_entry. no_story_steps. Qed.

End Stories.

Section Records.

Variables (srv : Server) (env : Env).

Lemma filter_no_story (evs : list Event) :
  Forall (fun ev => story_requested ev = false) evs ->
  filter story_requested evs = [] /\ filter story_created evs = [].
Proof.
  induction 1 as [|ev evs H _ [IH1 IH2]]; [split; reflexivity|].
  simpl. rewrite H, IH1, IH2.
  assert (C : story_created ev = false).
  { destruct ev as [| | | | | f [k|] | | | | |]; try reflexivity.
    unfold story_created. rewrite H. reflexivity. }
  rewrite C. split; reflexivity.
Qed.

Lemma committed_entry_str_heading (n : str) (k : option str)
    (t i s status d a : str) :
  substr (L "### " ++ t ++ L ": " ++ i ++ L " - " ++ s
          ++ L " (Status: " ++ status ++ L ")" ++ [NL])
    (committed_entry_str n k t i s status d a).
Proof.
  unfold committed_entry_str.
  do 7 apply substr_skip. apply prefix_substr.
  do 9 apply prefix_skip.
  eexists. reflexivity.
Qed.

(** The request of [create_jira_issue]: one for a Story at most, with the
    summary of the entry. *)
Lemma create_jira_issue_story (p s t b r a : str) (k : option str) (w : World) :
  exists evs,
    events (snd (create_jira_issue srv p s t b r a k (L "Story") w))
    = events w ++ evs
    /\ length (filter story_requested evs) <= 1
    /\ match fst (create_jira_issue srv p s t b r a k (L "Story") w) with
       | Ok (Some key) =>
           exists fields,
             filter story_created evs
             = (if truthy key then [EvCreateIssue fields (Some key)] else [])
             /\ dict_get fields (L "summary") = Some (VStr s)
       | Ok None => filter story_created evs = []
       | Raise _ => False
       end.
Proof.
  unfold create_jira_issue, try_except, bind, connect, create_issue, ret.
  cbv beta.
  destruct (srv_connect srv (events w)); cbn [fst snd emit events].
  - match goal with
    | |- context [srv_create_issue srv ?e ?d] =>
        set (fields := d);
        assert (T : dict_get fields (L "issuetype") = Some (VName (L "Story")))
          by (subst fields; destruct k as [k0|]; [destruct (truthy k0)|];
              reflexivity);
        assert (S : dict_get fields (L "summary") = Some (VStr s))
          by (subst fields; destruct k as [k0|]; [destruct (truthy k0)|];
              reflexivity);
        destruct (srv_create_issue srv e fields) as [key|] eqn:C
    end; cbn [fst snd emit events].
    + exists [EvConnect true; EvCreateIssue fields (Some key)].
      rewrite <- app_assoc. split; [reflexivity|].
      cbn [filter story_requested story_created]. rewrite T. cbn [str_eqb].
      change (str_eqb (L "Story") (L "Story")) with true. cbn [andb length].
      split; [lia|]. exists fields. split; [|exact S].
      destruct (truthy key); reflexivity.
    + exists [EvConnect true; EvCreateIssue fields None].
      rewrite <- app_assoc. split; [reflexivity|].
      cbn [filter story_requested story_created]. rewrite T.
      change (str_eqb (L "Story") (L "Story")) with true. cbn [length].
      split; [lia | reflexivity].
  - exists [EvConnect false]. split; [reflexivity|].
    cbn. split; [lia | reflexivity].
Qed.

(** What [create_and_transition] asks of the tracker and what it returns. *)
Lemma create_and_transition_stories (r : str) (k : option str)
    (n t s d a : str) (w w' : World) (res : Result (bool * option str)) :
  create_and_transition srv r k n t s d a w = (res, w') ->
  exists evs,
    events w' = events w ++ evs
    /\ length (filter story_requested evs) <= 1
    /\ match res with
       | Ok (true, Some record) =>
           exists ev key status,
             filter story_created evs = [ev]
             /\ record_of record ev
             /\ record = committed_entry_str n k t key s status d a
       | Ok (true, None) => False
       | Ok (false, _) => filter story_created evs = []
       | Raise _ => False
       end.
Proof.
  unfold create_and_transition. intros H. unfold bind at 1 in H.
  match type of H with
  | context [create_jira_issue srv ?p ?s0 ?t0 ?b ?r0 ?a0 ?k0 _ w] =>
      destruct (create_jira_issue_story p s0 t0 b r0 a0 k0 w)
        as (evs1 & E1 & L1 & R1);
      destruct (create_jira_issue srv p s0 t0 b r0 a0 k0 (L "Story") w)
        as [[key|x] w1] eqn:C
  end; cbn [fst snd] in *; [|contradiction].
  assert (Failed : forall msg,
            filter story_created evs1 = [] ->
            exists evs,
              events (emit (EvLog ERROR msg) w1) = events w ++ evs
              /\ length (filter story_requested evs) <= 1
              /\ filter story_created evs = []).
  { intros msg R. exists (evs1 ++ [EvLog ERROR msg]).
    cbn [emit events]. rewrite E1, <- app_assoc. split; [reflexivity|].
    rewrite !filter_app, R. cbn [filter story_requested story_created].
    rewrite !app_nil_r. split; [exact L1 | reflexivity]. }
  destruct key as [key|].
  - destruct R1 as (fields & R1 & S1).
    destruct (truthy key) eqn:K.
    + unfold bind at 1 in H.
      destruct (transition_jira_issue_total srv key (L "Done") w1) as [ok0 T0].
      destruct (transition_jira_issue srv key (L "Done") w1)
        as [[ok|x] w2] eqn:T; cbn [fst] in T0; [clear T0 | discriminate].
      destruct (@no_story_transition_jira_issue srv key (L "Done") _ _ _ T)
        as (evs2 & E2 & F2).
      destruct (filter_no_story F2) as [Q2 C2].
      assert (G : forall status w3 evs3,
                 status = L "Done" \/ status = L "Open" ->
                 events w3 = events w2 ++ evs3 ->
                 Forall (fun ev => story_requested ev = false) evs3 ->
                 exists evs,
                   events w3 = events w ++ evs
                   /\ length (filter story_requested evs) <= 1
                   /\ exists ev key0 status0,
                        filter story_created evs = [ev]
                        /\ record_of
                             (committed_entry_str n k t key s status d a) ev
                        /\ committed_entry_str n k t key s status d a
                           = committed_entry_str n k t key0 s status0 d a).
      { intros status w3 evs3 St E3 F3.
        destruct (filter_no_story F3) as [Q3 C3].
        exists (evs1 ++ evs2 ++ evs3).
        rewrite E3, E2, E1, <- !app_assoc. split; [reflexivity|].
        rewrite !filter_app, Q2, Q3, C2, C3, R1, !app_nil_r.
        split; [exact L1|].
        exists (EvCreateIssue fields (Some key)), key, status.
        split; [reflexivity|]. split; [|reflexivity].
        exists fields, key, t, s, status.
        split; [reflexivity|]. split; [exact K|]. split; [exact S1|].
        split; [exact St|]. apply committed_entry_str_heading. }
      destruct ok.
      * unfold bind, ret in H. injection H as <- <-.
        apply (G (L "Done") w2 []); [left; reflexivity | | constructor].
        rewrite app_nil_r. reflexivity.
      * unfold bind, log, ret in H. injection H as <- <-.
        eapply G; [right; reflexivity | reflexivity |].
        constructor; [reflexivity | constructor].
    + unfold bind, log, ret in H. injection H as <- <-.
      apply Failed. exact R1.
  - unfold bind, log, ret in H. injection H as <- <-.
    apply Failed. exact R1.
Qed.

Lemma process_single_entry_stories (data : dict str) (u : UserDetails)
    (w w' : World) (res : Result (bool * option str)) :
  process_single_entry srv env data u w = (res, w') ->
  exists evs,
    events w' = events w ++ evs
    /\ length (filter story_requested evs) <= 1
    /\ match res with
       | Ok (true, Some record) =>
           exists ev,
             filter story_created evs = [ev]
             /\ record_of record ev
             /\ truthy record && negb (str_eqb record (L "skipped")) = true
       | Ok (true, None) => False
       | _ => filter story_created evs = []
       end.
Proof.
  unfold process_single_entry. intros H. unfold bind at 1 in H.
  destruct (confirm_and_resolve_epic srv env data u w) as [[c|x] w1] eqn:C.
  2:{ injection H as <- <-.
      destruct (@no_story_confirm_and_resolve_epic srv env data u _ _ _ C)
        as (evs & E & F).
      destruct (filter_no_story F) as [Q1 Q2].
      exists evs. rewrite Q1, Q2. repeat split; [exact E | simpl; lia]. }
  destruct (@no_story_confirm_and_resolve_epic srv env data u _ _ _ C)
    as (evs1 & E1 & F1).
  destruct (filter_no_story F1) as [Q1 C1].
  destruct c as [[[it k] n]|].
  2:{ unfold ret in H. injection H as <- <-.
      exists evs1. rewrite Q1, C1. repeat split; [exact E1 | simpl; lia]. }
  unfold bind at 1 in H.
  match type of H with
  | context [duplicate_check srv k n ?s it w1] =>
      destruct (duplicate_check srv k n s it w1) as [[go|x] w2] eqn:D;
      destruct (@no_story_duplicate_check srv k n s it _ _ _ D)
        as (evs2 & E2 & F2)
  end.
  2:{ injection H as <- <-. destruct (filter_no_story F2) as [Q2 C2].
      exists (evs1 ++ evs2). rewrite E2, E1, <- app_assoc.
      rewrite !filter_app, Q1, Q2, C1, C2.
      repeat split; simpl; lia. }
  destruct (filter_no_story F2) as [Q2 C2].
  destruct go.
  2:{ unfold ret in H. injection H as <- <-.
      exists (evs1 ++ evs2). rewrite E2, E1, <- app_assoc.
      rewrite !filter_app, Q1, Q2, C1, C2.
      repeat split; simpl; lia. }
  apply create_and_transition_stories in H as (evs3 & E3 & L3 & R3).
  exists (evs1 ++ evs2 ++ evs3).
  rewrite E3, E2, E1, <- !app_assoc. split; [reflexivity|].
  rewrite !filter_app, Q1, Q2, C1, C2. cbn [app]. split; [exact L3|].
  destruct res as [[[|] [record|]]|x]; try exact R3; try contradiction.
  destruct R3 as (ev & key & status & R3 & Rec & ->).
  exists ev. split; [exact R3|]. split; [exact Rec|].
  destruct (committed_entry_str_head n k it key
              (dict_get_default data (L "draft_summary") (L "No summary provided"))
              status
              (dict_get_default data (L "description") (L "Description to be added."))
              (dict_get_default data (L "acceptance_criteria")
                 (L "- Acceptance criteria to be added."))) as [rest ->].
  reflexivity.
Qed.

(** One round of the loop: one request for a Story at most, and a record
    for the issue that it created. *)
Lemma process_entry_stories (u : UserDetails) (e : str) (st st' : loop_state)
    (w w' : World) :
  process_entry srv env u e st w = (Ok st', w') ->
  exists evs recs,
    events w' = events w ++ evs
    /\ length (filter story_requested evs) <= 1
    /\ snd st' = snd st ++ recs
    /\ Forall2 record_of recs (filter story_created evs).
Proof.
  unfold process_entry. destruct st as [ps cs]. intros H.
  destruct (negb (truthy (strip e))).
  { unfold ret in H. injection H as <- <-. exists [], [].
    rewrite !app_nil_r. repeat split; [simpl; lia | constructor]. }
  unfold bind at 1 in H.
  destruct (parse_pending_entry e w) as [[data|x] w1] eqn:P; [|discriminate].
  destruct (@no_story_parse_pending_entry e _ _ _ P) as (evs1 & E1 & F1).
  destruct (filter_no_story F1) as [Q1 C1].
  assert (Kept : forall w2 evs2 ps2,
            events w2 = events w1 ++ evs2 ->
            length (filter story_requested evs2) <= 1 ->
            filter story_created evs2 = [] ->
            exists evs recs,
              events w2 = events w ++ evs
              /\ length (filter story_requested evs) <= 1
              /\ snd (ps2 : list (option str), cs) = cs ++ recs
              /\ Forall2 record_of recs (filter story_created evs)).
  { intros w2 evs2 ps2 E2 L2 C2. exists (evs1 ++ evs2), [].
    rewrite E2, E1, <- app_assoc, !filter_app, Q1, C1, C2, app_nil_r.
    repeat split; [exact L2 | constructor]. }
  destruct data as [|f data].
  { unfold bind, log, ret in H. injection H as <- <-.
    eapply (Kept _ [_]); [reflexivity | simpl; lia | reflexivity]. }
  unfold bind at 1 in H.
  destruct (process_single_entry srv env (f :: data) u w1)
    as [[[success rd]|x] w2] eqn:S; [|discriminate].
  apply process_single_entry_stories in S as (evs2 & E2 & L2 & R2).
  destruct success.
  - unfold ret in H. injection H as <- <-.
    destruct rd as [record|]; [|contradiction].
    destruct R2 as (ev & R2 & Rec & Tr). cbv beta iota.
    let v := eval cbv in (L "skipped") in change (L "skipped") with v in *.
    rewrite Tr.
    exists (evs1 ++ evs2), [record].
    rewrite E2, E1, <- app_assoc, !filter_app, Q1, C1, R2.
    repeat split; [exact L2 | repeat constructor; exact Rec].
  - destruct rd as [dd|].
    + destruct (str_eqb dd (L "skipped")).
      * unfold ret in H. injection H as <- <-. eapply Kept; eassumption.
      * unfold bind, log, ret in H. injection H as <- <-.
        destruct (Kept w2 evs2 ps E2 L2 R2) as (evs & recs & E & Le & Sn & Fa).
        exists (evs ++ [EvLog WARNING
                          (L "Failed to process entry for '"
                           ++ dict_get_default (f :: data) (L "draft_summary") (L "None")
                           ++ L "'. It will remain in pending.")]), recs.
        cbn [emit events snd]. rewrite E, <- app_assoc, !filter_app.
        cbn [filter story_requested story_created]. rewrite !app_nil_r.
        repeat split; assumption.
    + unfold bind, log, ret in H. injection H as <- <-.
      destruct (Kept w2 evs2 ps E2 L2 R2) as (evs & recs & E & Le & Sn & Fa).
      exists (evs ++ [EvLog WARNING
                        (L "Failed to process entry for '"
                         ++ dict_get_default (f :: data) (L "draft_summary") (L "None")
                         ++ L "'. It will remain in pending.")]), recs.
      cbn [emit events snd]. rewrite E, <- app_assoc, !filter_app.
      cbn [filter story_requested story_created]. rewrite !app_nil_r.
      repeat split; assumption.
Qed.

Lemma entries_loop_stories (u : UserDetails) (es : list str)
    (st st' : loop_state) (w w' : World) :
  entries_loop srv env u es st w = (Ok st', w') ->
  exists evs recs,
    events w' = events w ++ evs
    /\ length (filter story_requested evs) <= length es
    /\ snd st' = snd st ++ recs
    /\ Forall2 record_of recs (filter story_created evs).
Proof.
  revert st w. induction es as [|e es IH]; intros st w H; simpl in H.
  - unfold ret in H. injection H as <- <-. exists [], [].
    rewrite !app_nil_r. repeat split; [simpl; lia | constructor].
  - unfold bind in H.
    destruct (process_entry srv env u e st w) as [[st1|x] w1] eqn:P;
      [|discriminate].
    apply process_entry_stories in P as (evs1 & recs1 & E1 & L1 & S1 & F1).
    apply IH in H as (evs2 & recs2 & E2 & L2 & S2 & F2).
    exists (evs1 ++ evs2), (recs1 ++ recs2).
    rewrite E2, E1, S2, S1, <- !app_assoc, !filter_app, length_app.
    repeat split; [simpl; lia | apply Forall2_app; assumption].
Qed.

End Records.

Section RecordsOfRun.

Variables (srv : Server) (env : Env) (user : str).

(** The records that a run hands over to the committed log are, in order,
    those of the Stories that the tracker created in the run, one for each;
    as many entries are marked as committed; and no more Stories are asked
    for than there are entries. *)
Theorem records_match_created_issues (w w1 : World) (d : Locals) :
  main_entries srv env user w = (Ok (Some d), w1) ->
  let evs := new_events w w1 in
  Forall2 record_of (all_committed_entries_text d) (filter story_created evs)
  /\ committed_count (processed_successfully_texts d)
     = length (filter story_created evs)
  /\ length (filter story_requested evs) <= length (pending_entry_texts d).
Proof.
  intros Hrun evs.
  destruct (@main_entries_loop srv env user w w1 d Hrun) as [Hloop Hnb].
  destruct (@entries_loop_stories srv env _ _ _ _ _ _ Hloop)
    as (evs1 & recs & E & Le & Sn & Fa).
  destruct (@entries_loop_result srv env _ _ _ _ _ _ Hnb Hloop)
    as (slots & recs' & Hst & _ & Hc).
  injection Hst as Hs1 Hs2. cbn [fst snd app] in Hs1, Hs2, Sn.
  assert (Ev : evs = EvInput (reporter_prompt env) (hd_error (stdin w)) :: evs1).
  { unfold evs. apply new_events_app. rewrite E.
    unfold loop_start, input. destruct (stdin w) as [|l rest];
      cbn [snd emit events hd_error]; rewrite <- app_assoc; reflexivity. }
  rewrite Ev. cbn [filter story_created story_requested].
  rewrite Sn. split; [exact Fa|]. split.
  - rewrite Hs1, <- Hc, <- Hs2, Sn. eapply Forall2_length. exact Fa.
  - exact Le.
Qed.

End RecordsOfRun.

Lemma records_match_created_issues_witness :
  committed_count [Some ex_entry1; None]
  = length (filter story_created
              (new_events ex_world
                 (snd (main_entries ex_srv_stuck ex_env (L "Amy") ex_world)))).
Proof.
  refine (proj1 (proj2
            (@records_match_created_issues ex_srv_stuck ex_env (L "Amy")
               ex_world
               (snd (main_entries ex_srv_stuck ex_env (L "Amy") ex_world))
               {| PENDING_FILE_PATH := ex_pending;
                  COMMITTED_FILE_PATH := ex_committed;
                  template_section := ex_template;
                  pending_entry_texts := [ex_entry1; ex_entry2];
                  processed_successfully_texts := [Some ex_entry1; None];
                  all_committed_entries_text :=
                    committed_records ex_srv_stuck ex_env (L "Amy") ex_world |}
               _))).
  vm_compute. reflexivity.
Defined.


(* ================================================================= *)
(** * The Epic of an entry *)

Section EpicHandling.

Variables (srv : Server) (env : Env).

(** [get_project_epics] when the tracker fails: the empty list, as for a
    project without Epics. *)
Lemma get_project_epics_failed (p : str) (w : World) :
  srv_connect srv (events w) = false
  \/ srv_search_issues srv (events w ++ [EvConnect true]) (epics_jql p) = None ->
  exists tracker,
    get_project_epics srv p w
    = (Ok [], {| stdin := stdin w; events := events w ++ tracker; fs := fs w |})
    /\ (tracker = [EvConnect false]
        \/ tracker = [EvConnect true; EvSearchIssues (epics_jql p) None]).
Proof.
  intros H.
  unfold get_project_epics, try_except, bind, connect, search_issues, ret.
  fold (epics_jql p).
  destruct (srv_connect srv (events w)) eqn:C; cbn [fst snd emit events stdin fs].
  - destruct H as [H | H]; [discriminate|]. rewrite H.
    cbn [fst snd emit events stdin fs].
    exists [EvConnect true; EvSearchIssues (epics_jql p) None].
    split; [|right; reflexivity].
    unfold emit. cbn [stdin events fs]. rewrite <- app_assoc. reflexivity.
  - eexists. split; [reflexivity | left; reflexivity].
Qed.

(** A question put to a closed console. *)
Lemma get_user_input_closed (p : str) (d : option str) (w : World) :
  stdin w = [] ->
  exists w', get_user_input p d w = (Raise EOFError, w').
Proof.
  intros S. unfold get_user_input, bind, input.
  destruct d; rewrite S; eexists; reflexivity.
Qed.

(** The Epic handling (lines 163-284) never gives an entry up: it ends
    with an Epic or without one, or with the end of the input.  A tracker
    that fails to list the Epics is taken for a project without Epics: the
    operator is asked whether to create one, and an answer that is not a yes
    lets the entry go on without an Epic. *)
Theorem epic_handling_outcomes (r : str) (w : World) :
  fst (epic_handling srv env r w) <> Ok None
  /\ (forall line rest,
        stdin w = line :: rest ->
        srv_connect srv (events w) = false
        \/ srv_search_issues srv (events w ++ [EvConnect true])
             (epics_jql JIRA_PROJECT_KEY) = None ->
        declines (L "yes") line = true ->
        exists tracker,
          epic_handling srv env r w
          = (Ok (Some (None, NA)),
             {| stdin := rest;
                events :=
                  events w ++ tracker
                  ++ [EvInput
                        (L "No Epics found. Create a new Epic? (yes/no)"
                         ++ L " (Press Enter to accept: '" ++ L "yes"
                         ++ L "') [" ++ L "yes" ++ L "]: ")
                        (Some line)];
                fs := fs w |})
          /\ (tracker = [EvConnect false]
              \/ tracker
                 = [EvConnect true;
                    EvSearchIssues (epics_jql JIRA_PROJECT_KEY) None])).
Proof.
  split.
  - unfold epic_handling, try_except.
    match goal with
    | |- context [match ?body w with _ => _ end] =>
        assert (A : at_eof body);
        [| destruct (body w) as [[o|e] w1] eqn:B ]
    end.
    + apply at_eof_bind; [apply at_eof_get_project_epics | intros epics].
      apply at_eof_bind; [|intros; apply at_eof_ret].
      destruct epics; [apply at_eof_no_epics_found | apply at_eof_choose_epic].
    + cbn [fst]. intros N. injection N as ->.
      unfold bind in B.
      destruct (get_project_epics srv JIRA_PROJECT_KEY w) as [[epics|x] w0];
        [|discriminate].
      destruct (match epics with
                | [] => no_epics_found srv env r
                | _ :: _ => choose_epic srv env r epics
                end w0) as [[c|x] w2]; discriminate.
    + destruct (A _ _ _ B) as [_ S].
      unfold bind at 1. unfold log. unfold bind at 1.
      match goal with
      | |- context [get_user_input ?p ?d ?w0] =>
          destruct (@get_user_input_closed p d w0 S) as (w' & ->)
      end.
      discriminate.
  - intros line rest Hin Hfail Hno.
    destruct (get_project_epics_failed JIRA_PROJECT_KEY w Hfail)
      as (tracker & G & T).
    exists tracker. split; [|exact T].
    unfold epic_handling, try_except. unfold bind at 1. rewrite G.
    unfold bind at 1. unfold no_epics_found. unfold bind at 1.
    match goal with
    | |- context [get_user_input ?p (Some ?d) ?w0] =>
        destruct (@get_user_input_run p d line rest w0 Hin) as (a & -> & D & _)
    end.
    rewrite Hno in D. apply negb_true_iff in D. rewrite D.
    unfold ret. cbn [events]. rewrite <- app_assoc. reflexivity.
Qed.

End EpicHandling.

Lemma epic_handling_outcomes_witness :
  exists tracker,
    epic_handling
      {| srv_connect := fun _ => false;
         srv_search_issues := srv_search_issues ex_srv;
         srv_project_versions := srv_project_versions ex_srv;
         srv_create_issue := srv_create_issue ex_srv;
         srv_transitions := srv_transitions ex_srv;
         srv_transition_issue := srv_transition_issue ex_srv |}
      ex_env (L "amy")
      {| stdin := [L "no"; L "later"]; events := []; fs := ex_fs |}
    = (Ok (Some (None, NA)),
       {| stdin := [L "later"];
          events :=
            [] ++ tracker
            ++ [EvInput
                  (L "No Epics found. Create a new Epic? (yes/no)"
                   ++ L " (Press Enter to accept: '" ++ L "yes"
                   ++ L "') [" ++ L "yes" ++ L "]: ")
                  (Some (L "no"))];
          fs := ex_fs |})
    /\ (tracker = [EvConnect false]
        \/ tracker
           = [EvConnect true;
              EvSearchIssues (epics_jql JIRA_PROJECT_KEY) None]).
Proof.
  apply (proj2 (epic_handling_outcomes
                  {| srv_connect := fun _ => false;
                     srv_search_issues := srv_search_issues ex_srv;
                     srv_project_versions := srv_project_versions ex_srv;
                     srv_create_issue := srv_create_issue ex_srv;
                     srv_transitions := srv_transitions ex_srv;
                     srv_transition_issue := srv_transition_issue ex_srv |}
                  ex_env (L "amy")
                  {| stdin := [L "no"; L "later"]; events := []; fs := ex_fs |})
           (L "no") [L "later"]).
  - reflexivity.
  - left. reflexivity.
  - vm_compute. reflexivity.
Defined.


(* ================================================================= *)
(** * The versions offered for a new Epic *)

Section Versions.

Variables (srv : Server).

Lemma select_fix_versions_names (av : list (str * str)) (w w' : World)
    (r : option (list str)) :
  select_fix_versions av w = (Ok r, w') ->
  match r with
  | None => True
  | Some names => Forall (fun name => In name (map snd av)) names
  end.
Proof.
  unfold select_fix_versions, while_input. intros H0. pattern r.
  eapply while_true_result; [|exact H0]. clear w w' r H0.
  intros w r w' H. cbv beta.
  unfold bind at 1 in H.
  match type of H with
  | context [get_user_input ?q ?d w] =>
      destruct (get_user_input q d w) as [[s|x] w1]; [|discriminate]
  end.
  destruct (negb (truthy (lower s)) || str_eqb (lower s) (L "none"));
    [unfold ret in H; injection H as <- _; exact I|].
  destruct (selected_indices (split (lower s) (L ","))) as [ix|];
    [|unfold ret in H; discriminate].
  destruct (selected_versions_names av ix) as [names|] eqn:SV;
    unfold ret in H; [|discriminate].
  injection H as <- _.
  pose proof (selected_versions_names_spec _ _ SV) as F. clear SV.
  induction F as [|i nm ix' names' (_ & id & Hn) _ IH];
    constructor; [|exact IH].
  apply nth_error_In in Hn. apply in_map_iff. exists (id, nm). auto.
Qed.

(** The versions that [get_project_versions] returns (lines 388-413), and
    with them the Fix Versions offered for a new Epic, are the versions of
    the project that are neither archived nor released, and none when the
    tracker fails; nothing is raised.  So no archived or released version
    is ever picked from the list. *)
Theorem offered_versions_open (p : str) (w : World) :
  exists av w',
    get_project_versions srv p w = (Ok av, w')
    /\ stdin w' = stdin w /\ fs w' = fs w
    /\ (forall id name, In (id, name) av <-> open_version srv p w id name)
    /\ (srv_connect srv (events w) = false
        \/ srv_project_versions srv (events w ++ [EvConnect true]) p = None ->
        av = [])
    /\ forall names w1 w2,
         select_fix_versions av w1 = (Ok (Some names), w2) ->
         Forall (fun name => exists id, open_version srv p w id name) names.
Proof.
  assert (R : exists av w',
            get_project_versions srv p w = (Ok av, w')
            /\ stdin w' = stdin w /\ fs w' = fs w
            /\ (forall id name, In (id, name) av <-> open_version srv p w id name)
            /\ (srv_connect srv (events w) = false
                \/ srv_project_versions srv (events w ++ [EvConnect true]) p
                   = None ->
                av = [])).
  { unfold get_project_versions, try_except, bind, connect, project_versions,
      ret, open_version.
    destruct (srv_connect srv (events w)) eqn:C; cbn [fst snd emit events stdin fs].
    - destruct (srv_project_versions srv (events w ++ [EvConnect true]) p)
        as [vs|] eqn:V; cbn [fst snd emit events stdin fs].
      + eexists _, _. split; [reflexivity|]. split; [reflexivity|].
        split; [reflexivity|]. split.
        * intros id name. rewrite in_map_iff. split.
          -- intros (v & Hv & Hin). apply filter_In in Hin as [Hin Ho].
             apply andb_true_iff in Ho as [Ha Hr].
             apply negb_true_iff in Ha, Hr. injection Hv as <- <-.
             exists vs, v. repeat split; assumption.
          -- intros (vs' & v & _ & Hvs & Hin & <- & <- & Ha & Hr).
             injection Hvs as <-. exists v. split; [reflexivity|].
             apply filter_In. split; [exact Hin|]. rewrite Ha, Hr. reflexivity.
        * intros [H | H]; discriminate.
      + eexists _, _. split; [reflexivity|]. split; [reflexivity|].
        split; [reflexivity|]. split; [|reflexivity].
        intros id name. split; [intros []|].
        intros (vs' & v & _ & Hvs & _). discriminate.
    - eexists _, _. split; [reflexivity|]. split; [reflexivity|].
      split; [reflexivity|]. split; [|reflexivity].
      intros id name. split; [intros []|].
      intros (vs' & v & Hc & _). discriminate. }
  destruct R as (av & w' & G & Si & Fi & Av & Fail).
  exists av, w'. repeat (split; [assumption|]).
  intros names w1 w2 H. apply select_fix_versions_names in H.
  eapply Forall_impl; [|exact H].
  intros name Hn. apply in_map_iff in Hn as ([id nm] & <- & Hin).
  exists id. apply Av. exact Hin.
Qed.

End Versions.

Lemma offered_versions_open_witness :
  Forall (fun name =>
            exists id,
              open_version
                {| srv_connect := srv_connect ex_srv;
                   srv_search_issues := srv_search_issues ex_srv;
                   srv_project_versions :=
                     fun _ _ =>
                       Some [ {| version_id := L "100"; version_name := L "1.0";
                                 version_archived := false;
                                 version_released := true |};
                              {| version_id := L "101"; version_name := L "1.1";
                                 version_archived := false;
                                 version_released := false |} ];
                   srv_create_issue := srv_create_issue ex_srv;
                   srv_transitions := srv_transitions ex_srv;
                   srv_transition_issue := srv_transition_issue ex_srv |}
                JIRA_PROJECT_KEY ex_loop_world id name)
    [L "1.1"].
Proof.
  destruct (offered_versions_open
              {| srv_connect := srv_connect ex_srv;
                 srv_search_issues := srv_search_issues ex_srv;
                 srv_project_versions :=
                   fun _ _ =>
                     Some [ {| version_id := L "100"; version_name := L "1.0";
                               version_archived := false;
                               version_released := true |};
                            {| version_id := L "101"; version_name := L "1.1";
                               version_archived := false;
                               version_released := false |} ];
                 srv_create_issue := srv_create_issue ex_srv;
                 srv_transitions := srv_transitions ex_srv;
                 srv_transition_issue := srv_transition_issue ex_srv |}
              JIRA_PROJECT_KEY ex_loop_world)
    as (av & w' & G & _ & _ & _ & _ & H).
  injection G as <- _.
  apply (H [L "1.1"]
           {| stdin := [L "2"; L "1"]; events := []; fs := ex_fs |}
           {| stdin := [];
              events :=
                [EvInput (L "Select Fix Version(s) by number for the new Epic (comma-separated, or type 'none'): : ")
                   (Some (L "2"));
                 EvInput (L "Select Fix Version(s) by number for the new Epic (comma-separated, or type 'none'): : ")
                   (Some (L "1"))];
              fs := ex_fs |}).
  vm_compute. reflexivity.
Defined.


(* ================================================================= *)
(** * The run on a disk that may refuse an operation *)

Section Disks.

Variables (srv : Server) (env : Env).

Lemma try_except_ok (A : Type) (m : M A) (h : exn -> M A) (w w' : World) (a : A) :
  m w = (Ok a, w') -> try_except m h w = (Ok a, w').
Proof. intros H. unfold try_except. rewrite H. reflexivity. Qed.

Lemma write_file_on_reliable (path : str) (ws : list str) (w : World) :
  write_file_on reliable path ws w = write_file path ws w.
Proof. reflexivity. Qed.

Lemma append_committed_on_reliable (path : str) (rs : list str) (w : World) :
  append_committed_on reliable path rs w = append_committed path rs w.
Proof.
  unfold append_committed_on. destruct rs as [|r rs]; [reflexivity|].
  rewrite append_committed_run. apply try_except_ok.
  exact (append_committed_run path (r :: rs) w).
Qed.

Lemma first_rewrite_on_reliable (path user t : str) (rem : list str) (w : World) :
  first_rewrite_on reliable path user t rem w = first_rewrite path user t rem w.
Proof.
  unfold first_rewrite_on, first_rewrite. rewrite write_file_run.
  apply try_except_ok. rewrite write_file_on_reliable. apply write_file_run.
Qed.

Lemma second_rewrite_on_reliable (path t : str) (rem : list str) (w : World) :
  second_rewrite_on reliable path t rem w = second_rewrite path t rem w.
Proof.
  unfold second_rewrite_on, second_rewrite. rewrite write_file_run.
  apply try_except_ok. rewrite write_file_on_reliable. apply write_file_run.
Qed.

(** On a disk that takes every operation the handlers catch nothing: the
    run is the one of [main]. *)
Lemma write_logs_on_reliable (user : str) (d : Locals) (w : World) :
  write_logs_on reliable user d w = write_logs user d w.
Proof.
  unfold write_logs_on, write_logs, bind.
  rewrite append_committed_on_reliable.
  destruct (append_committed (COMMITTED_FILE_PATH d)
              (all_committed_entries_text d) w) as [[[]|e] w1]; [|reflexivity].
  destruct (remaining_loop 0 (pending_entry_texts d)
              (processed_successfully_texts d) [] w1) as [[rem|e] w2];
    [|reflexivity].
  rewrite first_rewrite_on_reliable.
  destruct (first_rewrite (PENDING_FILE_PATH d) user (template_section d) rem w2)
    as [[[]|e] w3]; [|reflexivity].
  apply second_rewrite_on_reliable.
Qed.

Lemma main_entries_on_found (disk : Disk) (user pn cn c : str) (w : World) :
  assoc user USERS_CONFIG = Some (pn, cn) ->
  fs w (path_join (BASE_DIR env) pn) = Some c ->
  main_entries_on disk srv env user w = main_entries srv env user w.
Proof.
  intros A F. unfold main_entries_on. rewrite A. cbv zeta.
  unfold bind, path_exists. rewrite F. reflexivity.
Qed.

Lemma main_entries_on_unknown (disk : Disk) (user : str) (w : World) :
  assoc user USERS_CONFIG = None ->
  main_entries_on disk srv env user w = main_entries srv env user w.
Proof. intros A. unfold main_entries_on. rewrite A. reflexivity. Qed.

Lemma main_entries_on_missing (disk : Disk) (user pn cn : str) (w : World) :
  assoc user USERS_CONFIG = Some (pn, cn) ->
  fs w (path_join (BASE_DIR env) pn) = None ->
  main_entries_on disk srv env user w
  = match write_file_on disk (path_join (BASE_DIR env) pn)
            (initial_template user) w with
    | (Ok _, w') => (Ok None, w')
    | (Raise e, w') => (Raise e, w')
    end.
Proof.
  intros A F. unfold main_entries_on. rewrite A. cbv zeta.
  unfold bind at 1. unfold path_exists. rewrite F. cbn [negb]. cbv iota beta.
  unfold bind, ret.
  destruct (write_file_on disk (path_join (BASE_DIR env) pn)
              (initial_template user) w) as [[[]|e] w1]; reflexivity.
Qed.

Lemma main_entries_missing (user pn cn : str) (w : World) :
  assoc user USERS_CONFIG = Some (pn, cn) ->
  fs w (path_join (BASE_DIR env) pn) = None ->
  main_entries srv env user w
  = match write_file (path_join (BASE_DIR env) pn) (initial_template user) w with
    | (Ok _, w') => (Ok None, w')
    | (Raise e, w') => (Raise e, w')
    end.
Proof.
  intros A F. unfold main_entries. rewrite A. cbv zeta.
  unfold bind at 1. unfold path_exists. rewrite F. cbn [negb]. cbv iota beta.
  unfold bind, ret.
  destruct (write_file (path_join (BASE_DIR env) pn)
              (initial_template user) w) as [[[]|e] w1]; reflexivity.
Qed.

Lemma main_entries_on_reliable (user : str) (w : World) :
  main_entries_on reliable srv env user w = main_entries srv env user w.
Proof.
  destruct (assoc user USERS_CONFIG) as [[pn cn]|] eqn:A.
  - destruct (fs w (path_join (BASE_DIR env) pn)) as [c|] eqn:F.
    + eapply main_entries_on_found; eassumption.
    + rewrite (@main_entries_on_missing reliable _ _ _ _ A F),
        (@main_entries_missing _ _ _ _ A F).
      rewrite write_file_on_reliable. reflexivity.
  - apply main_entries_on_unknown. exact A.
Qed.

Lemma main_on_reliable (user : str) (w : World) :
  main_on reliable srv env user w = main srv env user w.
Proof.
  unfold main_on, main, bind. rewrite main_entries_on_reliable.
  destruct (main_entries srv env user w) as [[[d|]|e] w1]; try reflexivity.
  apply write_logs_on_reliable.
Qed.

(** Whatever the disk refuses at the end of the run is caught. *)
Lemma logged_ok (m : M unit) (msg : exn -> str) (w : World) :
  exists w', try_except m (fun e => log ERROR (msg e)) w = (Ok tt, w').
Proof.
  unfold try_except, log. destruct (m w) as [[[]|e] w1]; eexists; reflexivity.
Qed.

Lemma write_logs_on_total (disk : Disk) (user : str) (d : Locals) (w : World) :
  exists w', write_logs_on disk user d w = (Ok tt, w').
Proof.
  unfold write_logs_on, bind.
  assert (A : exists w1, append_committed_on disk (COMMITTED_FILE_PATH d)
                           (all_committed_entries_text d) w = (Ok tt, w1)).
  { unfold append_committed_on.
    destruct (all_committed_entries_text d); [eexists; reflexivity|].
    apply logged_ok. }
  destruct A as [w1 ->].
  destruct (remaining_loop_result 0 (pending_entry_texts d)
              (processed_successfully_texts d) [] w1) as (w2 & -> & _).
  unfold first_rewrite_on.
  match goal with
  | |- context [try_except ?m (fun e => log ERROR (@?msg e)) w2] =>
      destruct (logged_ok m msg w2) as [w3 ->]
  end.
  unfold second_rewrite_on. apply logged_ok.
Qed.

(** What a refused operation leaves behind. *)
Lemma fs_op_on_cases (disk : Disk) (ev : Event) (w : World) :
  fs_op_on disk ev w = (Raise OSError, w)
  \/ fs_op_on disk ev w = (Ok tt, after_events [ev] w).
Proof.
  unfold fs_op_on. destruct (disk (events w) ev); [left | right]; reflexivity.
Qed.

Lemma for_each_write_on (disk : Disk) (path : str) (ws : list str) (w : World) :
  exists r done,
    for_each ws (write_on disk path) w
    = (r, after_events (map (EvWrite path) done) w)
    /\ (r = Ok tt \/ r = Raise OSError).
Proof.
  revert w. induction ws as [|x ws IH]; intros w; cbn [for_each].
  - exists (Ok tt), []. unfold ret. cbn [map]. rewrite after_events_nil. auto.
  - unfold bind.
    change (write_on disk path x w) with (fs_op_on disk (EvWrite path x) w).
    destruct (fs_op_on_cases disk (EvWrite path x) w) as [-> | ->].
    + exists (Raise OSError), []. cbn [map]. rewrite after_events_nil. auto.
    + destruct (IH (after_events [EvWrite path x] w)) as (r & done & -> & R).
      exists r, (x :: done). rewrite after_events_app. auto.
Qed.

Lemma write_file_on_cases (disk : Disk) (path : str) (ws : list str) (w : World) :
  exists r done,
    write_file_on disk path ws w = (r, after_events done w)
    /\ (r = Ok tt \/ r = Raise OSError)
    /\ Forall (fun ev => touches path ev = true) done.
Proof.
  unfold write_file_on, bind, open_w_on.
  destruct (fs_op_on_cases disk (EvOpenW path) w) as [-> | ->].
  - exists (Raise OSError), []. rewrite after_events_nil.
    split; [reflexivity|]. split; [auto | constructor].
  - destruct (for_each_write_on disk path ws (after_events [EvOpenW path] w))
      as (r & done & -> & R).
    exists r, (EvOpenW path :: map (EvWrite path) done).
    rewrite after_events_app. split; [reflexivity|]. split; [exact R|].
    constructor.
    + unfold touches. cbn [event_path]. apply str_eqb_refl.
    + apply Forall_forall. intros ev Hev. apply in_map_iff in Hev as (x & <- & _).
      unfold touches. cbn [event_path]. apply str_eqb_refl.
Qed.

(** A run is interrupted by the end of the console input, and by nothing
    else but a disk that refuses the creation of a missing pending log
    (line 417, which stands in no [try]): what the tracker raises is dealt
    with where it is raised, and so is a log that cannot be read or
    written.  When the creation of the log is refused, nothing was read
    and no other file was touched. *)
Theorem main_interrupted_at_eof (disk : Disk) (user : str) (w : World) (e : exn) :
  fst (main_on disk srv env user w) = Raise e ->
  let w' := snd (main_on disk srv env user w) in
  (e = EOFError /\ stdin w' = []
   /\ exists pn cn content,
        assoc user USERS_CONFIG = Some (pn, cn)
        /\ fs w (path_join (BASE_DIR env) pn) = Some content)
  \/ (e = OSError /\ stdin w' = stdin w
      /\ exists pn cn,
           assoc user USERS_CONFIG = Some (pn, cn)
           /\ fs w (path_join (BASE_DIR env) pn) = None
           /\ forall q, q <> path_join (BASE_DIR env) pn -> fs w' q = fs w q).
Proof.
  cbv zeta. unfold main_on, bind.
  destruct (assoc user USERS_CONFIG) as [[pn cn]|] eqn:A.
  2:{ rewrite (@main_entries_on_unknown disk user w A).
      destruct (main_entries srv env user w) as [[[d|]|x] w1] eqn:H.
      - destruct (write_logs_on_total disk user d w1) as [w2 ->]. discriminate.
      - discriminate.
      - apply main_entries_cases in H as (_ & pn & cn & c & A' & _). congruence. }
  destruct (fs w (path_join (BASE_DIR env) pn)) as [c|] eqn:F.
  - rewrite (@main_entries_on_found disk user pn cn c w A F).
    destruct (main_entries srv env user w) as [[[d|]|x] w1] eqn:H.
    + destruct (write_logs_on_total disk user d w1) as [w2 ->]. discriminate.
    + discriminate.
    + cbn [fst snd]. intros [= <-]. left.
      destruct (@at_eof_main_entries srv env user _ _ _ H) as [-> S].
      split; [reflexivity|]. split; [exact S|]. exists pn, cn, c. auto.
  - rewrite (@main_entries_on_missing disk user pn cn w A F).
    destruct (write_file_on_cases disk (path_join (BASE_DIR env) pn)
                (initial_template user) w) as (r & done & -> & R & T).
    destruct R as [-> | ->]; [discriminate|].
    cbn [fst snd]. intros [= <-]. right.
    split; [reflexivity|]. split; [reflexivity|].
    exists pn, cn. split; [reflexivity|]. split; [exact F|].
    intros q Hq. unfold after_events. cbn [fs]. apply apply_events_other.
    eapply Forall_impl; [|exact T]. intros ev Hev. unfold touches in *.
    destruct (event_path ev) as [p0|]; [|discriminate].
    apply str_eqb_eq in Hev. subst p0. apply str_eqb_neq. congruence.
Qed.

End Disks.

Lemma main_interrupted_at_eof_witness :
  let disk : Disk := fun _ _ => true in
  let w := {| stdin := [L "amy"]; events := []; fs := fun _ => None |} in
  fst (main_on disk ex_srv ex_env (L "Amy") w) = Raise OSError
  /\ stdin (snd (main_on disk ex_srv ex_env (L "Amy") w)) = stdin w.
Proof.
  intros disk w.
  destruct (@main_interrupted_at_eof ex_srv ex_env disk (L "Amy") w OSError)
    as [(E & _) | (_ & S & _)].
  - reflexivity.
  - discriminate.
  - split; [reflexivity | exact S].
Defined.


(* ================================================================= *)
(** * The logs after a run on a disk that refuses nothing *)


Section Accepting.

Variables (srv : Server) (env : Env) (user : str) (disk : Disk).
Hypothesis accepts : forall evs e, disk evs e = false.









End Accepting.






(* ================================================================= *)
(** * Where the claims on the status and on the duplicates fail *)




(* ================================================================= *)
(** * The Fix Versions picked for a new Epic *)

(** What a loop returns and where it stops, one of its rounds returned and
    stopped there. *)
Lemma while_true_final (A : Type) (body : M (option A)) (P : A -> World -> Prop)
    (n : nat) (w w' : World) (a : A) :
  (forall w a w', body w = (Ok (Some a), w') -> P a w') ->
  while_true n body w = (Ok a, w') -> P a w'.
Proof.
  intros Hb. revert w. induction n as [|n IH]; intros w H; cbn [while_true] in H;
    destruct (body w) as [[[x|]|e] w1] eqn:E; try discriminate.
  - injection H as <- <-. eapply Hb; exact E.
  - injection H as <- <-. eapply Hb; exact E.
  - eapply IH; exact H.
Qed.

Lemma selected_indices_spec (parts : list str) (l : list Z) :
  selected_indices parts = Some l ->
  Forall2 (fun part number => py_int (strip part) = Some number) parts
    (map (fun i => (i + 1)%Z) l).
Proof.
  revert l; induction parts as [|x parts IH]; intros l; cbn [selected_indices].
  - intros [= <-]. constructor.
  - destruct (py_int (strip x)) as [n|] eqn:P; [|discriminate].
    destruct (selected_indices parts) as [l'|]; [|discriminate].
    intros [= <-]. cbn [map]. constructor; [|apply IH; reflexivity].
    rewrite P. f_equal. lia.
Qed.

(** The Fix Versions picked for a new Epic (lines 195-215) are decided by
    the last line that the operator typed at the question.  None are
    picked when that line, stripped and in lower case, is empty or [none].
    Otherwise every part of the line between commas is a number, between
    one and the number of versions offered, and the names picked are those
    of the versions with these numbers, in the order typed: a line with a
    part that is no number, or a number out of range such as 0, is never
    accepted. *)
Theorem select_fix_versions_offered (av : list (str * str)) (w w' : World)
    (r : option (list str)) :
  select_fix_versions av w = (Ok r, w') ->
  exists before line,
    events w'
    = before
      ++ [EvInput
            (L "Select Fix Version(s) by number for the new Epic (comma-separated, or type 'none'): "
             ++ L ": ") (Some line)]
    /\ let typed := lower (strip line) in
       match r with
       | None => typed = [] \/ typed = L "none"
       | Some names =>
           typed <> [] /\ typed <> L "none"
           /\ names <> []
           /\ Forall (fun name => In name (map snd av)) names
           /\ exists numbers : list Z,
                Forall2 (fun part number => py_int (strip part) = Some number)
                  (split typed (L ",")) numbers
                /\ Forall (fun number =>
                             (1 <= number <= Z.of_nat (length av))%Z) numbers
                /\ Forall2 (fun number name =>
                              exists id,
                                nth_error av (Z.to_nat (number - 1))
                                = Some (id, name))
                     numbers names
       end.
Proof.
  unfold select_fix_versions, while_input. intros H0.
  pattern r, w'.
  eapply while_true_final; [|exact H0]. clear w w' r H0.
  intros w r w' H. cbv beta.
  bind_inv H as s w1 E.
  unfold get_user_input, bind, input in E.
  destruct (stdin w) as [|line rest]; [discriminate|].
  unfold ret in E. injection E as <- <-.
  exists (events w), line.
  assert (Ew : forall (x : option (list str)),
             ret (Some x)
               {| stdin := rest;
                  events := events w
                            ++ [EvInput
                                  (L "Select Fix Version(s) by number for the new Epic (comma-separated, or type 'none'): "
                                   ++ L ": ") (Some line)];
                  fs := fs w |} = (Ok (Some r), w') ->
             x = r
             /\ events w'
                = events w
                  ++ [EvInput
                        (L "Select Fix Version(s) by number for the new Epic (comma-separated, or type 'none'): "
                         ++ L ": ") (Some line)]).
  { intros x K. unfold ret in K. injection K as <- <-. split; reflexivity. }
  destruct (truthy (lower (strip line))) eqn:T; cbn [negb orb] in H.
  2:{ apply Ew in H as [<- ->]. split; [reflexivity|]. cbv zeta. left.
      destruct (lower (strip line)); [reflexivity | discriminate]. }
  destruct (str_eqb (lower (strip line)) (L "none")) eqn:N.
  { apply Ew in H as [<- ->]. split; [reflexivity|]. cbv zeta. right.
    apply str_eqb_eq. exact N. }
  destruct (selected_indices (split (lower (strip line)) (L ","))) as [ix|] eqn:SI;
    [|unfold ret in H; discriminate].
  destruct (selected_versions_names av ix) as [names|] eqn:SV;
    [|unfold ret in H; discriminate].
  apply Ew in H as [<- ->]. split; [reflexivity|]. cbv zeta. clear Ew.
  pose proof (selected_versions_names_spec _ _ SV) as F.
  split; [intros K; rewrite K in T; discriminate|].
  split; [apply str_eqb_neq; exact N|].
  split; [|split].
  - intros ->. inversion F; subst.
    apply selected_indices_length in SI. cbn [length] in SI.
    pose proof (@split_not_nil (lower (strip line)) (L ",")) as Hn.
    destruct (split (lower (strip line)) (L ",")); [congruence | discriminate].
  - clear SI SV. induction F as [|i nm ix' names' (_ & id & Hn) _ IH];
      constructor; [|exact IH].
    apply nth_error_In in Hn. apply in_map_iff. exists (id, nm). auto.
  - exists (map (fun i => (i + 1)%Z) ix).
    split; [apply selected_indices_spec; exact SI|]. clear SI SV.
    split.
    + induction F as [|i nm ix' names' (Hb & _) _ IH]; cbn [map];
        constructor; [lia | exact IH].
    + induction F as [|i nm ix' names' (Hb & id & Hn) _ IH]; cbn [map];
        constructor; [|exact IH].
      exists id. replace (i + 1 - 1)%Z with i by lia. exact Hn.
Qed.

Lemma select_fix_versions_offered_witness :
  let av := [(L "1", L "v1"); (L "2", L "v2")] in
  let w := {| stdin := [L "0"; L "3"; L "2, 1"]; events := []; fs := ex_fs |} in
  exists before line,
    events (snd (select_fix_versions av w))
    = before
      ++ [EvInput
            (L "Select Fix Version(s) by number for the new Epic (comma-separated, or type 'none'): "
             ++ L ": ") (Some line)]
    /\ exists numbers : list Z,
         Forall2 (fun part number => py_int (strip part) = Some number)
           (split (lower (strip line)) (L ",")) numbers
         /\ Forall (fun number => (1 <= number <= Z.of_nat (length av))%Z) numbers
         /\ Forall2 (fun number name =>
                       exists id,
                         nth_error av (Z.to_nat (number - 1)) = Some (id, name))
              numbers [L "v2"; L "v1"].
Proof.
  intros av w.
  destruct (@select_fix_versions_offered av w (snd (select_fix_versions av w))
              (Some [L "v2"; L "v1"]))
    as (before & line & E & _ & _ & _ & _ & H).
  - vm_compute. reflexivity.
  - exists before, line. split; [exact E | exact H].
Defined.
